(** * btclib: scalar multiplication in Jacobian coordinates and ECDSA

    A shallow embedding of [btclib/curvemult2.py], [btclib/curvegroup2.py]
    and [btclib/dsa.py].  Python integers are [Z]; a Jacobian point is a
    triple of integers; a Python call either returns, raises, or keeps
    running, which is the type [outcome]. *)

From Stdlib Require Import ZArith List Lia Bool.
From Stdlib Require String.
Import ListNotations.
Local Open Scope Z_scope.

(** ** Python effects *)

(** The exceptions the modelled code and its collaborators raise; all of
    them are subclasses of Python's [Exception]. *)
Inductive exn : Set :=
| ValueError
| AssertionError
| IndexError
| OverflowError
| ZeroDivisionError
| TypeError.

(** What a call does: it returns a value, it raises, or its [while] loop
    has not finished within the steps it was given. *)
Inductive outcome (A : Type) : Type :=
| Ret (a : A)
| Raise (e : exn)
| OutOfFuel.

Arguments Ret {A} a.
Arguments Raise {A} e.
Arguments OutOfFuel {A}.

Definition bind {A B : Type} (c : outcome A) (k : A -> outcome B) : outcome B :=
  match c with
  | Ret a => k a
  | Raise e => Raise e
  | OutOfFuel => OutOfFuel
  end.

Notation "x <- c ;; k" := (bind c (fun x => k))
  (at level 61, c at next level, right associativity).
Notation "' pat <- c ;; k" := (bind c (fun x => match x with pat => k end))
  (at level 61, pat pattern, c at next level, right associativity).

(** [try: c except Exception: h]. *)
Definition catch {A : Type} (c : outcome A) (h : outcome A) : outcome A :=
  match c with
  | Ret a => Ret a
  | Raise _ => h
  | OutOfFuel => OutOfFuel
  end.

(** ** Python built-ins *)

(** [l[i]]: a negative index counts from the end, an index outside the
    list raises [IndexError]. *)
Definition py_index {A : Type} (l : list A) (i : Z) : outcome A :=
  let k := if i <? 0 then i + Z.of_nat (length l) else i in
  if k <? 0 then Raise IndexError
  else match nth_error l (Z.to_nat k) with
       | Some a => Ret a
       | None => Raise IndexError
       end.

(** [a % b] for integers: the sign follows the divisor, as [Z.modulo]
    does; a zero divisor raises. *)
Definition py_mod (a b : Z) : outcome Z :=
  if b =? 0 then Raise ZeroDivisionError else Ret (a mod b).

(** [range(a, b)]. *)
Definition py_range (a b : Z) : list Z :=
  map (fun i => a + Z.of_nat i) (seq 0 (Z.to_nat (b - a))).

(** The binary64 value nearest to the integer [n]: [n] itself up to 53
    bits, otherwise [n] rounded to 53 significant bits, ties to even. *)
Definition round53_pos (n : Z) : Z :=
  let e := Z.log2 n + 1 - 53 in
  if e <=? 0 then n
  else
    let q := n / 2 ^ e in
    let r := n mod 2 ^ e in
    if (2 ^ e <? 2 * r) || ((2 * r =? 2 ^ e) && Z.odd q)
    then (q + 1) * 2 ^ e
    else q * 2 ^ e.

Definition round53 (n : Z) : Z := Z.sgn n * round53_pos (Z.abs n).

(** [n / 2] on integers is Python's true division: the quotient rounded
    to the nearest binary64, [OverflowError] when that is 2^1024 or more.
    Halving only changes the exponent, so the float is [round53 n / 2];
    [float_half] returns its double, which is an integer. *)
Definition float_half (n : Z) : outcome Z :=
  let d := round53 n in
  if 2 ^ 1025 <=? Z.abs d then Raise OverflowError else Ret d.

(** [bin(m)[2:]] as a list of digits, most significant first. *)
Fixpoint pos_bits (p : positive) : list Z :=
  match p with
  | xH => [1]
  | xO p' => pos_bits p' ++ [0]
  | xI p' => pos_bits p' ++ [1]
  end.

Definition bin_digits (m : Z) : list Z :=
  match m with
  | Z0 => [0]
  | Zpos p => pos_bits p
  | Zneg p => pos_bits p
  end.

(** ** The curve group (collaborator) *)

Definition JacPoint : Type := (Z * Z * Z)%type.
Definition Point : Type := (Z * Z)%type.

Definition jac_eqb (P Q : JacPoint) : bool :=
  let '(X1, Y1, Z1) := P in
  let '(X2, Y2, Z2) := Q in
  (X1 =? X2) && (Y1 =? Y2) && (Z1 =? Z2).

(** The class [CurveGroup] and the constant [INFJ] of [btclib.alias] are
    not among the sources: the operations the multipliers call are the
    fields of this record. *)
Record CurveGroup : Type := {
  _p : Z;
  INFJ : JacPoint;
  _add_jac : JacPoint -> JacPoint -> JacPoint;
  _double_jac : JacPoint -> JacPoint;
  negate_jac : JacPoint -> JacPoint
}.

(** ** curvemult2.py *)

Section CurveMult2.

Variable ec : CurveGroup.

(** The ladder's loop over the binary digits; [R] and [Q] are the two
    variables of the source. *)
Fixpoint mont_ladder_loop (bits : list Z) (R Q : JacPoint) : JacPoint :=
  match bits with
  | [] => R
  | m :: bits' =>
      if m =? 0
      then mont_ladder_loop bits' (_add_jac ec R R) (_add_jac ec R Q)
      else mont_ladder_loop bits' (_add_jac ec R Q) (_add_jac ec Q Q)
  end.

Definition _mult_jac_mont_ladder (m : Z) (Q : JacPoint) : outcome JacPoint :=
  if m <? 0 then Raise ValueError
  else if jac_eqb Q (INFJ ec) then Ret Q
  else Ret (mont_ladder_loop (bin_digits m) (INFJ ec) Q).

(** [while n: digits.append(int(n % b)); n //= b]. *)
Fixpoint numberToBase_loop (fuel : nat) (n b : Z) (digits : list Z)
  : outcome (list Z) :=
  if n =? 0 then Ret digits
  else match fuel with
       | O => OutOfFuel
       | S fuel' =>
           if b =? 0 then Raise ZeroDivisionError
           else numberToBase_loop fuel' (n / b) b (digits ++ [n mod b])
       end.

Definition numberToBase (fuel : nat) (n b : Z) : outcome (list Z) :=
  if n =? 0 then Ret [0]
  else digits <- numberToBase_loop fuel n b [] ;; Ret (rev digits).

(** [for i in range(1, b): T.append(ec._add_jac(T[i - 1], Q))]:
    [k] further entries, each the last one plus [Q]. *)
Fixpoint table_from (k : nat) (last Q : JacPoint) : list JacPoint :=
  match k with
  | O => []
  | S k' => let next := _add_jac ec last Q in next :: table_from k' next Q
  end.

(** The loop of the base-3 multiplier over [M[1:]]. *)
Fixpoint base_3_loop (T : list JacPoint) (M : list Z) (R : JacPoint)
  : outcome JacPoint :=
  match M with
  | [] => Ret R
  | d :: M' =>
      let R2 := _add_jac ec R R in
      let R := _add_jac ec R2 R in
      Td <- py_index T d ;;
      base_3_loop T M' (_add_jac ec R Td)
  end.

Definition _mult_jac_base_3 (fuel : nat) (m : Z) (Q : JacPoint)
  : outcome JacPoint :=
  if m <? 0 then Raise ValueError
  else if jac_eqb Q (INFJ ec) then Ret Q
  else
    let T := INFJ ec :: table_from 2 (INFJ ec) Q in
    M <- numberToBase fuel m 3 ;;
    M0 <- py_index M 0 ;;
    R <- py_index T M0 ;;
    base_3_loop T (tl M) R.

(** [for j in range(w): R = ec._add_jac(R, R)]. *)
Definition add_self_times (w : Z) (R : JacPoint) : JacPoint :=
  Nat.iter (Z.to_nat w) (fun R => _add_jac ec R R) R.

Fixpoint fixed_window_loop (w : Z) (T : list JacPoint) (M : list Z)
  (R : JacPoint) : outcome JacPoint :=
  match M with
  | [] => Ret R
  | d :: M' =>
      let R := add_self_times w R in
      Td <- py_index T d ;;
      fixed_window_loop w T M' (_add_jac ec R Td)
  end.

Definition _mult_jac_fixed_window (fuel : nat) (m w : Z) (Q : JacPoint)
  : outcome JacPoint :=
  if m <? 0 then Raise ValueError
  else if jac_eqb Q (INFJ ec) then Ret Q
  else if w <=? 0 then Raise ValueError
  else
    let b := 2 ^ w in
    let T := INFJ ec :: table_from (Z.to_nat (b - 1)) (INFJ ec) Q in
    M <- numberToBase fuel m b ;;
    M0 <- py_index M 0 ;;
    R <- py_index T M0 ;;
    fixed_window_loop w T (tl M) R.

End CurveMult2.

(** ** curvegroup2.py *)

Section CurveGroup2.

Variable ec : CurveGroup.

(** Signed modulo.  [w2 / 2] is a float in the source and [M] is
    compared with it exactly.  The callers pass [w >= 1]. *)
Definition mods (m w : Z) : outcome Z :=
  let w2 := 2 ^ w in
  let M := m mod w2 in
  half2 <- float_half w2 ;;
  Ret (if half2 <=? 2 * M then M - w2 else M).

(** Modelled from the spec: [convert_number_to_base] of
    [btclib.curvegroup] is not among the sources; the spec has the
    scalar's digits in the chosen radix, most significant first, which
    is what its sibling [numberToBase] returns. *)
Definition convert_number_to_base (fuel : nat) (i base : Z)
  : outcome (list Z) :=
  numberToBase fuel i base.

(** [for _ in range(k): P = ec._double_jac(P)]. *)
Definition double_times (k : Z) (P : JacPoint) : JacPoint :=
  Nat.iter (Z.to_nat k) (_double_jac ec) P.

(** [for a in range(1, j): t = 2 * t + digits[i + a]]. *)
Fixpoint window_value (digits : list Z) (i : Z) (range_a : list Z) (t : Z)
  : outcome Z :=
  match range_a with
  | [] => Ret t
  | a :: range' =>
      d <- py_index digits (i + a) ;;
      window_value digits i range' (2 * t + d)
  end.

(** The last, short window:
    [for b in range(i, i + j): R = double(R); if digits[b] == 1: R = R + Q]. *)
Fixpoint short_window (digits : list Z) (range_b : list Z) (Q R : JacPoint)
  : outcome JacPoint :=
  match range_b with
  | [] => Ret R
  | b :: range' =>
      let R := _double_jac ec R in
      d <- py_index digits b ;;
      short_window digits range' Q (if d =? 1 then _add_jac ec R Q else R)
  end.

(** [while i < len(digits)]. *)
Fixpoint sliding_window_loop (fuel : nat) (digits : list Z)
  (T : list JacPoint) (Q : JacPoint) (w p i : Z) (R : JacPoint)
  : outcome JacPoint :=
  let len := Z.of_nat (length digits) in
  if i <? len then
    match fuel with
    | O => OutOfFuel
    | S fuel' =>
        di <- py_index digits i ;;
        if di =? 0
        then sliding_window_loop fuel' digits T Q w p (i + 1) (_double_jac ec R)
        else
          let j := if len - i <? w then len - i else w in
          t <- window_value digits i (py_range 1 j) di ;;
          if j <? w
          then short_window digits (py_range i (i + j)) Q R
          else
            let R := double_times w R in
            Tt <- py_index T (t - p) ;;
            sliding_window_loop fuel' digits T Q w p (i + j) (_add_jac ec R Tt)
    end
  else Ret R.

Definition _mult_sliding_window (fuel : nat) (m : Z) (Q : JacPoint) (w : Z)
  : outcome JacPoint :=
  if m <? 0 then Raise ValueError
  else if w <=? 0 then Raise ValueError
  else
    let k := w - 1 in
    let p := 2 ^ k in
    let P := double_times k Q in
    let T := P :: table_from ec (Z.to_nat (p - 1)) P Q in
    digits <- convert_number_to_base fuel m 2 ;;
    sliding_window_loop fuel digits T Q w p 0 (INFJ ec).

(** [while m > 0]: the signed digits, least significant first; the
    source's [i] is [len(M)]. *)
Fixpoint w_NAF_digits (fuel : nat) (m w : Z) (M : list Z)
  : outcome (list Z) :=
  if 0 <? m then
    match fuel with
    | O => OutOfFuel
    | S fuel' =>
        if m mod 2 =? 1
        then d <- mods m w ;;
             w_NAF_digits fuel' ((m - d) / 2) w (M ++ [d])
        else w_NAF_digits fuel' (m / 2) w (M ++ [0])
    end
  else Ret M.

(** [for j in range(p - 1, -1, -1)], over the digits from the last
    one back to the first. *)
Fixpoint w_NAF_loop (T : list JacPoint) (b : Z) (Mrev : list Z)
  (R : JacPoint) : outcome JacPoint :=
  match Mrev with
  | [] => Ret R
  | Mj :: Mrev' =>
      let R := _double_jac ec R in
      if Mj =? 0 then w_NAF_loop T b Mrev' R
      else if 0 <? Mj
      then Tj <- py_index T ((Mj - 1) / 2) ;;
           w_NAF_loop T b Mrev' (_add_jac ec R Tj)
      else Tj <- py_index T (b / 2 - (Mj + 1) / 2) ;;
           w_NAF_loop T b Mrev' (_add_jac ec R Tj)
  end.

(** The table: the odd multiples (entries [0 .. b//2 - 1]), then their
    negations, [T[i] = negate(T[i - b//2])] for [i] in
    [b//2 .. b - 1]. *)
Definition w_NAF_table (b : Z) (Q : JacPoint) : list JacPoint :=
  let Q2 := _double_jac ec Q in
  let T := Q :: table_from ec (Z.to_nat (b / 2 - 1)) Q Q2 in
  T ++ map (negate_jac ec) T.

Definition _mult_w_NAF (fuel : nat) (m : Z) (Q : JacPoint) (w : Z)
  : outcome JacPoint :=
  if m <? 0 then Raise ValueError
  else if w <=? 0 then Raise ValueError
  else if m =? 0 then Ret (INFJ ec)
  else
    M <- w_NAF_digits fuel m w [] ;;
    let b := 2 ^ w in
    let T := w_NAF_table b Q in
    w_NAF_loop T b (rev M) (INFJ ec).

End CurveGroup2.

(** ** dsa.py *)

Module EC.

(** The class [Curve] of [btclib.curve] (not among the sources): a
    [CurveGroup] with the order [n] of the generator, the cofactor [h],
    the generator [GJ] and the methods [dsa.py] calls. *)
Record Curve : Type := {
  group : CurveGroup;
  n : Z;
  h : Z;
  GJ : JacPoint;
  y_odd : Z -> Z -> outcome Z;
  _aff_from_jac : JacPoint -> outcome Point
}.

End EC.

Definition bytes : Type := list Byte.byte.

(** A hash function: the digest of a message. *)
Definition HashF : Type := bytes -> outcome bytes.

(** [String = Union[str, bytes]]. *)
Inductive StringT : Type :=
| Str (s : String.string)
| Bytes (b : bytes).

(** [DSASig]: the pair [(r, s)] or its DER encoding. *)
Inductive DSASig : Type :=
| SigTuple (r s : Z)
| SigDER (b : bytes).

(** The functions [dsa.py] imports from modules that are not among the
    sources. *)
Record Collaborators (PrvKey PubKey : Type) : Type := {
  mod_inv : Z -> Z -> outcome Z;
  _mult_jac : Z -> JacPoint -> EC.Curve -> outcome JacPoint;
  _double_mult : Z -> JacPoint -> Z -> JacPoint -> EC.Curve -> outcome JacPoint;
  _rfc6979 : Z -> Z -> EC.Curve -> HashF -> outcome Z;
  int_from_bits : bytes -> EC.Curve -> outcome Z;
  int_from_prvkey : PrvKey -> EC.Curve -> outcome Z;
  to_pub_tuple : PubKey -> EC.Curve -> outcome Point;
  der_deserialize : bytes -> EC.Curve -> outcome (Z * Z * Z)
}.

Arguments mod_inv {PrvKey PubKey} _ _ _.
Arguments _mult_jac {PrvKey PubKey} _ _ _ _.
Arguments _double_mult {PrvKey PubKey} _ _ _ _ _ _.
Arguments _rfc6979 {PrvKey PubKey} _ _ _ _ _.
Arguments int_from_bits {PrvKey PubKey} _ _ _.
Arguments int_from_prvkey {PrvKey PubKey} _ _ _.
Arguments to_pub_tuple {PrvKey PubKey} _ _ _.
Arguments der_deserialize {PrvKey PubKey} _ _ _.

Section DSA.

Context {PrvKey PubKey : Type}.
Variable co : Collaborators PrvKey PubKey.

(** [msg.encode()] when [msg] is a [str]. *)
Definition encode (msg : StringT) : bytes :=
  match msg with
  | Str s => String.list_byte_of_string s
  | Bytes b => b
  end.

Definition _challenge (msg : bytes) (ec : EC.Curve) (hf : HashF) : outcome Z :=
  mhd <- hf msg ;;
  int_from_bits co mhd ec.

(** [RJ[0] * mod_inv(RJ[2] * RJ[2], ec._p) % ec._p]. *)
Definition x_from_jac (RJ : JacPoint) (ec : EC.Curve) : outcome Z :=
  let '(X, _, Z) := RJ in
  i <- mod_inv co (Z * Z) (_p (EC.group ec)) ;;
  py_mod (X * i) (_p (EC.group ec)).

Definition _sign (c q k : Z) (ec : EC.Curve) : outcome (Z * Z) :=
  RJ <- _mult_jac co k (EC.GJ ec) ec ;;
  Rx <- x_from_jac RJ ec ;;
  r <- py_mod Rx (EC.n ec) ;;
  if r =? 0 then Raise ValueError
  else
    k1 <- mod_inv co k (EC.n ec) ;;
    s <- py_mod (k1 * (c + r * q)) (EC.n ec) ;;
    if s =? 0 then Raise ValueError
    else
      (* if s > ec.n / 2 *)
      half2 <- float_half (EC.n ec) ;;
      Ret (r, if half2 <? 2 * s then EC.n ec - s else s).

Definition sign (msg : StringT) (q : PrvKey) (k : option Z)
  (ec : EC.Curve) (hf : HashF) : outcome (Z * Z) :=
  let msg := encode msg in
  c <- _challenge msg ec hf ;;
  d <- int_from_prvkey co q ec ;;
  k <- match k with
       | None => _rfc6979 co c d ec hf
       | Some k => Ret k
       end ;;
  if (0 <? k) && (k <? EC.n ec)
  then _sign c d k ec
  else Raise ValueError.

Definition _check_sig (r s : Z) (ec : EC.Curve) : outcome unit :=
  if negb ((0 <? r) && (r <? EC.n ec)) then Raise ValueError
  else if negb ((0 <? s) && (s <? EC.n ec)) then Raise ValueError
  else Ret tt.

(** The [assert] statements are executed: Python runs without [-O]. *)
Definition _verhlp (c : Z) (PJ : JacPoint) (r s : Z) (ec : EC.Curve)
  : outcome unit :=
  let '(_, _, PZ) := PJ in
  if PZ =? 0 then Raise ValueError
  else
    w <- mod_inv co s (EC.n ec) ;;
    let u := c * w in
    let v := r * w in
    RJ <- _double_mult co v PJ u (EC.GJ ec) ec ;;
    let '(_, _, RZ) := RJ in
    if RZ =? 0 then Raise AssertionError
    else
      Rx <- x_from_jac RJ ec ;;
      x <- py_mod Rx (EC.n ec) ;;
      if r =? x then Ret tt else Raise AssertionError.

(** [r, s] of a signature: checked when given as a pair, decoded when
    given in DER. *)
Definition sig_rs (sig : DSASig) (ec : EC.Curve) : outcome (Z * Z) :=
  match sig with
  | SigTuple r s => _ <- _check_sig r s ec ;; Ret (r, s)
  | SigDER b => '(r, s, _) <- der_deserialize co b ec ;; Ret (r, s)
  end.

Definition _verify (msg : StringT) (P : PubKey) (sig : DSASig)
  (ec : EC.Curve) (hf : HashF) : outcome unit :=
  let msg := encode msg in
  '(r, s) <- sig_rs sig ec ;;
  c <- _challenge msg ec hf ;;
  '(Px, Py) <- to_pub_tuple co P ec ;;
  let PJ := (Px, Py, if Py =? 0 then 0 else 1) in
  _verhlp c PJ r s ec.

(** [try: _verify(...) except Exception: return False else: return True]. *)
Definition verify (msg : StringT) (P : PubKey) (sig : DSASig)
  (ec : EC.Curve) (hf : HashF) : outcome bool :=
  match _verify msg P sig ec hf with
  | Ret _ => Ret true
  | Raise _ => Ret false
  | OutOfFuel => OutOfFuel
  end.

(** One candidate of [_recover_pubkeys]: [_double_mult], then
    [try: _verhlp(...) except Exception: pass else: keys.append(QJ)].
    An exception of [_double_mult] leaves through the outer [try]. *)
Definition try_candidate (c r s r1s r1e : Z) (RJ : JacPoint) (ec : EC.Curve)
  (keys : list JacPoint) : outcome (list JacPoint) :=
  QJ <- _double_mult co r1s RJ r1e (EC.GJ ec) ec ;;
  match _verhlp c QJ r s ec with
  | Ret _ => Ret (keys ++ [QJ])
  | Raise _ => Ret keys
  | OutOfFuel => OutOfFuel
  end.

(** The body of [for j in range(ec.h)]; [keys] is the list built so
    far.  An exception inside the outer [try] ends the iteration and
    keeps what was appended before it. *)
Definition recover_step (c r s r1s r1e : Z) (ec : EC.Curve) (j : Z)
  (keys : list JacPoint) : outcome (list JacPoint) :=
  x <- py_mod (r + j * EC.n ec) (_p (EC.group ec)) ;;
  match EC.y_odd ec x 0 with
  | Ret yodd =>
      match try_candidate c r s r1s r1e (x, yodd, 1) ec keys with
      | Ret keys1 =>
          catch (try_candidate c r s r1s r1e
                   (x, _p (EC.group ec) - yodd, 1) ec keys1)
                (Ret keys1)
      | Raise _ => Ret keys
      | OutOfFuel => OutOfFuel
      end
  | Raise _ => Ret keys
  | OutOfFuel => OutOfFuel
  end.

Fixpoint recover_loop (c r s r1s r1e : Z) (ec : EC.Curve) (js : list Z)
  (keys : list JacPoint) : outcome (list JacPoint) :=
  match js with
  | [] => Ret keys
  | j :: js' =>
      keys' <- recover_step c r s r1s r1e ec j keys ;;
      recover_loop c r s r1s r1e ec js' keys'
  end.

Definition _recover_pubkeys (c r s : Z) (ec : EC.Curve)
  : outcome (list JacPoint) :=
  r1 <- mod_inv co r (EC.n ec) ;;
  let r1s := r1 * s in
  let r1e := - r1 * c in
  recover_loop c r s r1s r1e ec (py_range 0 (EC.h ec)) [].

(** [[f(x) for x in l]]. *)
Fixpoint map_outcome {A B : Type} (f : A -> outcome B) (l : list A)
  : outcome (list B) :=
  match l with
  | [] => Ret []
  | a :: l' => b <- f a ;; bs <- map_outcome f l' ;; Ret (b :: bs)
  end.

Definition recover_pubkeys (msg : StringT) (sig : DSASig)
  (ec : EC.Curve) (hf : HashF) : outcome (list Point) :=
  let msg := encode msg in
  c <- _challenge msg ec hf ;;
  '(r, s) <- sig_rs sig ec ;;
  QJs <- _recover_pubkeys c r s ec ;;
  map_outcome (EC._aff_from_jac ec) QJs.

Definition _recover_pubkey (key_id c r s : Z) (ec : EC.Curve)
  : outcome (option JacPoint) :=
  r1 <- mod_inv co r (EC.n ec) ;;
  let r1s := r1 * s in
  let r1e := - r1 * c in
  let j := Z.land key_id 6 in
  x <- py_mod (r + j * EC.n ec) (_p (EC.group ec)) ;;
  let i := Z.land key_id 1 in
  catch
    (y <- EC.y_odd ec x i ;;
     let RJ := (x, y, 1) in
     QJ <- _double_mult co r1s RJ r1e (EC.GJ ec) ec ;;
     _ <- _verhlp c QJ r s ec ;;
     Ret (Some QJ))
    (Ret None).

(** The single candidate as the specification words it: bit 0 of
    [key_id] selects the parity of y, the remaining bits, [key_id]
    shifted right by one, select [j].  To be compared with
    [_recover_pubkey]. *)
Definition spec_recover_pubkey (key_id c r s : Z) (ec : EC.Curve)
  : outcome (option JacPoint) :=
  r1 <- mod_inv co r (EC.n ec) ;;
  let r1s := r1 * s in
  let r1e := - r1 * c in
  let j := Z.shiftr key_id 1 in
  x <- py_mod (r + j * EC.n ec) (_p (EC.group ec)) ;;
  let i := Z.land key_id 1 in
  catch
    (y <- EC.y_odd ec x i ;;
     let RJ := (x, y, 1) in
     QJ <- _double_mult co r1s RJ r1e (EC.GJ ec) ec ;;
     _ <- _verhlp c QJ r s ec ;;
     Ret (Some QJ))
    (Ret None).

End DSA.

(** ** The group the Jacobian points stand for *)

(** The contract of the curve group: an abelian group, the Jacobian
    points that are the infinity encoding or decode to a point of the
    curve ([valid_jac]), and the group element [pt P] each of them stands
    for; addition, doubling and negation of such points follow the group's
    laws, and [Z = 0] is infinity. *)
Record CurveLaws (ec : CurveGroup) : Type := {
  carrier : Type;
  gzero : carrier;
  gplus : carrier -> carrier -> carrier;
  gopp : carrier -> carrier;
  gplus_assoc : forall a b c, gplus a (gplus b c) = gplus (gplus a b) c;
  gplus_comm : forall a b, gplus a b = gplus b a;
  gplus_zero_l : forall a, gplus gzero a = a;
  gplus_opp_l : forall a, gplus (gopp a) a = gzero;
  valid_jac : JacPoint -> Prop;
  pt : JacPoint -> carrier;
  INFJ_valid : valid_jac (INFJ ec);
  INFJ_infinity : pt (INFJ ec) = gzero;
  pt_infinity : forall X Y Z,
      valid_jac (X, Y, Z) -> (pt (X, Y, Z) = gzero <-> Z = 0);
  add_valid : forall P Q,
      valid_jac P -> valid_jac Q -> valid_jac (_add_jac ec P Q);
  add_pt : forall P Q,
      valid_jac P -> valid_jac Q -> pt (_add_jac ec P Q) = gplus (pt P) (pt Q);
  double_valid : forall P, valid_jac P -> valid_jac (_double_jac ec P);
  double_pt : forall P,
      valid_jac P -> pt (_double_jac ec P) = gplus (pt P) (pt P);
  negate_valid : forall P, valid_jac P -> valid_jac (negate_jac ec P);
  negate_pt : forall P, valid_jac P -> pt (negate_jac ec P) = gopp (pt P)
}.

Arguments carrier {ec} _.
Arguments gzero {ec} _.
Arguments gplus {ec} _ _ _.
Arguments gopp {ec} _ _.
Arguments valid_jac {ec} _ _.
Arguments pt {ec} _ _.

(** [[k]g]: [g] added to itself [k] times; the opposite for [k < 0]. *)
Definition smul {ec : CurveGroup} (L : CurveLaws ec) (k : Z) (g : carrier L)
  : carrier L :=
  match k with
  | Z0 => gzero L
  | Zpos p => Pos.iter (gplus L g) (gzero L) p
  | Zneg p => gopp L (Pos.iter (gplus L g) (gzero L) p)
  end.

(** The integer a digit sequence stands for in radix [b], most
    significant digit first, continuing from [acc]. *)
Definition digits_value (b : Z) (ds : list Z) (acc : Z) : Z :=
  fold_left (fun a d => a * b + d) ds acc.

(** The call [o] returns a Jacobian point that is [[m]Q] in the group,
    and infinity when [m = 0]. *)
Definition returns_multiple {ec : CurveGroup} (L : CurveLaws ec)
  (o : outcome JacPoint) (m : Z) (Q : JacPoint) : Prop :=
  exists R, o = Ret R /\ valid_jac L R /\
            pt L R = smul L m (pt L Q) /\
            (m = 0 -> snd R = 0).

(** Enough steps for the [while] loops of a multiplication by [m]. *)
Definition enough_fuel (fuel : nat) (m : Z) : Prop := m < Z.of_nat fuel.

(** The affine result of a multiplication: [ec._aff_from_jac(R)] on the
    point the multiplier returned. *)
Definition to_affine (ec : EC.Curve) (o : outcome JacPoint) : outcome Point :=
  R <- o ;; EC._aff_from_jac ec R.

(** [_aff_from_jac] gives two Jacobian points of the same group element
    the same affine result. *)
Definition affine_of_group_element (ec : EC.Curve)
  (L : CurveLaws (EC.group ec)) : Prop :=
  forall P Q, valid_jac L P -> valid_jac L Q -> pt L P = pt L Q ->
              EC._aff_from_jac ec P = EC._aff_from_jac ec Q.

(** The collaborators [verify] and [recover_pubkeys] reach before any
    scalar multiplication (the hash function, the integer of the digest,
    the decoders of the key and of the signature) and the ones of strict
    verification return or raise: none of them runs forever. *)
Record collaborators_return {PrvKey PubKey : Type}
  (co : Collaborators PrvKey PubKey) (ec : EC.Curve) (hf : HashF) : Prop := {
  hf_returns : forall msg, hf msg <> OutOfFuel;
  int_from_bits_returns : forall mhd, int_from_bits co mhd ec <> OutOfFuel;
  to_pub_tuple_returns : forall P, to_pub_tuple co P ec <> OutOfFuel;
  der_deserialize_returns : forall b, der_deserialize co b ec <> OutOfFuel;
  mod_inv_returns : forall a m, mod_inv co a m <> OutOfFuel;
  double_mult_returns : forall u H v Q,
      _double_mult co u H v Q ec <> OutOfFuel
}.

(** [p] is prime: every smaller positive integer is coprime to it. *)
Definition is_prime (p : Z) : Prop :=
  1 < p /\ forall k, 0 < k < p -> Z.gcd k p = 1.

(** The contract of the curve and of the collaborators of [dsa.py]: the
    generator has prime order [n], [x_of g] is the affine x coordinate of
    a finite group element, the two multiplications compute multiples in
    the group, and [mod_inv] inverts modulo [n]. *)
Record DSALaws {PrvKey PubKey : Type} (ec : EC.Curve)
  (co : Collaborators PrvKey PubKey) (L : CurveLaws (EC.group ec)) : Type := {
  x_of : carrier L -> Z;
  n_prime : is_prime (EC.n ec);
  n_odd : 2 < EC.n ec;
  GJ_valid : valid_jac L (EC.GJ ec);
  GJ_finite : pt L (EC.GJ ec) <> gzero L;
  GJ_order : smul L (EC.n ec) (pt L (EC.GJ ec)) = gzero L;
  x_of_opp : forall g, x_of (gopp L g) = x_of g;
  x_of_jac : forall X Y Z,
      valid_jac L (X, Y, Z) -> Z <> 0 ->
      x_from_jac co (X, Y, Z) ec = Ret (x_of (pt L (X, Y, Z)));
  y_zero_order_2 : forall x,
      valid_jac L (x, 0, 1) ->
      gplus L (pt L (x, 0, 1)) (pt L (x, 0, 1)) = gzero L;
  mod_inv_n : forall a,
      0 < a < EC.n ec ->
      exists i, mod_inv co a (EC.n ec) = Ret i /\ 0 <= i /\
                (a * i) mod EC.n ec = 1;
  mult_jac_spec : forall m Q,
      0 <= m -> valid_jac L Q ->
      exists R, _mult_jac co m Q ec = Ret R /\ valid_jac L R /\
                pt L R = smul L m (pt L Q);
  double_mult_spec : forall u H v Q,
      0 <= u -> 0 <= v -> valid_jac L H -> valid_jac L Q ->
      exists R, _double_mult co u H v Q ec = Ret R /\ valid_jac L R /\
                pt L R = gplus L (smul L u (pt L H)) (smul L v (pt L Q));
  int_from_bits_nonneg : forall b c, int_from_bits co b ec = Ret c -> 0 <= c
}.

Arguments x_of {PrvKey PubKey ec co L} _ _.

(** ** A curve to run the code on

    Short Weierstrass curves [y^2 = x^3 + a x + b] over the prime field of
    [p] elements, [p = 3 (mod 4)], with the usual formulas in Jacobian
    coordinates, and plain implementations of the collaborators. *)

(** Extended Euclid: [(g, x, y)] with [a x + b y = g]. *)
Fixpoint xgcd (fuel : nat) (a b : Z) : Z * Z * Z :=
  match fuel with
  | O => (a, 1, 0)
  | S fuel' =>
      if b =? 0 then (a, 1, 0)
      else
        let '(g, x, y) := xgcd fuel' b (a mod b) in
        (g, y, x - a / b * y)
  end.

Definition euclid_mod_inv (a m : Z) : outcome Z :=
  if m <=? 0 then Raise ValueError
  else
    let '(g, x, _) := xgcd (2 * Z.to_nat (Z.log2 m) + 2) (a mod m) m in
    if g =? 1 then Ret (x mod m) else Raise ValueError.

Definition jac_double (p a : Z) (Q : JacPoint) : JacPoint :=
  let '(X, Y, Z) := Q in
  if Z =? 0 then (7, 0, 0)
  else
    let Y2 := Y * Y in
    let Z2 := Z * Z in
    let W := (3 * X * X + a * Z2 * Z2) mod p in
    let V := (4 * X * Y2) mod p in
    let X3 := (W * W - 2 * V) mod p in
    let Y3 := (W * (V - X3) - 8 * Y2 * Y2) mod p in
    let Z3 := (2 * Y * Z) mod p in
    (X3, Y3, Z3).

Definition jac_add (p a : Z) (Q R : JacPoint) : JacPoint :=
  let '(QX, QY, QZ) := Q in
  let '(RX, RY, RZ) := R in
  if QZ =? 0 then R
  else if RZ =? 0 then Q
  else
    let RZ2 := RZ * RZ in
    let RZ3 := RZ2 * RZ in
    let QZ2 := QZ * QZ in
    let QZ3 := QZ2 * QZ in
    let M := (QX * RZ2) mod p in
    let N := (RX * QZ2) mod p in
    let T := (QY * RZ3) mod p in
    let U := (RY * QZ3) mod p in
    if M =? N then
      if T =? U then jac_double p a Q else (7, 0, 0)
    else
      let W := (U - T) mod p in
      let V := (N - M) mod p in
      let V2 := V * V in
      let V3 := V2 * V in
      let MV2 := M * V2 in
      let X := (W * W - V3 - 2 * MV2) mod p in
      let Y := (W * (MV2 - X) - T * V3) mod p in
      let Z := (V * QZ * RZ) mod p in
      (X, Y, Z).

Definition jac_negate (p : Z) (Q : JacPoint) : JacPoint :=
  let '(X, Y, Z) := Q in (X, (p - Y) mod p, Z).

Definition weierstrass_group (p a : Z) : CurveGroup :=
  {| _p := p;
     INFJ := (7, 0, 0);
     _add_jac := jac_add p a;
     _double_jac := jac_double p a;
     negate_jac := jac_negate p |}.

(** [b ^ e mod m] by squaring. *)
Fixpoint pow_mod_pos (b : Z) (e : positive) (m : Z) : Z :=
  match e with
  | xH => b mod m
  | xO e' => let h := pow_mod_pos b e' m in (h * h) mod m
  | xI e' => let h := pow_mod_pos b e' m in (h * h * b) mod m
  end.

(** The root of [x^3 + a x + b] of the requested parity, for
    [p = 3 (mod 4)]; [ValueError] when [x] is not on the curve. *)
Definition sqrt_y_odd (p a b : Z) (x odd1even0 : Z) : outcome Z :=
  let y2 := (x * x * x + a * x + b) mod p in
  let root := match (p + 1) / 4 with
              | Zpos e => pow_mod_pos y2 e p
              | _ => 1
              end in
  if (root * root) mod p =? y2
  then Ret (if root mod 2 =? odd1even0 then root else p - root)
  else Raise ValueError.

Definition jac_valid (p a b : Z) (Q : JacPoint) : bool :=
  let '(X, Y, Z) := Q in
  (0 <=? X) && (X <? p) && (0 <=? Y) && (Y <? p) && (0 <=? Z) && (Z <? p) &&
  ((Z =? 0) ||
   ((Y * Y) mod p =? (X * X * X + a * X * Z ^ 4 + b * Z ^ 6) mod p)).

Definition aff_from_jac (p : Z) (Q : JacPoint) : outcome Point :=
  let '(X, Y, Z) := Q in
  if Z =? 0 then Raise ValueError
  else
    i2 <- euclid_mod_inv (Z * Z) p ;;
    i3 <- euclid_mod_inv (Z * Z * Z) p ;;
    Ret ((X * i2) mod p, (Y * i3) mod p).

Definition weierstrass_curve (p a b n h : Z) (G : Point) : EC.Curve :=
  {| EC.group := weierstrass_group p a;
     EC.n := n;
     EC.h := h;
     EC.GJ := (fst G, snd G, 1);
     EC.y_odd := sqrt_y_odd p a b;
     EC._aff_from_jac := aff_from_jac p |}.

(** The collaborators: Euclid's inverse, the ladder as [_mult_jac], the
    sum of two ladders on scalars reduced modulo [n] as [_double_mult],
    integers as private keys, affine pairs as public keys, the length of
    the digest as its integer, no DER. *)
Definition plain_double_mult (u : Z) (HJ : JacPoint) (v : Z) (QJ : JacPoint)
  (ec : EC.Curve) : outcome JacPoint :=
  A <- _mult_jac_mont_ladder (EC.group ec) (u mod EC.n ec) HJ ;;
  B <- _mult_jac_mont_ladder (EC.group ec) (v mod EC.n ec) QJ ;;
  Ret (_add_jac (EC.group ec) A B).

Definition plain_collaborators (a b : Z) : Collaborators Z Point :=
  {| mod_inv := euclid_mod_inv;
     _mult_jac := fun m Q ec => _mult_jac_mont_ladder (EC.group ec) m Q;
     _double_mult := plain_double_mult;
     _rfc6979 := fun c d ec hf => Ret ((c + d) mod (EC.n ec - 1) + 1);
     int_from_bits := fun mhd ec => Ret (Z.of_nat (length mhd) mod EC.n ec);
     int_from_prvkey := fun q ec =>
       if (0 <? q) && (q <? EC.n ec) then Ret q else Raise ValueError;
     to_pub_tuple := fun P ec =>
       if jac_valid (_p (EC.group ec)) a b (fst P, snd P, 1)
       then Ret P else Raise ValueError;
     der_deserialize := fun _ _ => Raise ValueError |}.

(** The curve [y^2 = x^3 + 2 x + 7] over the field of 11 elements: 7
    points, generated by [(6, 9)]. *)
Definition ec11_7 : EC.Curve := weierstrass_curve 11 2 7 7 1 (6, 9).
Definition co11_7 : Collaborators Z Point := plain_collaborators 2 7.

(** secp256k1, the default curve of [dsa.py]. *)
Definition secp256k1 : EC.Curve :=
  weierstrass_curve
    0xFFFFFFFFFFFFFFFFFFFFFFFFFFFFFFFFFFFFFFFFFFFFFFFFFFFFFFFEFFFFFC2F
    0 7
    0xFFFFFFFFFFFFFFFFFFFFFFFFFFFFFFFEBAAEDCE6AF48A03BBFD25E8CD0364141
    1
    (0x79BE667EF9DCBBAC55A06295CE870B07029BFCDB2DCE28D959F2815B16F81798,
     0x483ADA7726A3C4655DA4FBFC0E1108A8FD17B448A68554199C47D08FFB10D4B8).
Definition co_secp256k1 : Collaborators Z Point := plain_collaborators 0 7.

(** The curve [y^2 = x^3 + x] over the field of 11 elements: 12 points,
    among them [(0, 0)] of order 2, taken as the generator. *)
Definition ec11_2 : EC.Curve := weierstrass_curve 11 1 0 2 6 (0, 0).
Definition co11_2 : Collaborators Z Point := plain_collaborators 1 0.

(** The hash function that returns the message itself. *)
Definition plain_hash : HashF := fun msg => Ret msg.

(** The group of the 7 points of [ec11_7]: the integers modulo 7, a point
    standing for its logarithm to the base [(6, 9)]. *)
Inductive Z7 : Set := z0 | z1 | z2 | z3 | z4 | z5 | z6.

Definition Z7_val (a : Z7) : Z :=
  match a with
  | z0 => 0 | z1 => 1 | z2 => 2 | z3 => 3 | z4 => 4 | z5 => 5 | z6 => 6
  end.

Definition Z7_of (k : Z) : Z7 :=
  match k mod 7 with
  | 1 => z1 | 2 => z2 | 3 => z3 | 4 => z4 | 5 => z5 | 6 => z6 | _ => z0
  end.

Definition Z7_add (a b : Z7) : Z7 := Z7_of (Z7_val a + Z7_val b).
Definition Z7_opp (a : Z7) : Z7 := Z7_of (- Z7_val a).

(** The six finite points: entry [k - 1] is [[k](6, 9)]. *)
Definition ec11_7_points : list Point :=
  [(6, 9); (10, 2); (7, 1); (7, 10); (10, 9); (6, 2)].

Fixpoint point_index (A : Point) (l : list Point) (k : Z) : Z :=
  match l with
  | [] => 0
  | B :: l' =>
      if (fst A =? fst B) && (snd A =? snd B) then k
      else point_index A l' (k + 1)
  end.

Definition ec11_7_dlog (P : JacPoint) : Z :=
  match aff_from_jac 11 P with
  | Ret A => point_index A ec11_7_points 1
  | _ => 0
  end.

Definition ec11_7_pt (P : JacPoint) : Z7 := Z7_of (ec11_7_dlog P).

Definition ec11_7_valid (P : JacPoint) : Prop := jac_valid 11 2 7 P = true.

Definition ec11_7_x (g : Z7) : Z :=
  fst (nth (Z.to_nat (Z7_val g - 1)) ec11_7_points (0, 0)).

(** All triples of field elements, and those that are valid points. *)
Definition field11 : list Z := py_range 0 11.

Definition all_jac11 : list JacPoint :=
  flat_map (fun X => flat_map (fun Y => map (fun Z => (X, Y, Z)) field11)
                       field11) field11.

Definition ec11_7_valid_points : list JacPoint :=
  Eval vm_compute in filter (jac_valid 11 2 7) all_jac11.

(** Decidable equality of results, to compare them by computation. *)
Definition exn_eqb (e1 e2 : exn) : bool :=
  match e1, e2 with
  | ValueError, ValueError | AssertionError, AssertionError
  | IndexError, IndexError | OverflowError, OverflowError
  | ZeroDivisionError, ZeroDivisionError | TypeError, TypeError => true
  | _, _ => false
  end.

Definition affine_eqb (a b : outcome Point) : bool :=
  match a, b with
  | Ret (x1, y1), Ret (x2, y2) => (x1 =? x2) && (y1 =? y2)
  | Raise e1, Raise e2 => exn_eqb e1 e2
  | OutOfFuel, OutOfFuel => true
  | _, _ => false
  end.

(** A binary digit; a signed digit of the width-[w] non-adjacent form. *)
Definition is_bit (d : Z) : Prop := d = 0 \/ d = 1.

Definition w_NAF_digit (w d : Z) : Prop :=
  d = 0 \/ (Z.odd d = true /\ - 2 ^ (w - 1) < d < 2 ^ (w - 1)).

(** The width-[w] non-adjacent form: after a nonzero digit the next
    [w - 1] digits (as many as there are) are zero. *)
Fixpoint zeros_prefix (k : nat) (ds : list Z) : bool :=
  match k, ds with
  | S k', d :: ds' => (d =? 0) && zeros_prefix k' ds'
  | _, _ => true
  end.

Fixpoint non_adjacent (w : nat) (ds : list Z) : bool :=
  match ds with
  | [] => true
  | d :: ds' => ((d =? 0) || zeros_prefix (w - 1) ds') && non_adjacent w ds'
  end.

(** ** curvemult2.py: the multipliers on affine points *)

(** What the affine multipliers import from modules that are not among
    the sources: [int_from_integer] of [btclib.utils], [_jac_from_aff]
    of [btclib.curve], and the method [require_on_curve] of the curve. *)
Record AffineCollaborators (Integer : Type) : Type := {
  int_from_integer : Integer -> outcome Z;
  require_on_curve : EC.Curve -> Point -> outcome unit;
  _jac_from_aff : Point -> outcome JacPoint
}.

Arguments int_from_integer {Integer} _ _.
Arguments require_on_curve {Integer} _ _ _.
Arguments _jac_from_aff {Integer} _ _.

Section AffineMultipliers.

Context {Integer : Type}.
Variable ac : AffineCollaborators Integer.

(** The first lines of the three functions: [QJ] is the generator when
    [Q is None], else [Q], checked, in Jacobian coordinates. *)
Definition point_or_generator (Q : option Point) (ec : EC.Curve)
  : outcome JacPoint :=
  match Q with
  | None => Ret (EC.GJ ec)
  | Some Q => _ <- require_on_curve ac ec Q ;; _jac_from_aff ac Q
  end.

Definition mult_mont_ladder (m : Integer) (Q : option Point) (ec : EC.Curve)
  : outcome Point :=
  QJ <- point_or_generator Q ec ;;
  m <- int_from_integer ac m ;;
  m <- py_mod m (EC.n ec) ;;
  R <- _mult_jac_mont_ladder (EC.group ec) m QJ ;;
  EC._aff_from_jac ec R.

Definition mult_base_3 (fuel : nat) (m : Integer) (Q : option Point)
  (ec : EC.Curve) : outcome Point :=
  QJ <- point_or_generator Q ec ;;
  m <- int_from_integer ac m ;;
  m <- py_mod m (EC.n ec) ;;
  R <- _mult_jac_base_3 (EC.group ec) fuel m QJ ;;
  EC._aff_from_jac ec R.

Definition mult_fixed_window (fuel : nat) (m w : Integer) (Q : option Point)
  (ec : EC.Curve) : outcome Point :=
  QJ <- point_or_generator Q ec ;;
  m <- int_from_integer ac m ;;
  m <- py_mod m (EC.n ec) ;;
  w <- int_from_integer ac w ;;
  R <- _mult_jac_fixed_window (EC.group ec) fuel m w QJ ;;
  EC._aff_from_jac ec R.

End AffineMultipliers.

(** The collaborators of the affine multipliers on a curve
    [y^2 = x^3 + a x + b]: integers are given as such, a point is on
    the curve when it satisfies the equation. *)
Definition plain_affine_collaborators (a b : Z) : AffineCollaborators Z := {|
  int_from_integer := fun m => Ret m;
  require_on_curve := fun ec Q =>
    if jac_valid (_p (EC.group ec)) a b (fst Q, snd Q, 1)
    then Ret tt else Raise ValueError;
  _jac_from_aff := fun Q => Ret (fst Q, snd Q, 1)
|}.

Definition ac11_7 : AffineCollaborators Z := plain_affine_collaborators 2 7.

(** * Proofs *)

(** ** The group: multiples *)

Section GroupFacts.

Context {ec : CurveGroup} (L : CurveLaws ec).

Local Notation "a [+] b" := (gplus L a b) (at level 50, left associativity).
Local Notation "[-] a" := (gopp L a) (at level 35, right associativity).
Local Notation "0g" := (gzero L).

Lemma gplus_zero_r (a : carrier L) : a [+] 0g = a.
Proof. rewrite gplus_comm. apply gplus_zero_l. Qed.

Lemma gplus_opp_r (a : carrier L) : a [+] [-] a = 0g.
Proof. rewrite gplus_comm. apply gplus_opp_l. Qed.

Lemma gplus_cancel_l (a b c : carrier L) : a [+] b = a [+] c -> b = c.
Proof.
  intros H.
  rewrite <- (gplus_zero_l _ L b), <- (gplus_zero_l _ L c).
  rewrite <- (gplus_opp_l _ L a), <- !gplus_assoc.
  now rewrite H.
Qed.

Lemma gopp_zero : [-] 0g = 0g.
Proof.
  apply (gplus_cancel_l 0g). now rewrite gplus_opp_r, gplus_zero_l.
Qed.

Lemma gopp_gopp (a : carrier L) : [-] [-] a = a.
Proof.
  apply (gplus_cancel_l ([-] a)). now rewrite gplus_opp_r, gplus_opp_l.
Qed.

Lemma gplus_swap (a b c d : carrier L) :
  (a [+] b) [+] (c [+] d) = (a [+] c) [+] (b [+] d).
Proof.
  rewrite <- !gplus_assoc. f_equal.
  rewrite !gplus_assoc. f_equal. apply gplus_comm.
Qed.

Lemma gopp_plus (a b : carrier L) : [-] (a [+] b) = [-] a [+] [-] b.
Proof.
  apply (gplus_cancel_l (a [+] b)).
  now rewrite gplus_opp_r, gplus_swap, !gplus_opp_r, gplus_zero_l.
Qed.

Lemma smul_0 (g : carrier L) : smul L 0 g = 0g.
Proof. reflexivity. Qed.

Lemma smul_1 (g : carrier L) : smul L 1 g = g.
Proof. simpl. apply gplus_zero_r. Qed.

Lemma smul_succ (k : Z) (g : carrier L) :
  0 <= k -> smul L (k + 1) g = g [+] smul L k g.
Proof.
  destruct k as [|p|p]; intros Hk; try lia.
  - reflexivity.
  - change (Z.pos p + 1) with (Z.pos (p + 1)). unfold smul.
    now rewrite Pos.add_1_r, Pos.iter_succ.
Qed.

Lemma smul_add_nonneg (a b : Z) (g : carrier L) :
  0 <= a -> 0 <= b -> smul L (a + b) g = smul L a g [+] smul L b g.
Proof.
  intros Ha Hb. revert a Ha.
  apply natlike_ind.
  - now rewrite Z.add_0_l, smul_0, gplus_zero_l.
  - intros a Ha IH.
    replace (Z.succ a + b) with ((a + b) + 1) by lia.
    replace (Z.succ a) with (a + 1) by lia.
    rewrite !smul_succ, IH by lia. apply gplus_assoc.
Qed.

Lemma smul_opp (k : Z) (g : carrier L) : smul L (- k) g = [-] smul L k g.
Proof.
  destruct k; simpl.
  - now rewrite gopp_zero.
  - reflexivity.
  - now rewrite gopp_gopp.
Qed.

Lemma smul_shift (a N : Z) (g : carrier L) :
  0 <= N -> 0 <= a + N ->
  smul L a g = smul L (a + N) g [+] [-] smul L N g.
Proof.
  intros HN HaN. destruct (Z_le_gt_dec 0 a) as [Ha|Ha].
  - rewrite smul_add_nonneg by lia.
    now rewrite <- gplus_assoc, gplus_opp_r, gplus_zero_r.
  - assert (HN2 : smul L N g = smul L (a + N) g [+] smul L (- a) g).
    { rewrite <- smul_add_nonneg by lia. f_equal. lia. }
    rewrite HN2, gopp_plus, gplus_assoc, gplus_opp_r, gplus_zero_l.
    now rewrite smul_opp, gopp_gopp.
Qed.

Lemma smul_add (a b : Z) (g : carrier L) :
  smul L (a + b) g = smul L a g [+] smul L b g.
Proof.
  rewrite (smul_shift (a + b) (Z.abs a + Z.abs b)) by lia.
  replace (a + b + (Z.abs a + Z.abs b))
    with ((a + Z.abs a) + (b + Z.abs b)) by lia.
  rewrite (smul_add_nonneg (a + Z.abs a) (b + Z.abs b)) by lia.
  rewrite (smul_add_nonneg (Z.abs a) (Z.abs b)) by lia.
  rewrite gopp_plus, gplus_swap.
  now rewrite <- (smul_shift a (Z.abs a)), <- (smul_shift b (Z.abs b)) by lia.
Qed.

Lemma smul_double (k : Z) (g : carrier L) :
  smul L k g [+] smul L k g = smul L (2 * k) g.
Proof. rewrite <- smul_add. f_equal. lia. Qed.

Lemma smul_zero_r (k : Z) : smul L k 0g = 0g.
Proof.
  assert (Hn : forall a, 0 <= a -> smul L a 0g = 0g).
  { apply natlike_ind; [reflexivity|].
    intros a Ha IH. replace (Z.succ a) with (a + 1) by lia.
    now rewrite smul_succ, IH, gplus_zero_l by lia. }
  destruct (Z_le_gt_dec 0 k) as [Hk|Hk]; [now apply Hn|].
  replace k with (- - k) by lia.
  now rewrite smul_opp, Hn, gopp_zero by lia.
Qed.

Lemma smul_mul (a b : Z) (g : carrier L) :
  0 <= a -> smul L (a * b) g = smul L a (smul L b g).
Proof.
  revert a. apply natlike_ind; [reflexivity|].
  intros a Ha IH.
  replace (Z.succ a * b) with (b + a * b) by lia.
  replace (Z.succ a) with (a + 1) by lia.
  rewrite smul_add, IH. rewrite (smul_succ a) by lia. reflexivity.
Qed.

Lemma smul_pow2 (k : nat) (a : Z) (g : carrier L) :
  smul L (2 ^ Z.of_nat k * a) g =
  Nat.iter k (fun x => x [+] x) (smul L a g).
Proof.
  induction k as [|k IH].
  - change (Z.of_nat 0) with 0. now rewrite Z.pow_0_r, Z.mul_1_l.
  - rewrite Nat2Z.inj_succ, Z.pow_succ_r by lia.
    change (Nat.iter (S k) (fun x => x [+] x) (smul L a g))
      with (Nat.iter k (fun x => x [+] x) (smul L a g) [+]
            Nat.iter k (fun x => x [+] x) (smul L a g)).
    rewrite <- IH, smul_double. f_equal. lia.
Qed.

End GroupFacts.

(** ** Built-ins and digits *)

Lemma bind_ret {A B : Type} (c : outcome A) (k : A -> outcome B) (a : A) :
  c = Ret a -> bind c k = k a.
Proof. now intros ->. Qed.

Lemma py_index_nat {A : Type} (l : list A) (i : nat) (a : A) :
  nth_error l i = Some a -> py_index l (Z.of_nat i) = Ret a.
Proof.
  intros H. unfold py_index.
  destruct (Z.ltb_spec (Z.of_nat i) 0); [lia|].
  destruct (Z.ltb_spec (Z.of_nat i) 0); [lia|].
  now rewrite Nat2Z.id, H.
Qed.

Lemma py_index_Z {A : Type} (l : list A) (i : Z) (a : A) :
  0 <= i -> nth_error l (Z.to_nat i) = Some a -> py_index l i = Ret a.
Proof.
  intros Hi H. rewrite <- (Z2Nat.id i) by lia. now apply py_index_nat.
Qed.

Lemma jac_eqb_eq (P Q : JacPoint) : jac_eqb P Q = true -> P = Q.
Proof.
  destruct P as [[X1 Y1] Z1], Q as [[X2 Y2] Z2]. simpl.
  rewrite !andb_true_iff, !Z.eqb_eq. intros [[-> ->] ->]. reflexivity.
Qed.

Lemma digits_value_app (b : Z) (l1 l2 : list Z) (acc : Z) :
  digits_value b (l1 ++ l2) acc = digits_value b l2 (digits_value b l1 acc).
Proof. apply fold_left_app. Qed.

Lemma digits_value_cons (b d : Z) (l : list Z) (acc : Z) :
  digits_value b (d :: l) acc = digits_value b l (acc * b + d).
Proof. reflexivity. Qed.

Lemma pos_bits_value (p : positive) : digits_value 2 (pos_bits p) 0 = Z.pos p.
Proof.
  induction p as [p IH|p IH|]; simpl.
  - rewrite digits_value_app, IH. simpl. lia.
  - rewrite digits_value_app, IH. simpl. lia.
  - reflexivity.
Qed.

Lemma pos_bits_binary (p : positive) : Forall is_bit (pos_bits p).
Proof.
  induction p as [p IH|p IH|]; simpl.
  - apply Forall_app. split; [assumption|]. constructor; [now right|constructor].
  - apply Forall_app. split; [assumption|]. constructor; [now left|constructor].
  - constructor; [now right|constructor].
Qed.

Lemma bin_digits_value (m : Z) : 0 <= m -> digits_value 2 (bin_digits m) 0 = m.
Proof.
  destruct m as [|p|p]; intros H; try lia.
  - reflexivity.
  - apply pos_bits_value.
Qed.

Lemma bin_digits_binary (m : Z) : Forall is_bit (bin_digits m).
Proof.
  destruct m as [|p|p]; simpl; try apply pos_bits_binary.
  constructor; [now left|constructor].
Qed.

Lemma numberToBase_loop_spec (b : Z) :
  2 <= b ->
  forall (fuel : nat) (n : Z) (acc : list Z),
    0 <= n -> n <= Z.of_nat fuel ->
    exists ds,
      numberToBase_loop fuel n b acc = Ret (acc ++ ds) /\
      Forall (fun d => 0 <= d < b) ds /\
      digits_value b (rev ds) 0 = n /\
      (length ds <= fuel)%nat.
Proof.
  intros Hb. induction fuel as [|fuel IH]; intros n acc Hn Hfuel.
  - assert (n = 0) as -> by lia. exists []. simpl.
    rewrite app_nil_r. repeat split; [constructor|lia].
  - simpl. destruct (Z.eqb_spec n 0) as [->|Hn0].
    + exists []. rewrite app_nil_r. repeat split; [constructor|simpl; lia].
    + destruct (Z.eqb_spec b 0) as [Hb0|_]; [lia|].
      assert (Hdiv : 0 <= n / b < n).
      { split; [apply Z.div_pos; lia|apply Z.div_lt; lia]. }
      destruct (IH (n / b) (acc ++ [n mod b]))
        as (ds & Hrun & Hrange & Hval & Hlen); try lia.
      exists (n mod b :: ds). rewrite Hrun, <- app_assoc. repeat split.
      * constructor; [apply Z.mod_pos_bound; lia|assumption].
      * simpl rev. rewrite digits_value_app, Hval. simpl.
        pose proof (Z.div_mod n b). lia.
      * simpl. lia.
Qed.

Lemma numberToBase_spec (fuel : nat) (n b : Z) :
  2 <= b -> 0 <= n -> enough_fuel fuel n ->
  exists d0 M,
    numberToBase fuel n b = Ret (d0 :: M) /\
    Forall (fun d => 0 <= d < b) (d0 :: M) /\
    digits_value b (d0 :: M) 0 = n /\
    (length (d0 :: M) <= fuel)%nat.
Proof.
  unfold enough_fuel. intros Hb Hn Hfuel. unfold numberToBase.
  destruct (Z.eqb_spec n 0) as [->|Hn0].
  - exists 0, []. repeat split; [repeat constructor; lia|simpl; lia].
  - destruct (numberToBase_loop_spec b Hb fuel n [] Hn ltac:(lia))
      as (ds & Hrun & Hrange & Hval & Hlen).
    rewrite Hrun. simpl.
    pose proof (length_rev ds) as Hl.
    destruct (rev ds) as [|d0 M] eqn:Hrev.
    + simpl in Hval. lia.
    + exists d0, M. repeat split; try assumption.
      * rewrite <- Hrev. now apply Forall_rev.
      * simpl in Hl. simpl. lia.
Qed.

(** ** The multipliers of curvemult2.py *)

Section CurveMult2Proofs.

Context {ec : CurveGroup} (L : CurveLaws ec).

Lemma returns_multiple_intro (R : JacPoint) (m : Z) (Q : JacPoint) :
  valid_jac L R -> pt L R = smul L m (pt L Q) ->
  returns_multiple L (Ret R) m Q.
Proof.
  intros HR Hpt. exists R. repeat split; try assumption.
  intros ->. destruct R as [[X Y] Z]. simpl.
  now apply (pt_infinity _ L X Y Z).
Qed.

Lemma returns_multiple_infinity (m : Z) (Q : JacPoint) :
  jac_eqb Q (INFJ ec) = true -> returns_multiple L (Ret Q) m Q.
Proof.
  intros H. apply jac_eqb_eq in H. subst Q.
  apply returns_multiple_intro; [apply INFJ_valid|].
  now rewrite INFJ_infinity, smul_zero_r.
Qed.

Lemma mont_ladder_loop_spec (g : carrier L) (bits : list Z) :
  Forall is_bit bits ->
  forall (k : Z) (R Q : JacPoint),
    0 <= k -> valid_jac L R -> valid_jac L Q ->
    pt L R = smul L k g -> pt L Q = smul L (k + 1) g ->
    valid_jac L (mont_ladder_loop ec bits R Q) /\
    pt L (mont_ladder_loop ec bits R Q) = smul L (digits_value 2 bits k) g.
Proof.
  induction 1 as [|d bits Hd _ IH]; intros k R Q Hk HR HQ HptR HptQ.
  - now split.
  - simpl mont_ladder_loop. rewrite digits_value_cons.
    destruct Hd as [-> | ->]; simpl Z.eqb; cbv iota.
    + apply IH; try lia; try now apply add_valid.
      * rewrite add_pt, HptR, <- smul_add by assumption. f_equal. lia.
      * rewrite add_pt, HptR, HptQ, <- smul_add by assumption. f_equal. lia.
    + apply IH; try lia; try now apply add_valid.
      * rewrite add_pt, HptR, HptQ, <- smul_add by assumption. f_equal. lia.
      * rewrite add_pt, HptQ, <- smul_add by assumption. f_equal. lia.
Qed.

Lemma mont_ladder_returns (m : Z) (Q : JacPoint) :
  0 <= m -> valid_jac L Q ->
  returns_multiple L (_mult_jac_mont_ladder ec m Q) m Q.
Proof.
  intros Hm HQ. unfold _mult_jac_mont_ladder.
  destruct (Z.ltb_spec m 0); [lia|].
  destruct (jac_eqb Q (INFJ ec)) eqn:Hinf.
  - now apply returns_multiple_infinity.
  - destruct (mont_ladder_loop_spec (pt L Q) (bin_digits m)
                (bin_digits_binary m) 0 (INFJ ec) Q) as [Hv Hpt];
      try lia; try assumption.
    + apply INFJ_valid.
    + apply INFJ_infinity.
    + now rewrite smul_1.
    + apply returns_multiple_intro; [assumption|].
      now rewrite Hpt, bin_digits_value.
Qed.

(** The table: entry [i] is the last point plus [i + 1] times the step. *)
Lemma table_from_spec (g : carrier L) (S : JacPoint) (s : Z) :
  valid_jac L S -> pt L S = smul L s g ->
  forall (k : nat) (last : JacPoint) (j : Z),
    valid_jac L last -> pt L last = smul L j g ->
    forall (i : nat) (P : JacPoint),
      nth_error (table_from ec k last S) i = Some P ->
      valid_jac L P /\ pt L P = smul L (j + s * (Z.of_nat i + 1)) g.
Proof.
  intros HS HptS. induction k as [|k IH]; intros last j Hlast Hpt i P Hnth.
  - destruct i; discriminate.
  - simpl in Hnth. destruct i as [|i].
    + injection Hnth as <-. split; [now apply add_valid|].
      rewrite add_pt, Hpt, HptS, <- smul_add by assumption. f_equal. lia.
    + simpl in Hnth.
      destruct (IH (_add_jac ec last S) (j + s)) with (i := i) (P := P)
        as [Hv HP]; try assumption.
      * now apply add_valid.
      * now rewrite add_pt, Hpt, HptS, <- smul_add by assumption.
      * split; [assumption|]. rewrite HP. f_equal. lia.
Qed.

Lemma table_from_length (k : nat) (last S : JacPoint) :
  length (table_from ec k last S) = k.
Proof.
  revert last. induction k as [|k IH]; intros last; simpl; [|rewrite IH];
    reflexivity.
Qed.

(** [T[d]] in the table of the multiples [0 .. k] of [Q]. *)
Lemma multiples_table_index (Q : JacPoint) (k : nat) (d : Z) :
  valid_jac L Q -> 0 <= d <= Z.of_nat k ->
  exists P,
    py_index (INFJ ec :: table_from ec k (INFJ ec) Q) d = Ret P /\
    valid_jac L P /\ pt L P = smul L d (pt L Q).
Proof.
  intros HQ Hd.
  destruct (nth_error (INFJ ec :: table_from ec k (INFJ ec) Q) (Z.to_nat d))
    as [P|] eqn:Hnth.
  - exists P. split; [apply py_index_Z; [lia|assumption]|].
    destruct (Z.to_nat d) as [|i] eqn:Hi.
    + injection Hnth as <-. replace d with 0 by lia.
      split; [apply INFJ_valid|apply INFJ_infinity].
    + simpl in Hnth.
      destruct (table_from_spec (pt L Q) Q 1 HQ (eq_sym (smul_1 L _))
                  k (INFJ ec) 0 (INFJ_valid _ L) (INFJ_infinity _ L) i P Hnth)
        as [Hv HP].
      split; [assumption|]. rewrite HP. f_equal. lia.
  - apply nth_error_None in Hnth. simpl in Hnth.
    rewrite table_from_length in Hnth. lia.
Qed.

Lemma base_3_loop_spec (Q : JacPoint) (T : list JacPoint) :
  (forall d, 0 <= d < 3 ->
     exists P, py_index T d = Ret P /\ valid_jac L P /\
               pt L P = smul L d (pt L Q)) ->
  forall (M : list Z) (acc : Z) (R : JacPoint),
    Forall (fun d => 0 <= d < 3) M ->
    valid_jac L R -> pt L R = smul L acc (pt L Q) ->
    exists R', base_3_loop ec T M R = Ret R' /\ valid_jac L R' /\
               pt L R' = smul L (digits_value 3 M acc) (pt L Q).
Proof.
  intros HT. induction M as [|d M IH]; intros acc R HM HR Hpt.
  - exists R. now repeat split.
  - inversion HM as [|? ? Hd HM']; subst.
    destruct (HT d Hd) as (P & HP & HvP & HptP).
    simpl base_3_loop. rewrite HP. cbn [bind]. rewrite digits_value_cons.
    apply IH; try assumption.
    + repeat apply add_valid; assumption.
    + rewrite !add_pt, Hpt, HptP, <- !smul_add;
        repeat apply add_valid; try assumption.
      f_equal. lia.
Qed.

Lemma base_3_returns (fuel : nat) (m : Z) (Q : JacPoint) :
  0 <= m -> valid_jac L Q -> enough_fuel fuel m ->
  returns_multiple L (_mult_jac_base_3 ec fuel m Q) m Q.
Proof.
  intros Hm HQ Hfuel. unfold _mult_jac_base_3.
  destruct (Z.ltb_spec m 0); [lia|].
  destruct (jac_eqb Q (INFJ ec)) eqn:Hinf.
  - now apply returns_multiple_infinity.
  - destruct (numberToBase_spec fuel m 3)
      as (d0 & M & HM & Hrange & Hval & _); try lia; try assumption.
    rewrite HM. cbn [bind].
    change (py_index (d0 :: M) 0) with (Ret (A := Z) d0). cbn [bind].
    inversion Hrange as [|? ? Hd0 HM']; subst.
    assert (HT : forall d, 0 <= d < 3 ->
              exists P, py_index (INFJ ec :: table_from ec 2 (INFJ ec) Q) d = Ret P /\
                        valid_jac L P /\ pt L P = smul L d (pt L Q)).
    { intros d Hd. apply multiples_table_index; [assumption|]. simpl. lia. }
    destruct (HT d0 Hd0) as (R & HR & HvR & HptR).
    rewrite HR. cbn [bind].
    destruct (base_3_loop_spec Q _ HT M d0 R HM' HvR HptR)
      as (R' & Hrun & Hv' & Hpt').
    cbn [tl]. rewrite Hrun. apply returns_multiple_intro; [assumption|].
    rewrite Hpt'. f_equal.
Qed.

Lemma add_self_iter_spec (k : nat) (acc : Z) (g : carrier L) (R : JacPoint) :
  valid_jac L R -> pt L R = smul L acc g ->
  valid_jac L (Nat.iter k (fun R => _add_jac ec R R) R) /\
  pt L (Nat.iter k (fun R => _add_jac ec R R) R) =
  smul L (2 ^ Z.of_nat k * acc) g.
Proof.
  intros HR Hpt. rewrite smul_pow2, <- Hpt.
  induction k as [|k [IHv IHp]]; [now split|].
  simpl. split; [now apply add_valid|].
  now rewrite add_pt, IHp.
Qed.

Lemma add_self_times_spec (w acc : Z) (g : carrier L) (R : JacPoint) :
  0 <= w -> valid_jac L R -> pt L R = smul L acc g ->
  valid_jac L (add_self_times ec w R) /\
  pt L (add_self_times ec w R) = smul L (2 ^ w * acc) g.
Proof.
  intros Hw HR Hpt. unfold add_self_times.
  destruct (add_self_iter_spec (Z.to_nat w) acc g R HR Hpt) as [Hv Hp].
  rewrite Z2Nat.id in Hp by lia. now split.
Qed.

Lemma fixed_window_loop_spec (w : Z) (Q : JacPoint) (T : list JacPoint) :
  0 <= w ->
  (forall d, 0 <= d < 2 ^ w ->
     exists P, py_index T d = Ret P /\ valid_jac L P /\
               pt L P = smul L d (pt L Q)) ->
  forall (M : list Z) (acc : Z) (R : JacPoint),
    Forall (fun d => 0 <= d < 2 ^ w) M ->
    valid_jac L R -> pt L R = smul L acc (pt L Q) ->
    exists R', fixed_window_loop ec w T M R = Ret R' /\ valid_jac L R' /\
               pt L R' = smul L (digits_value (2 ^ w) M acc) (pt L Q).
Proof.
  intros Hw HT. induction M as [|d M IH]; intros acc R HM HR Hpt.
  - exists R. now repeat split.
  - inversion HM as [|? ? Hd HM']; subst.
    destruct (HT d Hd) as (P & HP & HvP & HptP).
    destruct (add_self_times_spec w acc (pt L Q) R Hw HR Hpt) as [Hv2 Hpt2].
    simpl fixed_window_loop. rewrite HP. cbn [bind]. rewrite digits_value_cons.
    apply IH; try assumption.
    + now apply add_valid.
    + rewrite add_pt, Hpt2, HptP, <- smul_add by assumption. f_equal. lia.
Qed.

Lemma fixed_window_returns (fuel : nat) (m w : Z) (Q : JacPoint) :
  0 <= m -> 1 <= w -> valid_jac L Q -> enough_fuel fuel m ->
  returns_multiple L (_mult_jac_fixed_window ec fuel m w Q) m Q.
Proof.
  intros Hm Hw HQ Hfuel. unfold _mult_jac_fixed_window.
  destruct (Z.ltb_spec m 0); [lia|].
  destruct (jac_eqb Q (INFJ ec)) eqn:Hinf.
  - now apply returns_multiple_infinity.
  - destruct (Z.leb_spec w 0); [lia|].
    assert (Hb : 2 <= 2 ^ w).
    { change 2 with (2 ^ 1) at 1. apply Z.pow_le_mono_r; lia. }
    destruct (numberToBase_spec fuel m (2 ^ w))
      as (d0 & M & HM & Hrange & Hval & _); try lia; try assumption.
    cbv zeta. rewrite HM. cbn [bind].
    change (py_index (d0 :: M) 0) with (Ret (A := Z) d0). cbn [bind].
    inversion Hrange as [|? ? Hd0 HM']; subst.
    assert (HT : forall d, 0 <= d < 2 ^ w ->
              exists P, py_index (INFJ ec :: table_from ec (Z.to_nat (2 ^ w - 1))
                                    (INFJ ec) Q) d = Ret P /\
                        valid_jac L P /\ pt L P = smul L d (pt L Q)).
    { intros d Hd. apply multiples_table_index; [assumption|]. lia. }
    destruct (HT d0 Hd0) as (R & HR & HvR & HptR).
    rewrite HR. cbn [bind].
    destruct (fixed_window_loop_spec w Q _ ltac:(lia) HT M d0 R HM' HvR HptR)
      as (R' & Hrun & Hv' & Hpt').
    cbn [tl]. rewrite Hrun. apply returns_multiple_intro; [assumption|].
    rewrite Hpt'. f_equal.
Qed.

End CurveMult2Proofs.

(** ** The sliding window of curvegroup2.py *)

Lemma py_range_nil (a b : Z) : b <= a -> py_range a b = [].
Proof.
  intros H. unfold py_range.
  now replace (Z.to_nat (b - a)) with 0%nat by lia.
Qed.

Lemma py_range_cons (a b : Z) :
  a < b -> py_range a b = a :: py_range (a + 1) b.
Proof.
  intros H. unfold py_range.
  replace (Z.to_nat (b - a)) with (S (Z.to_nat (b - (a + 1)))) by lia.
  simpl. f_equal; [lia|].
  rewrite <- seq_shift, map_map. apply map_ext. intros i. lia.
Qed.

Lemma skipn_cons_nth {A : Type} (l : list A) (i : nat) :
  (i < length l)%nat ->
  exists d, nth_error l i = Some d /\ skipn i l = d :: skipn (S i) l.
Proof.
  revert l. induction i as [|i IH]; intros [|a l] H; simpl in H; try lia.
  - exists a. now split.
  - destruct (IH l) as (d & Hn & Hs); [lia|]. exists d. now split.
Qed.

Lemma Forall_skipn_suffix {A : Type} (P : A -> Prop) (n : nat) (l : list A) :
  Forall P l -> Forall P (skipn n l).
Proof.
  revert l. induction n as [|n IH]; intros l H; [exact H|].
  destruct H; [constructor|]. now apply IH.
Qed.

Lemma Forall_firstn_prefix {A : Type} (P : A -> Prop) (n : nat) (l : list A) :
  Forall P l -> Forall P (firstn n l).
Proof.
  revert l. induction n as [|n IH]; intros l H; [constructor|].
  destruct H; constructor; [assumption|]. now apply IH.
Qed.

Lemma digits_value_linear (b : Z) (l : list Z) (acc : Z) :
  digits_value b l acc =
  acc * b ^ Z.of_nat (length l) + digits_value b l 0.
Proof.
  revert acc. induction l as [|d l IH]; intros acc.
  - simpl. lia.
  - rewrite !digits_value_cons, (IH (acc * b + d)), (IH (0 * b + d)).
    cbn [length]. rewrite Nat2Z.inj_succ, Z.pow_succ_r by lia. ring.
Qed.

Lemma binary_value_bound (l : list Z) :
  Forall is_bit l -> 0 <= digits_value 2 l 0 < 2 ^ Z.of_nat (length l).
Proof.
  induction 1 as [|d l Hd _ IH].
  - simpl. lia.
  - rewrite digits_value_cons, digits_value_linear.
    cbn [length]. rewrite Nat2Z.inj_succ, Z.pow_succ_r by lia.
    destruct Hd as [-> | ->]; lia.
Qed.

Lemma window_value_spec (ds : list Z) (i : nat) :
  forall (n : nat) (s t : Z),
    0 <= s -> (i + Z.to_nat s + n <= length ds)%nat ->
    window_value ds (Z.of_nat i) (py_range s (s + Z.of_nat n)) t =
    Ret (digits_value 2 (firstn n (skipn (i + Z.to_nat s) ds)) t).
Proof.
  induction n as [|n IH]; intros s t Hs Hlen.
  - now rewrite py_range_nil by lia.
  - rewrite py_range_cons by lia. cbn [window_value].
    destruct (skipn_cons_nth ds (i + Z.to_nat s)) as (d & Hnth & Hskip);
      [lia|].
    replace (Z.of_nat i + s) with (Z.of_nat (i + Z.to_nat s)) by lia.
    rewrite (py_index_nat _ _ _ Hnth). cbn [bind].
    replace (s + Z.of_nat (S n)) with (s + 1 + Z.of_nat n) by lia.
    rewrite IH by lia.
    rewrite Hskip. cbn [firstn]. rewrite digits_value_cons.
    replace (i + Z.to_nat (s + 1))%nat with (S (i + Z.to_nat s)) by lia.
    now rewrite (Z.mul_comm 2 t).
Qed.

Section SlidingWindowProofs.

Context {ec : CurveGroup} (L : CurveLaws ec).

Lemma double_times_spec (w acc : Z) (g : carrier L) (R : JacPoint) :
  0 <= w -> valid_jac L R -> pt L R = smul L acc g ->
  valid_jac L (double_times ec w R) /\
  pt L (double_times ec w R) = smul L (2 ^ w * acc) g.
Proof.
  intros Hw HR Hpt. unfold double_times.
  rewrite <- (Z2Nat.id w) at 3 by lia.
  rewrite smul_pow2, <- Hpt. clear Hpt Hw.
  induction (Z.to_nat w) as [|k [IHv IHp]]; [now split|].
  simpl. split; [now apply double_valid|].
  now rewrite double_pt, IHp.
Qed.

Lemma short_window_spec (ds : list Z) (Q : JacPoint) :
  Forall is_bit ds -> valid_jac L Q ->
  forall (n i : nat) (R : JacPoint) (acc : Z),
    (i + n <= length ds)%nat ->
    valid_jac L R -> pt L R = smul L acc (pt L Q) ->
    exists R',
      short_window ec ds (py_range (Z.of_nat i) (Z.of_nat i + Z.of_nat n)) Q R
      = Ret R' /\
      valid_jac L R' /\
      pt L R' = smul L (digits_value 2 (firstn n (skipn i ds)) acc) (pt L Q).
Proof.
  intros Hbits HQ. induction n as [|n IH]; intros i R acc Hlen HR Hpt.
  - rewrite py_range_nil by lia. exists R. now repeat split.
  - rewrite py_range_cons by lia. cbn [short_window].
    destruct (skipn_cons_nth ds i) as (d & Hnth & Hskip); [lia|].
    rewrite (py_index_nat _ _ _ Hnth). cbn [bind].
    rewrite Hskip. cbn [firstn]. rewrite digits_value_cons.
    replace (Z.of_nat i + 1) with (Z.of_nat (S i)) by lia.
    replace (Z.of_nat i + Z.of_nat (S n))
      with (Z.of_nat (S i) + Z.of_nat n) by lia.
    assert (Hd : is_bit d).
    { rewrite Forall_forall in Hbits. apply Hbits.
      now apply nth_error_In with i. }
    pose proof (double_valid _ L R HR) as HR2.
    pose proof (double_pt _ L R HR) as Hpt2.
    rewrite Hpt, smul_double in Hpt2.
    destruct Hd as [-> | ->]; simpl Z.eqb; cbv iota.
    + apply IH; [lia|assumption|]. rewrite Hpt2. f_equal. lia.
    + apply IH; [lia|now apply add_valid|].
      rewrite add_pt, Hpt2 by assumption.
      rewrite <- (smul_1 L (pt L Q)) at 2. rewrite <- smul_add.
      f_equal. lia.
Qed.

(** [T[v]] in the table of [_mult_sliding_window], which starts at
    [[2^k]Q]. *)
Lemma sliding_table_index (Q : JacPoint) (k v : Z) :
  valid_jac L Q -> 0 <= k -> 0 <= v < 2 ^ k ->
  exists P,
    py_index (double_times ec k Q ::
              table_from ec (Z.to_nat (2 ^ k - 1)) (double_times ec k Q) Q) v
    = Ret P /\
    valid_jac L P /\ pt L P = smul L (2 ^ k + v) (pt L Q).
Proof.
  intros HQ Hk Hv.
  destruct (double_times_spec k 1 (pt L Q) Q Hk HQ (eq_sym (smul_1 L _)))
    as [HvP HptP].
  rewrite Z.mul_1_r in HptP.
  set (P0 := double_times ec k Q) in *.
  destruct (nth_error (P0 :: table_from ec (Z.to_nat (2 ^ k - 1)) P0 Q)
              (Z.to_nat v)) as [P|] eqn:Hnth.
  - exists P. split; [apply py_index_Z; [lia|assumption]|].
    destruct (Z.to_nat v) as [|i] eqn:Hi.
    + injection Hnth as <-. replace v with 0 by lia.
      split; [assumption|]. rewrite HptP. f_equal. lia.
    + simpl in Hnth.
      destruct (table_from_spec L (pt L Q) Q 1 HQ (eq_sym (smul_1 L _))
                  _ P0 (2 ^ k) HvP HptP i P Hnth) as [Hv' HP].
      split; [assumption|]. rewrite HP. f_equal. lia.
  - apply nth_error_None in Hnth. simpl in Hnth.
    rewrite table_from_length in Hnth. lia.
Qed.

Lemma sliding_window_loop_spec (ds : list Z) (T : list JacPoint)
  (Q : JacPoint) (w : Z) :
  Forall is_bit ds -> valid_jac L Q -> 1 <= w ->
  (forall v, 0 <= v < 2 ^ (w - 1) ->
     exists P, py_index T v = Ret P /\ valid_jac L P /\
               pt L P = smul L (2 ^ (w - 1) + v) (pt L Q)) ->
  forall (fuel i : nat) (R : JacPoint) (acc : Z),
    (i <= length ds)%nat -> (length ds - i <= fuel)%nat ->
    valid_jac L R -> pt L R = smul L acc (pt L Q) ->
    exists R',
      sliding_window_loop ec fuel ds T Q w (2 ^ (w - 1)) (Z.of_nat i) R
      = Ret R' /\
      valid_jac L R' /\
      pt L R' = smul L (digits_value 2 (skipn i ds) acc) (pt L Q).
Proof.
  intros Hbits HQ Hw HT.
  induction fuel as [|fuel IH]; intros i R acc Hi Hfuel HR Hpt.
  - assert (i = length ds) as -> by lia.
    simpl. rewrite Z.ltb_irrefl, skipn_all. exists R. now repeat split.
  - cbn [sliding_window_loop].
    destruct (Z.ltb_spec (Z.of_nat i) (Z.of_nat (length ds))) as [Hlt|Hge].
    2:{ assert (i = length ds) as -> by lia.
        rewrite skipn_all. exists R. now repeat split. }
    destruct (skipn_cons_nth ds i) as (d & Hnth & Hskip); [lia|].
    rewrite (py_index_nat _ _ _ Hnth). cbn [bind].
    assert (Hd : is_bit d).
    { rewrite Forall_forall in Hbits. apply Hbits.
      now apply nth_error_In with i. }
    rewrite Hskip, digits_value_cons.
    destruct Hd as [-> | ->]; simpl Z.eqb; cbv iota.
    + (* a zero digit *)
      replace (Z.of_nat i + 1) with (Z.of_nat (S i)) by lia.
      apply IH; [lia|lia|now apply double_valid|].
      rewrite double_pt, Hpt, smul_double by assumption. f_equal. lia.
    + (* a window that starts with a one *)
      set (len := Z.of_nat (length ds)) in *.
      set (j := if len - Z.of_nat i <? w then len - Z.of_nat i else w).
      assert (Hj : 1 <= j /\ Z.of_nat i + j <= len).
      { unfold j. destruct (Z.ltb_spec (len - Z.of_nat i) w); lia. }
      pose proof (window_value_spec ds i (Z.to_nat (j - 1)) 1 1) as Hwv.
      replace (1 + Z.of_nat (Z.to_nat (j - 1))) with j in Hwv by lia.
      replace (i + Z.to_nat 1)%nat with (S i) in Hwv by lia.
      rewrite Hwv by lia. clear Hwv. cbn [bind].
      destruct (Z.ltb_spec j w) as [Hshort|Hfull].
      * (* fewer than w digits are left *)
        assert (Hjlen : j = len - Z.of_nat i).
        { unfold j in *. destruct (Z.ltb_spec (len - Z.of_nat i) w); lia. }
        replace j with (Z.of_nat (length ds - i)) by lia.
        destruct (short_window_spec ds Q Hbits HQ (length ds - i) i R acc)
          as (R' & Hrun & Hv' & Hpt'); [lia|assumption|assumption|].
        exists R'. split; [assumption|]. split; [assumption|].
        rewrite Hpt'. rewrite firstn_all2, Hskip, digits_value_cons.
        -- reflexivity.
        -- rewrite length_skipn. lia.
      * (* a full window *)
        assert (Hjw : j = w).
        { unfold j in *. destruct (Z.ltb_spec (len - Z.of_nat i) w); lia. }
        rewrite Hjw in *. clear j Hjw.
        set (win := firstn (Z.to_nat (w - 1)) (skipn (S i) ds)).
        assert (Hwin : length win = Z.to_nat (w - 1)).
        { unfold win. rewrite length_firstn, length_skipn. lia. }
        assert (Hwinbits : Forall is_bit win).
        { unfold win. now apply Forall_firstn_prefix, Forall_skipn_suffix. }
        pose proof (binary_value_bound win Hwinbits) as Hbound.
        rewrite Hwin, Z2Nat.id in Hbound by lia.
        rewrite (digits_value_linear 2 win 1), Hwin, Z2Nat.id by lia.
        rewrite Z.mul_1_l.
        replace (2 ^ (w - 1) + digits_value 2 win 0 - 2 ^ (w - 1))
          with (digits_value 2 win 0) by lia.
        destruct (HT _ Hbound) as (P & HP & HvP & HptP).
        rewrite HP. cbn [bind].
        destruct (double_times_spec w acc (pt L Q) R ltac:(lia) HR Hpt)
          as [Hv2 Hpt2].
        replace (Z.of_nat i + w) with (Z.of_nat (S i + Z.to_nat (w - 1))) by lia.
        destruct (IH (S i + Z.to_nat (w - 1))%nat
                    (_add_jac ec (double_times ec w R) P)
                    (2 ^ w * acc + (2 ^ (w - 1) + digits_value 2 win 0)))
          as (R' & Hrun & Hv' & Hpt'); try lia.
        -- now apply add_valid.
        -- now rewrite add_pt, Hpt2, HptP, <- smul_add by assumption.
        -- exists R'. split; [assumption|]. split; [assumption|].
           rewrite Hpt'. f_equal.
           rewrite <- (firstn_skipn (Z.to_nat (w - 1)) (skipn (S i) ds)).
           fold win. rewrite digits_value_app, skipn_skipn.
           rewrite (digits_value_linear 2 win (acc * 2 + 1)), Hwin, Z2Nat.id
             by lia.
           replace (Z.to_nat (w - 1) + S i)%nat
             with (S i + Z.to_nat (w - 1))%nat by lia.
           f_equal.
           replace (2 ^ w) with (2 * 2 ^ (w - 1)).
           ++ ring.
           ++ rewrite <- Z.pow_succ_r by lia. f_equal. lia.
Qed.

Lemma sliding_window_returns (fuel : nat) (m w : Z) (Q : JacPoint) :
  0 <= m -> 1 <= w -> valid_jac L Q -> enough_fuel fuel m ->
  returns_multiple L (_mult_sliding_window ec fuel m Q w) m Q.
Proof.
  intros Hm Hw HQ Hfuel. unfold _mult_sliding_window.
  destruct (Z.ltb_spec m 0); [lia|].
  destruct (Z.leb_spec w 0); [lia|].
  unfold convert_number_to_base.
  destruct (numberToBase_spec fuel m 2)
    as (d0 & M & HM & Hrange & Hval & Hlen); try lia; try assumption.
  cbv zeta. rewrite HM. cbn [bind].
  assert (Hbits : Forall is_bit (d0 :: M)).
  { eapply Forall_impl; [|exact Hrange]. unfold is_bit. intros a Ha. simpl in Ha. lia. }
  destruct (sliding_window_loop_spec (d0 :: M) _ Q w Hbits HQ Hw
              (fun v Hv => sliding_table_index Q (w - 1) v HQ ltac:(lia) Hv)
              fuel 0%nat (INFJ ec) 0)
    as (R' & Hrun & Hv' & Hpt'); try lia.
  - apply INFJ_valid.
  - apply INFJ_infinity.
  - change (Z.of_nat 0) with 0 in Hrun. rewrite Hrun.
    apply returns_multiple_intro; [assumption|].
    rewrite Hpt'. f_equal. exact Hval.
Qed.

End SlidingWindowProofs.

(** ** The signed digits of the wNAF multiplier *)

Lemma round53_pow2 (w : Z) : 0 <= w -> round53 (2 ^ w) = 2 ^ w.
Proof.
  intros Hw. assert (Hpos : 0 < 2 ^ w) by (apply Z.pow_pos_nonneg; lia).
  unfold round53. rewrite Z.sgn_pos, Z.abs_eq, Z.mul_1_l by lia.
  unfold round53_pos. rewrite Z.log2_pow2 by lia.
  destruct (Z.leb_spec (w + 1 - 53) 0) as [_|He]; [reflexivity|].
  set (e := w + 1 - 53) in *.
  assert (Hpe : 0 < 2 ^ e) by (apply Z.pow_pos_nonneg; lia).
  replace (2 ^ w) with (2 ^ 52 * 2 ^ e)
    by (rewrite <- Z.pow_add_r by lia; f_equal; lia).
  rewrite Z.div_mul, Z.mod_mul by lia.
  destruct (Z.ltb_spec (2 ^ e) (2 * 0)); [lia|].
  destruct (Z.eqb_spec (2 * 0) (2 ^ e)); [lia|]. reflexivity.
Qed.

Lemma float_half_pow2 (w : Z) :
  0 <= w <= 1024 -> float_half (2 ^ w) = Ret (2 ^ w).
Proof.
  intros Hw. unfold float_half. rewrite round53_pow2 by lia.
  assert (2 ^ w < 2 ^ 1025) by (apply Z.pow_lt_mono_r; lia).
  assert (0 < 2 ^ w) by (apply Z.pow_pos_nonneg; lia).
  rewrite Z.abs_eq by lia.
  destruct (Z.leb_spec (2 ^ 1025) (2 ^ w)); [lia|reflexivity].
Qed.

Lemma mods_spec (m w : Z) :
  0 <= w <= 1024 ->
  mods m w = Ret (if 2 ^ w <=? 2 * (m mod 2 ^ w)
                  then m mod 2 ^ w - 2 ^ w else m mod 2 ^ w).
Proof. intros Hw. unfold mods. now rewrite float_half_pow2. Qed.

(** Beyond 1024 bits the float [w2 / 2] does not exist. *)
Lemma mods_overflow (m w : Z) : 1025 <= w -> mods m w = Raise OverflowError.
Proof.
  intros Hw. unfold mods, float_half. rewrite round53_pow2 by lia.
  assert (2 ^ 1025 <= 2 ^ w) by (apply Z.pow_le_mono_r; lia).
  rewrite Z.abs_eq by lia.
  destruct (Z.leb_spec (2 ^ 1025) (2 ^ w)); [reflexivity|lia].
Qed.

Lemma mods_odd (m w : Z) :
  2 <= w <= 1024 -> 0 < m -> m mod 2 = 1 ->
  exists d,
    mods m w = Ret d /\ w_NAF_digit w d /\
    0 <= (m - d) / 2 < m /\ (m - d) / 2 * 2 + d = m.
Proof.
  intros Hw Hm Hodd. rewrite mods_spec by lia.
  set (h := 2 ^ (w - 2)).
  assert (Hh : 1 <= h).
  { pose proof (Z.pow_pos_nonneg 2 (w - 2)). unfold h. lia. }
  assert (HW : 2 ^ w = 4 * h).
  { unfold h. change 4 with (2 ^ 2). rewrite <- Z.pow_add_r by lia.
    f_equal. lia. }
  assert (HH : 2 ^ (w - 1) = 2 * h).
  { unfold h. change 2 with (2 ^ 1) at 2. rewrite <- Z.pow_add_r by lia.
    f_equal. lia. }
  rewrite HW.
  pose proof (Z.div_mod m (4 * h) ltac:(lia)) as Hqr.
  pose proof (Z.mod_pos_bound m (4 * h) ltac:(lia)) as HM.
  pose proof (Z.div_pos m (4 * h) ltac:(lia) ltac:(lia)) as Hq.
  pose proof (Z.div_mod m 2 ltac:(lia)) as Ha.
  set (M := m mod (4 * h)) in *. set (q := m / (4 * h)) in *.
  set (a := m / 2) in *.
  assert (Hhq : 0 <= h * q) by (apply Z.mul_nonneg_nonneg; lia).
  destruct (Z.leb_spec (4 * h) (2 * M)) as [Hhigh|Hlow].
  - exists (M - 4 * h). split; [reflexivity|].
    replace (m - (M - 4 * h)) with (2 * h * (q + 1) * 2) by lia.
    rewrite Z.div_mul by lia. repeat split; try lia.
    right. rewrite HH. split; [|lia].
    replace (M - 4 * h) with (1 + 2 * (a - 2 * (h * q) - 2 * h)) by lia.
    now rewrite Z.odd_add_mul_2.
  - exists M. split; [reflexivity|].
    replace (m - M) with (2 * h * q * 2) by lia.
    rewrite Z.div_mul by lia. repeat split; try lia.
    right. rewrite HH. split; [|lia].
    replace M with (1 + 2 * (a - 2 * (h * q))) by lia.
    now rewrite Z.odd_add_mul_2.
Qed.

Lemma w_NAF_digits_spec (w : Z) :
  2 <= w <= 1024 ->
  forall (fuel : nat) (m : Z) (M : list Z),
    0 <= m -> m <= Z.of_nat fuel ->
    exists ds,
      w_NAF_digits fuel m w M = Ret (M ++ ds) /\
      Forall (w_NAF_digit w) ds /\
      digits_value 2 (rev ds) 0 = m.
Proof.
  intros Hw. induction fuel as [|fuel IH]; intros m M Hm Hfuel.
  - assert (m = 0) as -> by lia. exists []. simpl.
    rewrite app_nil_r. repeat split. constructor.
  - cbn [w_NAF_digits]. destruct (Z.ltb_spec 0 m) as [Hpos|Hzero].
    2:{ assert (m = 0) as -> by lia. exists [].
        rewrite app_nil_r. repeat split. constructor. }
    destruct (Z.eqb_spec (m mod 2) 1) as [Hodd|Heven].
    + destruct (mods_odd m w Hw Hpos Hodd) as (d & Hd & Hdig & Hnext & Hsum).
      rewrite Hd. cbn [bind].
      destruct (IH ((m - d) / 2) (M ++ [d])) as (ds & Hrun & Hall & Hval);
        try lia.
      exists (d :: ds). rewrite Hrun, <- app_assoc. repeat split.
      * now constructor.
      * simpl rev. rewrite digits_value_app, Hval. simpl. lia.
    + pose proof (Z.div_mod m 2 ltac:(lia)) as Ha.
      pose proof (Z.mod_pos_bound m 2 ltac:(lia)) as Hb.
      destruct (IH (m / 2) (M ++ [0])) as (ds & Hrun & Hall & Hval);
        try lia.
      exists (0 :: ds). rewrite Hrun, <- app_assoc. repeat split.
      * constructor; [now left|assumption].
      * simpl rev. rewrite digits_value_app, Hval. simpl. lia.
Qed.

Section WNAFProofs.

Context {ec : CurveGroup} (L : CurveLaws ec).

(** The first half of the table: entry [k] is [[2 k + 1]Q]. *)
Lemma odd_multiples_entry (Q : JacPoint) (n k : nat) :
  valid_jac L Q -> (k <= n)%nat ->
  exists P,
    nth_error (Q :: table_from ec n Q (_double_jac ec Q)) k = Some P /\
    valid_jac L P /\ pt L P = smul L (2 * Z.of_nat k + 1) (pt L Q).
Proof.
  intros HQ Hk.
  destruct (nth_error (Q :: table_from ec n Q (_double_jac ec Q)) k)
    as [P|] eqn:Hnth.
  - exists P. split; [reflexivity|]. destruct k as [|k].
    + injection Hnth as <-. split; [assumption|]. now rewrite smul_1.
    + simpl in Hnth.
      assert (Hpt2 : pt L (_double_jac ec Q) = smul L 2 (pt L Q)).
      { rewrite double_pt by assumption.
        rewrite <- (smul_1 L (pt L Q)) at 1 2. now rewrite smul_double. }
      destruct (table_from_spec L (pt L Q) (_double_jac ec Q) 2
                  (double_valid _ L Q HQ) Hpt2 n Q 1 HQ
                  (eq_sym (smul_1 L _)) k P Hnth) as [Hv HP].
      split; [assumption|]. rewrite HP. f_equal. lia.
  - apply nth_error_None in Hnth. simpl in Hnth.
    rewrite table_from_length in Hnth. lia.
Qed.

Lemma pow2_half (w : Z) : 1 <= w -> 2 ^ w / 2 = 2 ^ (w - 1).
Proof.
  intros Hw. replace (2 ^ w) with (2 ^ (w - 1) * 2).
  - now rewrite Z.div_mul.
  - rewrite Z.mul_comm, <- Z.pow_succ_r by lia. f_equal. lia.
Qed.

Lemma w_NAF_table_index (Q : JacPoint) (w d : Z) :
  valid_jac L Q -> 1 <= w ->
  Z.odd d = true -> - 2 ^ (w - 1) < d < 2 ^ (w - 1) ->
  exists P,
    py_index (w_NAF_table ec (2 ^ w) Q)
             (if 0 <? d then (d - 1) / 2 else 2 ^ w / 2 - (d + 1) / 2)
    = Ret P /\
    valid_jac L P /\ pt L P = smul L d (pt L Q).
Proof.
  intros HQ Hw Hodd Hd. unfold w_NAF_table. rewrite pow2_half by lia.
  set (h := 2 ^ (w - 1)) in *.
  assert (Hh : 1 <= h).
  { pose proof (Z.pow_pos_nonneg 2 (w - 1)). unfold h. lia. }
  set (n := Z.to_nat (h - 1)).
  set (T1 := Q :: table_from ec n Q (_double_jac ec Q)).
  assert (Hlen : length T1 = Z.to_nat h).
  { unfold T1. simpl. rewrite table_from_length. unfold n. lia. }
  apply Z.odd_spec in Hodd. destruct Hodd as [k Hk].
  destruct (Z.ltb_spec 0 d) as [Hpos|Hneg].
  - replace (d - 1) with (k * 2) by lia. rewrite Z.div_mul by lia.
    destruct (odd_multiples_entry Q n (Z.to_nat k) HQ)
      as (P & Hnth & Hv & HP); [unfold n; lia|].
    exists P. split.
    + apply py_index_Z; [lia|]. rewrite nth_error_app1; [exact Hnth|].
      fold T1. lia.
    + split; [assumption|]. rewrite HP. f_equal. lia.
  - replace (d + 1) with ((k + 1) * 2) by lia. rewrite Z.div_mul by lia.
    destruct (odd_multiples_entry Q n (Z.to_nat (- k - 1)) HQ)
      as (P & Hnth & Hv & HP); [unfold n; lia|].
    exists (negate_jac ec P). split.
    + apply py_index_Z; [lia|].
      replace (Z.to_nat (h - (k + 1)))
        with (length T1 + Z.to_nat (- k - 1))%nat by lia.
      rewrite nth_error_app2 by lia.
      replace (length T1 + Z.to_nat (- k - 1) - length T1)%nat
        with (Z.to_nat (- k - 1)) by lia.
      rewrite nth_error_map. fold T1 in Hnth. now rewrite Hnth.
    + split; [now apply negate_valid|].
      rewrite negate_pt, HP, <- smul_opp by assumption. f_equal. lia.
Qed.

Lemma w_NAF_loop_spec (Q : JacPoint) (w : Z) :
  valid_jac L Q -> 1 <= w ->
  forall (Mrev : list Z) (acc : Z) (R : JacPoint),
    Forall (w_NAF_digit w) Mrev ->
    valid_jac L R -> pt L R = smul L acc (pt L Q) ->
    exists R',
      w_NAF_loop ec (w_NAF_table ec (2 ^ w) Q) (2 ^ w) Mrev R = Ret R' /\
      valid_jac L R' /\
      pt L R' = smul L (digits_value 2 Mrev acc) (pt L Q).
Proof.
  intros HQ Hw. induction Mrev as [|d Mrev IH]; intros acc R HM HR Hpt.
  - exists R. now repeat split.
  - inversion HM as [|? ? Hd HM']; subst.
    cbn [w_NAF_loop]. rewrite digits_value_cons.
    pose proof (double_valid _ L R HR) as HR2.
    pose proof (double_pt _ L R HR) as Hpt2.
    rewrite Hpt, smul_double in Hpt2.
    destruct Hd as [-> | [Hodd Hrange]].
    + simpl Z.eqb. cbv iota. apply IH; try assumption.
      rewrite Hpt2. f_equal. lia.
    + destruct (Z.eqb_spec d 0) as [->|_]; [discriminate|].
      destruct (w_NAF_table_index Q w d HQ Hw Hodd Hrange)
        as (P & HP & HvP & HptP).
      destruct (Z.ltb_spec 0 d); rewrite HP; cbn [bind];
        (apply IH; [assumption|now apply add_valid|];
         rewrite add_pt, Hpt2, HptP, <- smul_add by assumption;
         f_equal; lia).
Qed.

Lemma w_NAF_returns (fuel : nat) (m w : Z) (Q : JacPoint) :
  0 <= m -> 2 <= w <= 1024 -> valid_jac L Q -> enough_fuel fuel m ->
  returns_multiple L (_mult_w_NAF ec fuel m Q w) m Q.
Proof.
  intros Hm Hw HQ Hfuel. unfold enough_fuel in Hfuel. unfold _mult_w_NAF.
  destruct (Z.ltb_spec m 0); [lia|].
  destruct (Z.leb_spec w 0); [lia|].
  destruct (Z.eqb_spec m 0) as [->|Hm0].
  - apply returns_multiple_intro; [apply INFJ_valid|].
    now rewrite INFJ_infinity.
  - destruct (w_NAF_digits_spec w Hw fuel m []) as (ds & Hrun & Hall & Hval);
      try lia.
    rewrite Hrun. cbn [bind app]. cbv zeta.
    destruct (w_NAF_loop_spec Q w HQ ltac:(lia) (rev ds) 0 (INFJ ec))
      as (R' & Hloop & Hv' & Hpt').
    + now apply Forall_rev.
    + apply INFJ_valid.
    + apply INFJ_infinity.
    + rewrite Hloop. apply returns_multiple_intro; [assumption|].
      now rewrite Hpt', Hval.
Qed.

(** With [w = 1] the residual never reaches zero. *)
Lemma w_NAF_digits_w1 (fuel : nat) :
  forall (m : Z) (M : list Z), 0 < m -> w_NAF_digits fuel m 1 M = OutOfFuel.
Proof.
  induction fuel as [|fuel IH]; intros m M Hm; cbn [w_NAF_digits];
    destruct (Z.ltb_spec 0 m); try lia; [reflexivity|].
  pose proof (Z.div_mod m 2 ltac:(lia)) as Ha.
  pose proof (Z.mod_pos_bound m 2 ltac:(lia)) as Hb.
  destruct (Z.eqb_spec (m mod 2) 1) as [Hodd|Heven].
  - rewrite mods_spec by lia. cbn [bind].
    change (2 ^ 1) with 2. rewrite Hodd.
    change (if 2 <=? 2 * 1 then 1 - 2 else 1) with (1 - 2).
    apply IH. replace (m - (1 - 2)) with ((m / 2 + 1) * 2) by lia.
    rewrite Z.div_mul by lia. lia.
  - apply IH. lia.
Qed.

End WNAFProofs.

(** ** ECDSA: signing, then verifying *)

Lemma bind_inv {A B : Type} (c : outcome A) (k : A -> outcome B) (b : B) :
  bind c k = Ret b -> exists a, c = Ret a /\ k a = Ret b.
Proof. destruct c as [a| |]; simpl; intros H; try discriminate. now exists a. Qed.

Lemma py_mod_ret (a b : Z) : b <> 0 -> py_mod a b = Ret (a mod b).
Proof. intros H. unfold py_mod. now destruct (Z.eqb_spec b 0). Qed.

Section DSAProofs.

Context {PrvKey PubKey : Type}.
Context (ec : EC.Curve) (co : Collaborators PrvKey PubKey).
Context (L : CurveLaws (EC.group ec)) (D : DSALaws ec co L).

Local Abbreviation G := (pt L (EC.GJ ec)).
Local Abbreviation n := (EC.n ec).

Lemma smul_mul_Z (a b : Z) (g : carrier L) :
  smul L (a * b) g = smul L a (smul L b g).
Proof.
  destruct (Z_le_gt_dec 0 a) as [Ha|Ha]; [now apply smul_mul|].
  assert (Hneg : smul L (- (- a) * b) g = smul L (- (- a)) (smul L b g)).
  { rewrite Z.mul_opp_l, (smul_opp L (- a * b)).
    rewrite (smul_opp L (- a) (smul L b g)), smul_mul by lia. reflexivity. }
  now rewrite Z.opp_involutive in Hneg.
Qed.

Lemma smul_add_order (a q : Z) : smul L (a + q * n) G = smul L a G.
Proof.
  rewrite smul_add, smul_mul_Z, (GJ_order _ _ _ D), smul_zero_r.
  apply gplus_zero_r.
Qed.

Lemma n_pos : 2 < n.
Proof. exact (n_odd _ _ _ D). Qed.

(** The generator has order exactly [n]. *)
Lemma G_order_exact (k : Z) : 0 < k < n -> smul L k G <> gzero L.
Proof.
  intros Hk Hzero.
  destruct (n_prime _ _ _ D) as [_ Hrel].
  destruct (Z.Bezout_coprime k n (Hrel k Hk)) as (u & v & Huv).
  apply (GJ_finite _ _ _ D).
  rewrite <- (smul_1 L G), <- Huv, smul_add_order, smul_mul_Z, Hzero.
  apply smul_zero_r.
Qed.

Lemma gopp_nonzero (a : carrier L) : a <> gzero L -> gopp L a <> gzero L.
Proof.
  intros Ha H. apply Ha. now rewrite <- (gopp_gopp L a), H, gopp_zero.
Qed.

(** A public key [[d]G] with [0 < d < n] has a nonzero y. *)
Lemma public_key_y_nonzero (x d : Z) :
  0 < d < n -> valid_jac L (x, 0, 1) ->
  pt L (x, 0, 1) = smul L d G -> False.
Proof.
  intros Hd Hv Hpt.
  pose proof (y_zero_order_2 _ _ _ D x Hv) as H2.
  rewrite Hpt, smul_double in H2.
  pose proof n_pos as Hn.
  destruct (Z_lt_ge_dec (2 * d) n) as [Hlt|Hge].
  - now apply (G_order_exact (2 * d)); [lia|].
  - assert (Hne : 2 * d <> n).
    { intros Heq. destruct (n_prime _ _ _ D) as [_ Hrel].
      destruct (Z.Bezout_coprime 2 n (Hrel 2 ltac:(lia))) as (u & v & Huv).
      rewrite <- Heq in Huv. lia. }
    apply (G_order_exact (2 * d - n)); [lia|].
    replace (2 * d - n) with (2 * d + (-1) * n) by lia.
    now rewrite smul_add_order.
Qed.

(** What [_sign] returns: [r] is the x coordinate of [[k]G] modulo [n],
    [s] is [k^-1 (c + r d)] or its opposite modulo [n]. *)
Lemma _sign_inv (c d k r s : Z) :
  0 < k < n ->
  _sign co c d k ec = Ret (r, s) ->
  exists k1 s0,
    r = x_of D (smul L k G) mod n /\ 0 < r < n /\
    (k * k1) mod n = 1 /\
    s0 = (k1 * (c + r * d)) mod n /\
    0 < s0 < n /\ (s = s0 \/ s = n - s0).
Proof.
  intros Hk Hsign. pose proof n_pos as Hn. unfold _sign in Hsign.
  destruct (mult_jac_spec _ _ _ D k (EC.GJ ec) ltac:(lia) (GJ_valid _ _ _ D))
    as (RJ & HRJ & HvR & HptR).
  rewrite HRJ in Hsign. cbn [bind] in Hsign.
  destruct RJ as [[X Y] Z].
  assert (HZ : Z <> 0).
  { intros ->. apply (G_order_exact k Hk). rewrite <- HptR.
    now apply (pt_infinity _ L X Y 0). }
  rewrite (x_of_jac _ _ _ D X Y Z HvR HZ), HptR in Hsign.
  cbn [bind] in Hsign. rewrite py_mod_ret in Hsign by lia.
  cbn [bind] in Hsign.
  set (r0 := x_of D (smul L k G) mod n) in *.
  destruct (Z.eqb_spec r0 0) as [|Hr0]; [discriminate|].
  destruct (mod_inv_n _ _ _ D k Hk) as (k1 & Hk1 & _ & Hinv).
  rewrite Hk1 in Hsign. cbn [bind] in Hsign.
  rewrite py_mod_ret in Hsign by lia. cbn [bind] in Hsign.
  set (s0 := (k1 * (c + r0 * d)) mod n) in *.
  destruct (Z.eqb_spec s0 0) as [|Hs0]; [discriminate|].
  apply bind_inv in Hsign. destruct Hsign as (h2 & _ & Hret).
  injection Hret as <- <-.
  pose proof (Z.mod_pos_bound (x_of D (smul L k G)) n ltac:(lia)).
  pose proof (Z.mod_pos_bound (k1 * (c + r0 * d)) n ltac:(lia)).
  exists k1, s0. repeat split; try (fold r0; lia); try (fold s0; lia).
  match goal with
  | |- context [if ?b then _ else _] => destruct b
  end; [now right|now left].
Qed.

(** The multiple of [G] that verification reconstructs. *)
Lemma verify_scalar (c d k k1 r s0 s w : Z) :
  (k * k1) mod n = 1 ->
  s0 = (k1 * (c + r * d)) mod n ->
  (s = s0 \/ s = n - s0) ->
  (s * w) mod n = 1 ->
  exists q, r * w * d + c * w = k + q * n \/
            r * w * d + c * w = - k + q * n.
Proof.
  intros Hk1 Hs0 Hs Hw. pose proof n_pos as Hn.
  pose proof (Z.div_mod (k * k1) n ltac:(lia)) as E1.
  pose proof (Z.div_mod (k1 * (c + r * d)) n ltac:(lia)) as E2.
  pose proof (Z.div_mod (s * w) n ltac:(lia)) as E3.
  rewrite Hk1 in E1. rewrite <- Hs0 in E2. rewrite Hw in E3.
  set (q1 := k * k1 / n) in *. set (q2 := k1 * (c + r * d) / n) in *.
  set (q3 := s * w / n) in *. set (A := c + r * d) in *.
  clearbody q1 q2 q3. clear Hk1 Hw.
  set (nn := n) in *. clearbody nn.
  destruct Hs as [Hs | Hs]; subst s.
  - exists (k * q3 + k * w * q2 - q1 * w * A). left.
    assert (H1 : w * A * (k * k1) = w * A * (nn * q1 + 1)) by now rewrite E1.
    assert (H2 : k * w * (k1 * A) = k * w * (nn * q2 + s0)) by now rewrite E2.
    assert (H3 : k * (s0 * w) = k * (nn * q3 + 1)) by now rewrite E3.
    unfold A in *. clear A E1 E2 E3 Hs0. lia.
  - exists (- k * q3 + k * w + k * w * q2 - q1 * w * A). right.
    assert (H1 : w * A * (k * k1) = w * A * (nn * q1 + 1)) by now rewrite E1.
    assert (H2 : k * w * (k1 * A) = k * w * (nn * q2 + s0)) by now rewrite E2.
    assert (H3 : k * ((nn - s0) * w) = k * (nn * q3 + 1)) by now rewrite E3.
    unfold A in *. clear A E1 E2 E3 Hs0. lia.
Qed.

Lemma sign_then_verhlp (c d k r s : Z) (PJ : JacPoint) :
  0 <= c -> 0 < k < n ->
  _sign co c d k ec = Ret (r, s) ->
  valid_jac L PJ -> snd PJ <> 0 -> pt L PJ = smul L d G ->
  0 < r < n /\ 0 < s < n /\ _verhlp co c PJ r s ec = Ret tt.
Proof.
  intros Hc Hk Hsign HvP HPZ HptP. pose proof n_pos as Hn.
  destruct (_sign_inv c d k r s Hk Hsign)
    as (k1 & s0 & Hr & Hrr & Hk1 & Hs0 & Hs0r & Hs).
  assert (Hsr : 0 < s < n) by (destruct Hs; lia).
  split; [assumption|]. split; [assumption|].
  unfold _verhlp. destruct PJ as [[PX PY] PZ]. simpl in HPZ.
  destruct (Z.eqb_spec PZ 0) as [|_]; [contradiction|].
  destruct (mod_inv_n _ _ _ D s Hsr) as (w & Hw & Hw0 & Hsw).
  rewrite Hw. cbn [bind].
  destruct (double_mult_spec _ _ _ D (r * w) (PX, PY, PZ) (c * w) (EC.GJ ec))
    as (RJ & HRJ & HvR & HptR);
    try (apply Z.mul_nonneg_nonneg; lia); try assumption;
    try apply (GJ_valid _ _ _ D).
  rewrite HRJ. cbn [bind].
  rewrite HptP, <- smul_mul_Z, <- smul_add in HptR.
  assert (Hcases : pt L RJ = smul L k G \/ pt L RJ = gopp L (smul L k G)).
  { destruct (verify_scalar c d k k1 r s0 s w Hk1 Hs0 Hs Hsw) as [q [Hq|Hq]];
      rewrite HptR, Hq, smul_add_order; [now left|right].
    apply smul_opp. }
  assert (Hnz : pt L RJ <> gzero L).
  { destruct Hcases as [-> | ->]; [|apply gopp_nonzero];
      now apply G_order_exact. }
  destruct RJ as [[X Y] Z].
  assert (HZ : Z <> 0).
  { intros ->. apply Hnz. now apply (pt_infinity _ L X Y 0). }
  destruct (Z.eqb_spec Z 0) as [|_]; [contradiction|].
  rewrite (x_of_jac _ _ _ D X Y Z HvR HZ). cbn [bind].
  rewrite py_mod_ret by lia. cbn [bind].
  assert (Hx : x_of D (pt L (X, Y, Z)) = x_of D (smul L k G)).
  { destruct Hcases as [-> | ->]; [reflexivity|apply x_of_opp]. }
  rewrite Hx, <- Hr, Z.eqb_refl. reflexivity.
Qed.

(** C3: for every message and every private key [d] in [[1, n-1]], with
    any nonce (given, or derived) for which [sign] returns a signature,
    [verify] of that signature against the public key [[d]G] returns
    true. *)
Theorem sign_then_verify (msg : StringT) (q : PrvKey) (k : option Z)
  (hf : HashF) (P : PubKey) (d r s x y : Z) :
  int_from_prvkey co q ec = Ret d -> 0 < d < n ->
  sign co msg q k ec hf = Ret (r, s) ->
  to_pub_tuple co P ec = Ret (x, y) ->
  valid_jac L (x, y, 1) -> pt L (x, y, 1) = smul L d G ->
  verify co msg P (SigTuple r s) ec hf = Ret true.
Proof.
  intros Hq Hd Hsign HP Hv Hpt.
  unfold sign in Hsign.
  apply bind_inv in Hsign. destruct Hsign as (c & Hc & Hsign).
  rewrite Hq in Hsign. cbn [bind] in Hsign.
  apply bind_inv in Hsign. destruct Hsign as (k' & _ & Hsign).
  destruct ((0 <? k') && (k' <? n)) eqn:Hrange; [|discriminate].
  apply andb_true_iff in Hrange. destruct Hrange as [Hk1 Hk2].
  apply Z.ltb_lt in Hk1, Hk2.
  assert (Hc0 : 0 <= c).
  { unfold _challenge in Hc. apply bind_inv in Hc.
    destruct Hc as (mhd & _ & Hc).
    exact (int_from_bits_nonneg _ _ _ D _ _ Hc). }
  assert (Hy : y <> 0).
  { intros ->. exact (public_key_y_nonzero x d Hd Hv Hpt). }
  destruct (sign_then_verhlp c d k' r s (x, y, 1) Hc0 ltac:(lia) Hsign Hv
              ltac:(simpl; lia) Hpt) as (Hr & Hs & Hver).
  unfold verify, _verify, sig_rs, _check_sig.
  destruct (Z.ltb_spec 0 r); [|lia]. destruct (Z.ltb_spec r n); [|lia].
  destruct (Z.ltb_spec 0 s); [|lia]. destruct (Z.ltb_spec s n); [|lia].
  cbn [andb negb bind]. rewrite Hc. cbn [bind]. rewrite HP. cbn [bind].
  destruct (Z.eqb_spec y 0) as [|_]; [contradiction|].
  now rewrite Hver.
Qed.

End DSAProofs.

(** ** The curve over the field of 11 elements keeps the contract *)

Lemma Z7_eq (a b : Z7) : Z7_val a = Z7_val b -> a = b.
Proof. destruct a, b; simpl; intros H; try discriminate H; reflexivity. Qed.

Lemma Z7_val_range (a : Z7) : 0 <= Z7_val a < 7.
Proof. destruct a; simpl; lia. Qed.

Lemma Z7_val_of (k : Z) : Z7_val (Z7_of k) = k mod 7.
Proof.
  unfold Z7_of. pose proof (Z.mod_pos_bound k 7 ltac:(lia)) as Hr.
  assert (H : k mod 7 = 0 \/ k mod 7 = 1 \/ k mod 7 = 2 \/ k mod 7 = 3 \/
              k mod 7 = 4 \/ k mod 7 = 5 \/ k mod 7 = 6) by lia.
  repeat destruct H as [H | H]; rewrite H; reflexivity.
Qed.

Lemma Z7_add_assoc (a b c : Z7) :
  Z7_add a (Z7_add b c) = Z7_add (Z7_add a b) c.
Proof. destruct a, b, c; reflexivity. Qed.

Lemma Z7_add_comm (a b : Z7) : Z7_add a b = Z7_add b a.
Proof. destruct a, b; reflexivity. Qed.

Lemma Z7_add_zero_l (a : Z7) : Z7_add z0 a = a.
Proof. destruct a; reflexivity. Qed.

Lemma Z7_add_opp_l (a : Z7) : Z7_add (Z7_opp a) a = z0.
Proof. destruct a; reflexivity. Qed.

Lemma field11_In (x : Z) : 0 <= x < 11 -> In x field11.
Proof.
  intros H. unfold field11, py_range. apply in_map_iff.
  exists (Z.to_nat x). split; [lia|]. apply in_seq. lia.
Qed.

Lemma ec11_7_valid_In (P : JacPoint) :
  ec11_7_valid P -> In P ec11_7_valid_points.
Proof.
  intros H.
  replace ec11_7_valid_points with (filter (jac_valid 11 2 7) all_jac11)
    by (vm_compute; reflexivity).
  apply filter_In. split; [|exact H].
  destruct P as [[X Y] Z]. unfold ec11_7_valid, jac_valid in H.
  repeat (apply andb_true_iff in H; destruct H as [H ?]).
  repeat match goal with
         | H : (_ <=? _) = true |- _ => apply Z.leb_le in H
         | H : (_ <? _) = true |- _ => apply Z.ltb_lt in H
         end.
  unfold all_jac11. apply in_flat_map. exists X. split; [now apply field11_In|].
  apply in_flat_map. exists Y. split; [now apply field11_In|].
  apply in_map. now apply field11_In.
Qed.

Lemma ec11_7_forall (f : JacPoint -> bool) :
  forallb f ec11_7_valid_points = true ->
  forall P, ec11_7_valid P -> f P = true.
Proof.
  intros H P HP. rewrite forallb_forall in H.
  now apply H, ec11_7_valid_In.
Qed.

Lemma ec11_7_forall2 (f : JacPoint -> JacPoint -> bool) :
  forallb (fun P => forallb (f P) ec11_7_valid_points) ec11_7_valid_points
  = true ->
  forall P Q, ec11_7_valid P -> ec11_7_valid Q -> f P Q = true.
Proof.
  intros H P Q HP HQ.
  apply (ec11_7_forall (fun P => forallb (f P) ec11_7_valid_points)) in HP;
    [|exact H].
  now apply (ec11_7_forall (f P)).
Qed.

Lemma ec11_7_pt_eq (P : JacPoint) (k : Z) :
  (ec11_7_dlog P mod 7 =? k mod 7) = true -> ec11_7_pt P = Z7_of k.
Proof.
  intros H. apply Z.eqb_eq in H. apply Z7_eq.
  unfold ec11_7_pt. now rewrite !Z7_val_of.
Qed.

Lemma ec11_7_add_valid (P Q : JacPoint) :
  ec11_7_valid P -> ec11_7_valid Q -> ec11_7_valid (jac_add 11 2 P Q).
Proof.
  apply (ec11_7_forall2 (fun P Q => jac_valid 11 2 7 (jac_add 11 2 P Q))).
  vm_compute. reflexivity.
Qed.

Lemma ec11_7_add_pt (P Q : JacPoint) :
  ec11_7_valid P -> ec11_7_valid Q ->
  ec11_7_pt (jac_add 11 2 P Q) = Z7_add (ec11_7_pt P) (ec11_7_pt Q).
Proof.
  intros HP HQ. apply ec11_7_pt_eq. unfold ec11_7_pt. rewrite !Z7_val_of.
  revert P Q HP HQ.
  apply (ec11_7_forall2
           (fun P Q => ec11_7_dlog (jac_add 11 2 P Q) mod 7 =?
                       (ec11_7_dlog P mod 7 + ec11_7_dlog Q mod 7) mod 7)).
  vm_compute. reflexivity.
Qed.

Lemma ec11_7_double_valid (P : JacPoint) :
  ec11_7_valid P -> ec11_7_valid (jac_double 11 2 P).
Proof.
  apply (ec11_7_forall (fun P => jac_valid 11 2 7 (jac_double 11 2 P))).
  vm_compute. reflexivity.
Qed.

Lemma ec11_7_double_pt (P : JacPoint) :
  ec11_7_valid P ->
  ec11_7_pt (jac_double 11 2 P) = Z7_add (ec11_7_pt P) (ec11_7_pt P).
Proof.
  intros HP. apply ec11_7_pt_eq. unfold ec11_7_pt. rewrite !Z7_val_of.
  revert P HP.
  apply (ec11_7_forall
           (fun P => ec11_7_dlog (jac_double 11 2 P) mod 7 =?
                     (ec11_7_dlog P mod 7 + ec11_7_dlog P mod 7) mod 7)).
  vm_compute. reflexivity.
Qed.

Lemma ec11_7_negate_valid (P : JacPoint) :
  ec11_7_valid P -> ec11_7_valid (jac_negate 11 P).
Proof.
  apply (ec11_7_forall (fun P => jac_valid 11 2 7 (jac_negate 11 P))).
  vm_compute. reflexivity.
Qed.

Lemma ec11_7_negate_pt (P : JacPoint) :
  ec11_7_valid P -> ec11_7_pt (jac_negate 11 P) = Z7_opp (ec11_7_pt P).
Proof.
  intros HP. apply ec11_7_pt_eq. unfold ec11_7_pt. rewrite !Z7_val_of.
  revert P HP.
  apply (ec11_7_forall
           (fun P => ec11_7_dlog (jac_negate 11 P) mod 7 =?
                     (- (ec11_7_dlog P mod 7)) mod 7)).
  vm_compute. reflexivity.
Qed.

Lemma ec11_7_pt_infinity (X Y Z : Z) :
  ec11_7_valid (X, Y, Z) -> (ec11_7_pt (X, Y, Z) = z0 <-> Z = 0).
Proof.
  intros HP.
  assert (H : Bool.eqb (ec11_7_dlog (X, Y, Z) mod 7 =? 0) (Z =? 0) = true).
  { revert HP.
    apply (ec11_7_forall
             (fun P => Bool.eqb (ec11_7_dlog P mod 7 =? 0)
                                (let '(_, _, Z) := P in Z =? 0))).
    vm_compute. reflexivity. }
  apply Bool.eqb_prop in H. split.
  - intros Hpt. apply (f_equal Z7_val) in Hpt.
    unfold ec11_7_pt in Hpt. rewrite Z7_val_of in Hpt.
    change (Z7_val z0) with 0 in Hpt. apply Z.eqb_eq in Hpt.
    rewrite H in Hpt. now apply Z.eqb_eq.
  - intros HZ. apply Z.eqb_eq in HZ. rewrite <- H in HZ.
    now apply (ec11_7_pt_eq (X, Y, Z) 0).
Qed.

Lemma ec11_7_INFJ_valid : ec11_7_valid (INFJ (EC.group ec11_7)).
Proof. reflexivity. Qed.

Lemma ec11_7_INFJ_infinity : ec11_7_pt (INFJ (EC.group ec11_7)) = z0.
Proof. reflexivity. Qed.

Definition ec11_7_laws : CurveLaws (EC.group ec11_7) :=
  {| carrier := Z7;
     gzero := z0;
     gplus := Z7_add;
     gopp := Z7_opp;
     gplus_assoc := Z7_add_assoc;
     gplus_comm := Z7_add_comm;
     gplus_zero_l := Z7_add_zero_l;
     gplus_opp_l := Z7_add_opp_l;
     valid_jac := ec11_7_valid;
     pt := ec11_7_pt;
     INFJ_valid := ec11_7_INFJ_valid;
     INFJ_infinity := ec11_7_INFJ_infinity;
     pt_infinity := ec11_7_pt_infinity;
     add_valid := ec11_7_add_valid;
     add_pt := ec11_7_add_pt;
     double_valid := ec11_7_double_valid;
     double_pt := ec11_7_double_pt;
     negate_valid := ec11_7_negate_valid;
     negate_pt := ec11_7_negate_pt |}.

(** ** The collaborators on that curve keep the contract of [dsa.py] *)

Lemma Z7_of_mod (a b : Z) : a mod 7 = b mod 7 -> Z7_of a = Z7_of b.
Proof. intros H. apply Z7_eq. now rewrite !Z7_val_of. Qed.

Lemma Z7_smul (k : Z) (g : Z7) :
  smul ec11_7_laws k g = Z7_of (k * Z7_val g).
Proof.
  assert (Hn : forall a, 0 <= a ->
                 smul ec11_7_laws a g = Z7_of (a * Z7_val g)).
  { apply natlike_ind; [reflexivity|].
    intros a Ha IH. replace (Z.succ a) with (a + 1) by lia.
    rewrite smul_succ, IH by lia. apply Z7_eq.
    change (Z7_val (Z7_add g (Z7_of (a * Z7_val g))) =
            Z7_val (Z7_of ((a + 1) * Z7_val g))).
    unfold Z7_add. rewrite !Z7_val_of, Z.add_mod_idemp_r by lia.
    f_equal. lia. }
  destruct (Z_le_gt_dec 0 k) as [Hk|Hk]; [now apply Hn|].
  replace k with (- (- k)) at 1 by lia.
  rewrite smul_opp, Hn by lia. apply Z7_eq.
  change (Z7_val (Z7_opp (Z7_of (- k * Z7_val g))) =
          Z7_val (Z7_of (k * Z7_val g))).
  unfold Z7_opp. rewrite !Z7_val_of.
  pose proof (Z.div_mod (- k * Z7_val g) 7 ltac:(lia)) as E.
  replace (- ((- k * Z7_val g) mod 7))
    with (k * Z7_val g + (- k * Z7_val g / 7) * 7) by lia.
  now rewrite Z.mod_add.
Qed.

Lemma ec11_7_is_prime : is_prime 7.
Proof.
  split; [lia|]. intros k Hk.
  assert (H : k = 1 \/ k = 2 \/ k = 3 \/ k = 4 \/ k = 5 \/ k = 6) by lia.
  repeat destruct H as [-> | H]; try subst k; reflexivity.
Qed.

Lemma ec11_7_GJ_finite :
  pt ec11_7_laws (EC.GJ ec11_7) <> gzero ec11_7_laws.
Proof. intros H. vm_compute in H. discriminate H. Qed.

Lemma ec11_7_GJ_order :
  smul ec11_7_laws (EC.n ec11_7) (pt ec11_7_laws (EC.GJ ec11_7))
  = gzero ec11_7_laws.
Proof. rewrite Z7_smul. reflexivity. Qed.

Lemma ec11_7_x_opp (g : Z7) : ec11_7_x (Z7_opp g) = ec11_7_x g.
Proof. destruct g; reflexivity. Qed.

Lemma ec11_7_x_of_jac (X Y Z : Z) :
  ec11_7_valid (X, Y, Z) -> Z <> 0 ->
  x_from_jac co11_7 (X, Y, Z) ec11_7 = Ret (ec11_7_x (ec11_7_pt (X, Y, Z))).
Proof.
  intros HP HZ.
  assert (H : (Z =? 0) ||
              match x_from_jac co11_7 (X, Y, Z) ec11_7 with
              | Ret x => x =? ec11_7_x (ec11_7_pt (X, Y, Z))
              | _ => false
              end = true).
  { revert HP.
    apply (ec11_7_forall
             (fun P => (let '(_, _, Z) := P in Z =? 0) ||
                       match x_from_jac co11_7 P ec11_7 with
                       | Ret x => x =? ec11_7_x (ec11_7_pt P)
                       | _ => false
                       end)).
    vm_compute. reflexivity. }
  destruct (Z.eqb_spec Z 0) as [|_]; [contradiction|]. cbn [orb] in H.
  destruct (x_from_jac co11_7 (X, Y, Z) ec11_7) as [x| |];
    try discriminate.
  apply Z.eqb_eq in H. now subst x.
Qed.

Lemma ec11_7_y_nonzero (x : Z) : ec11_7_valid (x, 0, 1) -> False.
Proof.
  intros HP.
  apply (ec11_7_forall
           (fun P => let '(_, Y, Z) := P in negb ((Y =? 0) && (Z =? 1))))
    in HP; [discriminate HP|].
  vm_compute. reflexivity.
Qed.

Lemma ec11_7_mod_inv (a : Z) :
  0 < a < EC.n ec11_7 ->
  exists i, mod_inv co11_7 a (EC.n ec11_7) = Ret i /\ 0 <= i /\
            (a * i) mod EC.n ec11_7 = 1.
Proof.
  intros Ha. change (EC.n ec11_7) with 7 in *.
  assert (H : a = 1 \/ a = 2 \/ a = 3 \/ a = 4 \/ a = 5 \/ a = 6) by lia.
  repeat destruct H as [H | H]; subst a;
    (eexists; split; [vm_compute; reflexivity|]; split; [lia|reflexivity]).
Qed.

Lemma ec11_7_mult_jac (m : Z) (Q : JacPoint) :
  0 <= m -> valid_jac ec11_7_laws Q ->
  exists R, _mult_jac co11_7 m Q ec11_7 = Ret R /\
            valid_jac ec11_7_laws R /\
            pt ec11_7_laws R = smul ec11_7_laws m (pt ec11_7_laws Q).
Proof.
  intros Hm HQ.
  destruct (mont_ladder_returns ec11_7_laws m Q Hm HQ)
    as (R & HR & Hv & Hpt & _).
  now exists R.
Qed.

Lemma ec11_7_smul_mod (u : Z) (g : Z7) :
  smul ec11_7_laws (u mod EC.n ec11_7) g = smul ec11_7_laws u g.
Proof.
  rewrite !Z7_smul. apply Z7_of_mod. change (EC.n ec11_7) with 7.
  now rewrite Z.mul_mod_idemp_l.
Qed.

Lemma ec11_7_double_mult (u : Z) (H : JacPoint) (v : Z) (Q : JacPoint) :
  0 <= u -> 0 <= v ->
  valid_jac ec11_7_laws H -> valid_jac ec11_7_laws Q ->
  exists R, _double_mult co11_7 u H v Q ec11_7 = Ret R /\
            valid_jac ec11_7_laws R /\
            pt ec11_7_laws R =
            gplus ec11_7_laws (smul ec11_7_laws u (pt ec11_7_laws H))
                              (smul ec11_7_laws v (pt ec11_7_laws Q)).
Proof.
  intros _ _ HH HQ.
  pose proof (Z.mod_pos_bound u (EC.n ec11_7) ltac:(reflexivity)) as Hu.
  pose proof (Z.mod_pos_bound v (EC.n ec11_7) ltac:(reflexivity)) as Hv.
  destruct (mont_ladder_returns ec11_7_laws _ H (proj1 Hu) HH)
    as (A & HA & HvA & HptA & _).
  destruct (mont_ladder_returns ec11_7_laws _ Q (proj1 Hv) HQ)
    as (B & HB & HvB & HptB & _).
  exists (_add_jac (EC.group ec11_7) A B).
  change (_double_mult co11_7 u H v Q ec11_7)
    with (plain_double_mult u H v Q ec11_7).
  unfold plain_double_mult. rewrite HA, HB. cbn [bind].
  split; [reflexivity|]. split; [now apply (add_valid _ ec11_7_laws)|].
  rewrite (add_pt _ ec11_7_laws) by assumption.
  now rewrite HptA, HptB, !ec11_7_smul_mod.
Qed.

Lemma ec11_7_int_from_bits (b : bytes) (c : Z) :
  int_from_bits co11_7 b ec11_7 = Ret c -> 0 <= c.
Proof.
  intros H. injection H as <-.
  apply Z.mod_pos_bound. reflexivity.
Qed.

Definition ec11_7_dsa_laws : DSALaws ec11_7 co11_7 ec11_7_laws :=
  {| x_of := ec11_7_x : carrier ec11_7_laws -> Z;
     n_prime := ec11_7_is_prime;
     n_odd := eq_refl : 2 < EC.n ec11_7;
     GJ_valid := eq_refl : valid_jac ec11_7_laws (EC.GJ ec11_7);
     GJ_finite := ec11_7_GJ_finite;
     GJ_order := ec11_7_GJ_order;
     x_of_opp := ec11_7_x_opp;
     x_of_jac := ec11_7_x_of_jac;
     y_zero_order_2 := fun x Hx => False_ind _ (ec11_7_y_nonzero x Hx);
     mod_inv_n := ec11_7_mod_inv;
     mult_jac_spec := ec11_7_mult_jac;
     double_mult_spec := ec11_7_double_mult;
     int_from_bits_nonneg := ec11_7_int_from_bits |}.

(** * The claims *)

(** ** Scalar multiplication *)

Lemma w_NAF_overflow (ec : CurveGroup) (fuel : nat) (m w : Z) (Q : JacPoint) :
  0 < m -> m mod 2 = 1 -> 1025 <= w ->
  _mult_w_NAF ec (S fuel) m Q w = Raise OverflowError.
Proof.
  intros Hm Hodd Hw. unfold _mult_w_NAF.
  destruct (Z.ltb_spec m 0); [lia|].
  destruct (Z.leb_spec w 0); [lia|].
  destruct (Z.eqb_spec m 0); [lia|].
  cbn [w_NAF_digits]. destruct (Z.ltb_spec 0 m); [|lia].
  rewrite Hodd. change (1 =? 1) with true. cbv iota.
  now rewrite mods_overflow.
Qed.

(** C1: the code does not do what the claim says.  On the curve over
    the field of 11 elements, with the scalar 1, the generator and the
    window 1025 (a valid window: the code rejects only [w <= 0]), the
    wNAF multiplier raises [OverflowError] from the float division
    [w2 / 2] in [mods], whatever the number of loop steps allowed, and so
    returns no point, where the claim has it return [[1]Q]. *)
Lemma w_NAF_window_1025_raises :
  0 <= 1 /\ 2 <= 1025 /\ valid_jac ec11_7_laws (EC.GJ ec11_7) /\
  forall fuel,
    enough_fuel fuel 1 ->
    _mult_w_NAF (EC.group ec11_7) fuel 1 (EC.GJ ec11_7) 1025
    = Raise OverflowError /\
    ~ returns_multiple ec11_7_laws
        (_mult_w_NAF (EC.group ec11_7) fuel 1 (EC.GJ ec11_7) 1025)
        1 (EC.GJ ec11_7).
Proof.
  split; [lia|]. split; [lia|]. split; [reflexivity|].
  intros fuel Hfuel. unfold enough_fuel in Hfuel.
  destruct fuel as [|fuel]; [simpl in Hfuel; lia|].
  rewrite w_NAF_overflow by (reflexivity || lia).
  split; [reflexivity|]. intros (R & HR & _). discriminate HR.
Qed.

(** X14: for every scalar [m >= 0], every Jacobian point [Q] that is
    the infinity encoding or decodes to a point of the curve, and every
    window ([w >= 1] for the fixed and the sliding window, and
    [2 <= w <= 1024] for wNAF, where the float half in [mods] is exact),
    each of the five multipliers, given enough steps for its [while]
    loops, returns a Jacobian point equal to [[m]Q] under the group's
    laws, and infinity when [m = 0]. *)
Theorem multipliers_return_multiple (ec : CurveGroup) (L : CurveLaws ec)
  (fuel : nat) (m w_fixed w_sliding w_naf : Z) (Q : JacPoint) :
  0 <= m -> valid_jac L Q -> enough_fuel fuel m ->
  1 <= w_fixed -> 1 <= w_sliding -> 2 <= w_naf <= 1024 ->
  returns_multiple L (_mult_jac_mont_ladder ec m Q) m Q /\
  returns_multiple L (_mult_jac_base_3 ec fuel m Q) m Q /\
  returns_multiple L (_mult_jac_fixed_window ec fuel m w_fixed Q) m Q /\
  returns_multiple L (_mult_sliding_window ec fuel m Q w_sliding) m Q /\
  returns_multiple L (_mult_w_NAF ec fuel m Q w_naf) m Q.
Proof.
  intros Hm HQ Hfuel Hwf Hws Hwn. repeat split.
  - now apply mont_ladder_returns.
  - now apply base_3_returns.
  - now apply fixed_window_returns.
  - now apply sliding_window_returns.
  - now apply w_NAF_returns.
Qed.

Lemma multipliers_return_multiple_witness :
  (0 <= 5 /\ valid_jac ec11_7_laws (EC.GJ ec11_7) /\ enough_fuel 10 5 /\
   1 <= 2 /\ 1 <= 3 /\ 2 <= 3 <= 1024) /\
  (returns_multiple ec11_7_laws
     (_mult_jac_mont_ladder (EC.group ec11_7) 5 (EC.GJ ec11_7))
     5 (EC.GJ ec11_7) /\
   returns_multiple ec11_7_laws
     (_mult_jac_base_3 (EC.group ec11_7) 10 5 (EC.GJ ec11_7))
     5 (EC.GJ ec11_7) /\
   returns_multiple ec11_7_laws
     (_mult_jac_fixed_window (EC.group ec11_7) 10 5 2 (EC.GJ ec11_7))
     5 (EC.GJ ec11_7) /\
   returns_multiple ec11_7_laws
     (_mult_sliding_window (EC.group ec11_7) 10 5 (EC.GJ ec11_7) 3)
     5 (EC.GJ ec11_7) /\
   returns_multiple ec11_7_laws
     (_mult_w_NAF (EC.group ec11_7) 10 5 (EC.GJ ec11_7) 3)
     5 (EC.GJ ec11_7)).
Proof.
  assert (H : 0 <= 5 /\ valid_jac ec11_7_laws (EC.GJ ec11_7) /\
              enough_fuel 10 5 /\ 1 <= 2 /\ 1 <= 3 /\ 2 <= 3 <= 1024).
  { unfold enough_fuel. repeat split; try lia. }
  split; [exact H|].
  destruct H as (H1 & H2 & H3 & H4 & H5 & H6).
  exact (multipliers_return_multiple (EC.group ec11_7) ec11_7_laws
           10 5 2 3 3 (EC.GJ ec11_7) H1 H2 H3 H4 H5 H6).
Defined.

Lemma returns_multiple_affine (ec : EC.Curve) (L : CurveLaws (EC.group ec))
  (o1 o2 : outcome JacPoint) (m : Z) (Q : JacPoint) :
  affine_of_group_element ec L ->
  returns_multiple L o1 m Q -> returns_multiple L o2 m Q ->
  to_affine ec o1 = to_affine ec o2.
Proof.
  intros Haff (R1 & -> & Hv1 & Hpt1 & _) (R2 & -> & Hv2 & Hpt2 & _).
  unfold to_affine. cbn [bind]. apply Haff; try assumption.
  now rewrite Hpt1, Hpt2.
Qed.

(** C2: the code does not do what the claim says.  With the scalar 1,
    the generator of the curve over the field of 11 elements and the
    window 1025, the wNAF multiplier raises (the float division [w2 / 2]
    in [mods] overflows) where the ladder returns, so the affine results
    are not identical. *)
Lemma w_NAF_window_1025_disagrees :
  to_affine ec11_7 (_mult_w_NAF (EC.group ec11_7) 10 1 (EC.GJ ec11_7) 1025)
  <> to_affine ec11_7 (_mult_jac_mont_ladder (EC.group ec11_7) 1 (EC.GJ ec11_7)).
Proof.
  rewrite (w_NAF_overflow (EC.group ec11_7) 9 1 1025) by (reflexivity || lia).
  intros H. vm_compute in H. discriminate H.
Qed.

(** X15: for every [m >= 0], every valid Jacobian point [Q] and all
    windows ([w >= 1] for the fixed and the sliding window, and
    [2 <= w <= 1024] for wNAF, where the float half in [mods] is exact),
    the five multipliers, given enough steps, produce the identical
    affine result after the conversion by [_aff_from_jac]. *)
Theorem multipliers_agree (ec : EC.Curve) (L : CurveLaws (EC.group ec))
  (fuel : nat) (m w_fixed w_sliding w_naf : Z) (Q : JacPoint) :
  affine_of_group_element ec L ->
  0 <= m -> valid_jac L Q -> enough_fuel fuel m ->
  1 <= w_fixed -> 1 <= w_sliding -> 2 <= w_naf <= 1024 ->
  let ladder := to_affine ec (_mult_jac_mont_ladder (EC.group ec) m Q) in
  to_affine ec (_mult_jac_base_3 (EC.group ec) fuel m Q) = ladder /\
  to_affine ec (_mult_jac_fixed_window (EC.group ec) fuel m w_fixed Q)
  = ladder /\
  to_affine ec (_mult_sliding_window (EC.group ec) fuel m Q w_sliding)
  = ladder /\
  to_affine ec (_mult_w_NAF (EC.group ec) fuel m Q w_naf) = ladder.
Proof.
  intros Haff Hm HQ Hfuel Hwf Hws Hwn ladder. unfold ladder.
  pose proof (mont_ladder_returns L m Q Hm HQ) as Hl.
  repeat split; apply (returns_multiple_affine ec L _ _ m Q Haff);
    try exact Hl.
  - now apply base_3_returns.
  - now apply fixed_window_returns.
  - now apply sliding_window_returns.
  - now apply w_NAF_returns.
Qed.

Lemma affine_eqb_eq (a b : outcome Point) : affine_eqb a b = true -> a = b.
Proof.
  destruct a as [[x1 y1]|e1|], b as [[x2 y2]|e2|]; simpl; try discriminate.
  - rewrite andb_true_iff, !Z.eqb_eq. now intros [-> ->].
  - destruct e1, e2; simpl; try discriminate; reflexivity.
  - reflexivity.
Qed.

Lemma ec11_7_affine : affine_of_group_element ec11_7 ec11_7_laws.
Proof.
  intros P Q HP HQ Hpt. apply affine_eqb_eq.
  apply (f_equal Z7_val) in Hpt.
  change (Z7_val (ec11_7_pt P) = Z7_val (ec11_7_pt Q)) in Hpt.
  unfold ec11_7_pt in Hpt. rewrite !Z7_val_of in Hpt.
  apply Z.eqb_eq in Hpt.
  assert (H : negb (ec11_7_dlog P mod 7 =? ec11_7_dlog Q mod 7) ||
              affine_eqb (EC._aff_from_jac ec11_7 P)
                         (EC._aff_from_jac ec11_7 Q) = true).
  { revert P Q HP HQ Hpt. intros P Q HP HQ _. revert P Q HP HQ.
    apply (ec11_7_forall2
             (fun P Q => negb (ec11_7_dlog P mod 7 =? ec11_7_dlog Q mod 7) ||
                         affine_eqb (EC._aff_from_jac ec11_7 P)
                                    (EC._aff_from_jac ec11_7 Q))).
    vm_compute. reflexivity. }
  rewrite Hpt in H. exact H.
Qed.

Lemma multipliers_agree_witness :
  (affine_of_group_element ec11_7 ec11_7_laws /\
   0 <= 5 /\ valid_jac ec11_7_laws (EC.GJ ec11_7) /\ enough_fuel 10 5 /\
   1 <= 2 /\ 1 <= 3 /\ 2 <= 3 <= 1024) /\
  (to_affine ec11_7 (_mult_jac_base_3 (EC.group ec11_7) 10 5 (EC.GJ ec11_7))
   = to_affine ec11_7
       (_mult_jac_mont_ladder (EC.group ec11_7) 5 (EC.GJ ec11_7)) /\
   to_affine ec11_7
     (_mult_jac_fixed_window (EC.group ec11_7) 10 5 2 (EC.GJ ec11_7))
   = to_affine ec11_7
       (_mult_jac_mont_ladder (EC.group ec11_7) 5 (EC.GJ ec11_7)) /\
   to_affine ec11_7
     (_mult_sliding_window (EC.group ec11_7) 10 5 (EC.GJ ec11_7) 3)
   = to_affine ec11_7
       (_mult_jac_mont_ladder (EC.group ec11_7) 5 (EC.GJ ec11_7)) /\
   to_affine ec11_7 (_mult_w_NAF (EC.group ec11_7) 10 5 (EC.GJ ec11_7) 3)
   = to_affine ec11_7
       (_mult_jac_mont_ladder (EC.group ec11_7) 5 (EC.GJ ec11_7))).
Proof.
  assert (H : affine_of_group_element ec11_7 ec11_7_laws /\
              0 <= 5 /\ valid_jac ec11_7_laws (EC.GJ ec11_7) /\
              enough_fuel 10 5 /\ 1 <= 2 /\ 1 <= 3 /\ 2 <= 3 <= 1024).
  { unfold enough_fuel. split; [exact ec11_7_affine|].
    repeat split; try lia. }
  split; [exact H|].
  destruct H as (H0 & H1 & H2 & H3 & H4 & H5 & H6).
  exact (multipliers_agree ec11_7 ec11_7_laws 10 5 2 3 3 (EC.GJ ec11_7)
           H0 H1 H2 H3 H4 H5 H6).
Defined.

Lemma w_NAF_window_1_positive (ec : CurveGroup) (fuel : nat) (m : Z)
  (Q : JacPoint) :
  0 < m -> _mult_w_NAF ec fuel m Q 1 = OutOfFuel.
Proof.
  intros Hm. unfold _mult_w_NAF.
  destruct (Z.ltb_spec m 0); [lia|]. simpl Z.leb. cbv iota.
  destruct (Z.eqb_spec m 0); [lia|].
  now rewrite w_NAF_digits_w1.
Qed.

(** C4: the code does not do what the claim says.  With [w = 1] and the
    scalar 1 the wNAF multiplier neither raises nor returns: whatever the
    number of steps allowed, the digit loop is still running. *)
Theorem w_NAF_window_1_loops (ec : CurveGroup) (fuel : nat) (Q : JacPoint) :
  _mult_w_NAF ec fuel 1 Q 1 = OutOfFuel.
Proof.
  unfold _mult_w_NAF. simpl Z.ltb. simpl Z.leb. simpl Z.eqb. cbv iota.
  now rewrite w_NAF_digits_w1.
Qed.

(** C9: each of the five multipliers rejects every negative scalar with a
    [ValueError], for every point and every window. *)
Theorem multipliers_reject_negative (ec : CurveGroup) (fuel : nat)
  (m w : Z) (Q : JacPoint) :
  m < 0 ->
  _mult_jac_mont_ladder ec m Q = Raise ValueError /\
  _mult_jac_base_3 ec fuel m Q = Raise ValueError /\
  _mult_jac_fixed_window ec fuel m w Q = Raise ValueError /\
  _mult_sliding_window ec fuel m Q w = Raise ValueError /\
  _mult_w_NAF ec fuel m Q w = Raise ValueError.
Proof.
  intros Hm.
  unfold _mult_jac_mont_ladder, _mult_jac_base_3, _mult_jac_fixed_window,
    _mult_sliding_window, _mult_w_NAF.
  destruct (Z.ltb_spec m 0); [|lia]. repeat split.
Qed.

Lemma multipliers_reject_negative_witness :
  -1 < 0 /\
  (_mult_jac_mont_ladder (EC.group ec11_7) (-1) (EC.GJ ec11_7)
   = Raise ValueError /\
   _mult_jac_base_3 (EC.group ec11_7) 10 (-1) (EC.GJ ec11_7)
   = Raise ValueError /\
   _mult_jac_fixed_window (EC.group ec11_7) 10 (-1) 4 (EC.GJ ec11_7)
   = Raise ValueError /\
   _mult_sliding_window (EC.group ec11_7) 10 (-1) (EC.GJ ec11_7) 4
   = Raise ValueError /\
   _mult_w_NAF (EC.group ec11_7) 10 (-1) (EC.GJ ec11_7) 4
   = Raise ValueError).
Proof.
  split; [lia|].
  apply (multipliers_reject_negative (EC.group ec11_7) 10 (-1) 4
           (EC.GJ ec11_7)).
  lia.
Defined.

(** ** ECDSA *)

Lemma sign_then_verify_witness :
  (int_from_prvkey co11_7 3 ec11_7 = Ret 3 /\
   0 < 3 < EC.n ec11_7 /\
   sign co11_7 (Bytes [Byte.x00; Byte.x01]) 3 (Some 2) ec11_7 plain_hash
   = Ret (3, 2) /\
   to_pub_tuple co11_7 (7, 1) ec11_7 = Ret (7, 1) /\
   valid_jac ec11_7_laws (7, 1, 1) /\
   pt ec11_7_laws (7, 1, 1)
   = smul ec11_7_laws 3 (pt ec11_7_laws (EC.GJ ec11_7))) /\
  verify co11_7 (Bytes [Byte.x00; Byte.x01]) (7, 1) (SigTuple 3 2)
    ec11_7 plain_hash = Ret true.
Proof.
  assert (H1 : int_from_prvkey co11_7 3 ec11_7 = Ret 3) by reflexivity.
  assert (H2 : 0 < 3 < EC.n ec11_7) by (split; reflexivity).
  assert (H3 : sign co11_7 (Bytes [Byte.x00; Byte.x01]) 3 (Some 2) ec11_7
                 plain_hash = Ret (3, 2)) by (vm_compute; reflexivity).
  assert (H4 : to_pub_tuple co11_7 (7, 1) ec11_7 = Ret (7, 1))
    by reflexivity.
  assert (H5 : valid_jac ec11_7_laws (7, 1, 1)) by reflexivity.
  assert (H6 : pt ec11_7_laws (7, 1, 1)
               = smul ec11_7_laws 3 (pt ec11_7_laws (EC.GJ ec11_7)))
    by reflexivity.
  split; [repeat split; assumption|].
  exact (sign_then_verify ec11_7 co11_7 ec11_7_laws ec11_7_dsa_laws
           (Bytes [Byte.x00; Byte.x01]) 3 (Some 2) plain_hash (7, 1)
           3 3 2 7 1 H1 H2 H3 H4 H5 H6).
Defined.

(** What [_sign] returns lies in [[1, n-1]]; and [s <= n/2] when the
    order has at most 53 bits, where the float [n / 2] is exact. *)
Lemma _sign_range {PrvKey PubKey : Type} (co : Collaborators PrvKey PubKey)
  (c q k r s : Z) (ec : EC.Curve) :
  0 < EC.n ec ->
  _sign co c q k ec = Ret (r, s) ->
  0 < r < EC.n ec /\ 0 < s < EC.n ec /\
  (Z.log2 (EC.n ec) < 53 -> 2 * s <= EC.n ec).
Proof.
  intros Hn H. unfold _sign in H.
  apply bind_inv in H. destruct H as (RJ & _ & H).
  apply bind_inv in H. destruct H as (Rx & _ & H).
  rewrite py_mod_ret in H by lia. cbn [bind] in H.
  destruct (Z.eqb_spec (Rx mod EC.n ec) 0) as [|Hr]; [discriminate|].
  apply bind_inv in H. destruct H as (k1 & _ & H).
  rewrite py_mod_ret in H by lia. cbn [bind] in H.
  set (r0 := Rx mod EC.n ec) in *.
  set (s0 := (k1 * (c + r0 * q)) mod EC.n ec) in *.
  destruct (Z.eqb_spec s0 0) as [|Hs]; [discriminate|].
  apply bind_inv in H. destruct H as (half2 & Hhalf & H).
  pose proof (Z.mod_pos_bound Rx (EC.n ec) Hn) as Hr0.
  pose proof (Z.mod_pos_bound (k1 * (c + r0 * q)) (EC.n ec) Hn) as Hs0.
  fold r0 in Hr0. fold s0 in Hs0. clearbody r0 s0.
  assert (Hexact : Z.log2 (EC.n ec) < 53 -> half2 = EC.n ec).
  { intros Hbits. unfold float_half in Hhalf.
    destruct (2 ^ 1025 <=? Z.abs (round53 (EC.n ec))); [discriminate|].
    injection Hhalf as <-. unfold round53, round53_pos.
    rewrite Z.sgn_pos, Z.abs_eq, Z.mul_1_l by lia.
    destruct (Z.leb_spec (Z.log2 (EC.n ec) + 1 - 53) 0); [reflexivity|lia]. }
  destruct (Z.ltb_spec half2 (2 * s0)) as [Hhigh|Hlow];
    injection H as <- <-; repeat split; try lia;
    intros Hbits; specialize (Hexact Hbits); lia.
Qed.

(** C5: the code does not do what the claim says.  On secp256k1 the
    float [n / 2] is 2^255, above the exact half of [n]; with the private
    key 1, the nonce 1 and the challenge below, [_sign] returns
    [s = 2^255 - 1], which is in [[1, n-1]] but greater than [n/2]. *)
Theorem sign_high_s :
  let c := 2829781596380754042206773609175419600384388879042687844228604643567448090727 in
  0 <= c < EC.n secp256k1 /\
  _sign co_secp256k1 c 1 1 secp256k1
  = Ret (fst (fst (EC.GJ secp256k1)), 2 ^ 255 - 1) /\
  float_half (EC.n secp256k1) = Ret (2 ^ 256) /\
  EC.n secp256k1 < 2 * (2 ^ 255 - 1).
Proof.
  cbv zeta. split; [split; vm_compute; [discriminate|reflexivity]|].
  split; [vm_compute; reflexivity|].
  split; vm_compute; reflexivity.
Qed.

(** ** [verify] and the recovery of public keys *)

Lemma bind_returns {A B : Type} (c : outcome A) (k : A -> outcome B) :
  c <> OutOfFuel -> (forall a, k a <> OutOfFuel) -> bind c k <> OutOfFuel.
Proof.
  destruct c as [a|e|]; simpl; intros Hc Hk;
    [apply Hk|discriminate|now contradiction Hc].
Qed.

Lemma py_mod_returns (a b : Z) : py_mod a b <> OutOfFuel.
Proof. unfold py_mod. destruct (b =? 0); discriminate. Qed.

Lemma mont_ladder_never_loops (ec : CurveGroup) (m : Z) (Q : JacPoint) :
  _mult_jac_mont_ladder ec m Q <> OutOfFuel.
Proof.
  unfold _mult_jac_mont_ladder.
  destruct (m <? 0); [discriminate|].
  destruct (jac_eqb Q (INFJ ec)); discriminate.
Qed.

Lemma euclid_mod_inv_returns (a m : Z) : euclid_mod_inv a m <> OutOfFuel.
Proof.
  unfold euclid_mod_inv. destruct (m <=? 0); [discriminate|].
  destruct (xgcd _ _ _) as [[g x] y]. destruct (g =? 1); discriminate.
Qed.

Lemma plain_collaborators_return (a b : Z) (ec : EC.Curve) (hf : HashF) :
  (forall msg, hf msg <> OutOfFuel) ->
  collaborators_return (plain_collaborators a b) ec hf.
Proof.
  intros Hhf. constructor; try assumption; cbn.
  - discriminate.
  - intros P.
    match goal with
    | |- context [if ?c then _ else _] => destruct c
    end; discriminate.
  - discriminate.
  - apply euclid_mod_inv_returns.
  - intros u H v Q. unfold plain_double_mult.
    apply bind_returns; [apply mont_ladder_never_loops|]. intros A.
    apply bind_returns; [apply mont_ladder_never_loops|]. discriminate.
Qed.

Section VerifyProofs.

Context {PrvKey PubKey : Type}.
Context (co : Collaborators PrvKey PubKey) (ec : EC.Curve) (hf : HashF).
Context (Hco : collaborators_return co ec hf).

Lemma x_from_jac_returns (RJ : JacPoint) : x_from_jac co RJ ec <> OutOfFuel.
Proof.
  destruct RJ as [[X Y] Z]. unfold x_from_jac.
  apply bind_returns; [apply (mod_inv_returns _ _ _ Hco)|].
  intros i. apply py_mod_returns.
Qed.

Lemma _verhlp_returns (c : Z) (PJ : JacPoint) (r s : Z) :
  _verhlp co c PJ r s ec <> OutOfFuel.
Proof.
  destruct PJ as [[PX PY] PZ]. unfold _verhlp.
  destruct (PZ =? 0); [discriminate|].
  apply bind_returns; [apply (mod_inv_returns _ _ _ Hco)|]. intros w.
  apply bind_returns; [apply (double_mult_returns _ _ _ Hco)|].
  intros [[X Y] Z]. destruct (Z =? 0); [discriminate|].
  apply bind_returns; [apply x_from_jac_returns|]. intros Rx.
  apply bind_returns; [apply py_mod_returns|]. intros x.
  destruct (r =? x); discriminate.
Qed.

Lemma _check_sig_returns (r s : Z) : _check_sig r s ec <> OutOfFuel.
Proof.
  unfold _check_sig.
  destruct (negb _); [discriminate|]. destruct (negb _); discriminate.
Qed.

Lemma sig_rs_returns (sig : DSASig) : sig_rs co sig ec <> OutOfFuel.
Proof.
  destruct sig as [r s|b]; unfold sig_rs.
  - apply bind_returns; [apply _check_sig_returns|]. discriminate.
  - apply bind_returns; [apply (der_deserialize_returns _ _ _ Hco)|].
    intros [[r s] h]. discriminate.
Qed.

Lemma _challenge_returns (msg : bytes) : _challenge co msg ec hf <> OutOfFuel.
Proof.
  unfold _challenge.
  apply bind_returns; [apply (hf_returns _ _ _ Hco)|].
  intros mhd. apply (int_from_bits_returns _ _ _ Hco).
Qed.

Lemma _verify_returns (msg : StringT) (P : PubKey) (sig : DSASig) :
  _verify co msg P sig ec hf <> OutOfFuel.
Proof.
  unfold _verify.
  apply bind_returns; [apply sig_rs_returns|]. intros [r s].
  apply bind_returns; [apply _challenge_returns|]. intros c.
  apply bind_returns; [apply (to_pub_tuple_returns _ _ _ Hco)|].
  intros [Px Py]. apply _verhlp_returns.
Qed.

End VerifyProofs.

(** C6: [verify] never raises.  For every message, public key, signature,
    curve and hash function (whose collaborators return or raise) it
    returns a boolean: true when strict verification returns, false
    whenever strict verification raises. *)
Theorem verify_never_raises {PrvKey PubKey : Type}
  (co : Collaborators PrvKey PubKey) (ec : EC.Curve) (hf : HashF)
  (msg : StringT) (P : PubKey) (sig : DSASig) :
  collaborators_return co ec hf ->
  (exists b, verify co msg P sig ec hf = Ret b) /\
  (forall e, verify co msg P sig ec hf <> Raise e) /\
  (forall e, _verify co msg P sig ec hf = Raise e ->
             verify co msg P sig ec hf = Ret false) /\
  (_verify co msg P sig ec hf = Ret tt ->
   verify co msg P sig ec hf = Ret true).
Proof.
  intros Hco. pose proof (_verify_returns co ec hf Hco msg P sig) as Hret.
  unfold verify.
  destruct (_verify co msg P sig ec hf) as [u|e|]; [| |contradiction].
  - repeat split; try discriminate. now exists true.
  - repeat split; try discriminate. now exists false.
Qed.

Lemma verify_never_raises_witness :
  collaborators_return co11_7 ec11_7 plain_hash /\
  ((exists b, verify co11_7 (Str String.EmptyString) (6, 9) (SigDER []) ec11_7 plain_hash
              = Ret b) /\
   (forall e, verify co11_7 (Str String.EmptyString) (6, 9) (SigDER []) ec11_7 plain_hash
              <> Raise e) /\
   (forall e, _verify co11_7 (Str String.EmptyString) (6, 9) (SigDER []) ec11_7 plain_hash
              = Raise e ->
              verify co11_7 (Str String.EmptyString) (6, 9) (SigDER []) ec11_7 plain_hash
              = Ret false) /\
   (_verify co11_7 (Str String.EmptyString) (6, 9) (SigDER []) ec11_7 plain_hash = Ret tt ->
    verify co11_7 (Str String.EmptyString) (6, 9) (SigDER []) ec11_7 plain_hash = Ret true)).
Proof.
  assert (H : collaborators_return co11_7 ec11_7 plain_hash).
  { apply plain_collaborators_return. discriminate. }
  split; [exact H|].
  exact (verify_never_raises co11_7 ec11_7 plain_hash (Str String.EmptyString) (6, 9)
           (SigDER []) H).
Defined.

Lemma _check_sig_out_of_range (r s : Z) (ec : EC.Curve) :
  r = EC.n ec \/ s = EC.n ec -> _check_sig r s ec = Raise ValueError.
Proof.
  intros H. unfold _check_sig.
  destruct ((0 <? r) && (r <? EC.n ec)) eqn:Hr; [|reflexivity].
  destruct ((0 <? s) && (s <? EC.n ec)) eqn:Hs; [|reflexivity].
  apply andb_true_iff in Hr, Hs. destruct Hr as [_ Hr], Hs as [_ Hs].
  apply Z.ltb_lt in Hr, Hs. lia.
Qed.

(** C7, as stated, fails: on the curve over the field of 11 elements
    ([n = 7]) the signature [(7, 1)] makes [verify] return false, but
    [recover_pubkeys] raises the [ValueError] of [_check_sig]; it does not
    return an empty list. *)
Lemma recover_pubkeys_out_of_range_raises :
  verify co11_7 (Bytes []) (6, 9) (SigTuple 7 1) ec11_7 plain_hash
  = Ret false /\
  recover_pubkeys co11_7 (Bytes []) (SigTuple 7 1) ec11_7 plain_hash
  = Raise ValueError /\
  recover_pubkeys co11_7 (Bytes []) (SigTuple 7 1) ec11_7 plain_hash
  <> Ret [].
Proof. repeat split. discriminate. Qed.

(** C7 (amended): for a signature with [r = n] or [s = n], [verify]
    returns false, and [recover_pubkeys] returns no result: it raises
    (the [ValueError] of [_check_sig], once the challenge is computed). *)
Theorem out_of_range_signature {PrvKey PubKey : Type}
  (co : Collaborators PrvKey PubKey) (ec : EC.Curve) (hf : HashF)
  (msg : StringT) (P : PubKey) (r s : Z) :
  collaborators_return co ec hf ->
  r = EC.n ec \/ s = EC.n ec ->
  verify co msg P (SigTuple r s) ec hf = Ret false /\
  (exists e, recover_pubkeys co msg (SigTuple r s) ec hf = Raise e) /\
  (forall c, _challenge co (encode msg) ec hf = Ret c ->
             recover_pubkeys co msg (SigTuple r s) ec hf = Raise ValueError).
Proof.
  intros Hco Hrs. pose proof (_check_sig_out_of_range r s ec Hrs) as Hchk.
  split; [|split].
  - unfold verify, _verify, sig_rs. now rewrite Hchk.
  - unfold recover_pubkeys, sig_rs.
    pose proof (_challenge_returns co ec hf Hco (encode msg)) as Hc.
    destruct (_challenge co (encode msg) ec hf) as [c|e|];
      [|now exists e|contradiction].
    exists ValueError. cbn [bind]. now rewrite Hchk.
  - intros c Hc. unfold recover_pubkeys, sig_rs. rewrite Hc. cbn [bind].
    now rewrite Hchk.
Qed.

Lemma out_of_range_signature_witness :
  (collaborators_return co11_7 ec11_7 plain_hash /\
   (7 = EC.n ec11_7 \/ 1 = EC.n ec11_7)) /\
  (verify co11_7 (Bytes []) (6, 9) (SigTuple 7 1) ec11_7 plain_hash
   = Ret false /\
   (exists e, recover_pubkeys co11_7 (Bytes []) (SigTuple 7 1) ec11_7
                plain_hash = Raise e) /\
   (forall c, _challenge co11_7 (encode (Bytes [])) ec11_7 plain_hash = Ret c ->
              recover_pubkeys co11_7 (Bytes []) (SigTuple 7 1) ec11_7
                plain_hash = Raise ValueError)).
Proof.
  assert (H1 : collaborators_return co11_7 ec11_7 plain_hash).
  { apply plain_collaborators_return. discriminate. }
  assert (H2 : 7 = EC.n ec11_7 \/ 1 = EC.n ec11_7) by (left; reflexivity).
  split; [split; assumption|].
  exact (out_of_range_signature co11_7 ec11_7 plain_hash (Bytes []) (6, 9)
           7 1 H1 H2).
Defined.

(** A candidate [_recover_pubkey] returns has passed strict
    verification. *)
Lemma _recover_pubkey_verified {PrvKey PubKey : Type}
  (co : Collaborators PrvKey PubKey) (key_id c r s : Z) (ec : EC.Curve)
  (QJ : JacPoint) :
  _recover_pubkey co key_id c r s ec = Ret (Some QJ) ->
  _verhlp co c QJ r s ec = Ret tt.
Proof.
  unfold _recover_pubkey. intros H.
  apply bind_inv in H. destruct H as (r1 & _ & H).
  apply bind_inv in H. destruct H as (x & _ & H).
  destruct (EC.y_odd ec x (Z.land key_id 1)) as [y| |];
    try discriminate H. cbn [bind catch] in H.
  destruct (_double_mult co (r1 * s) (x, y, 1) (- r1 * c) (EC.GJ ec) ec)
    as [Q| |]; try discriminate H. cbn [bind catch] in H.
  destruct (_verhlp co c Q r s ec) as [[]| |] eqn:Hv;
    try discriminate H. cbn [bind catch] in H.
  now injection H as <-.
Qed.

(** The index the code reads from [key_id] is twice the one the claim
    describes. *)
Lemma key_id_index (key_id : Z) :
  0 <= key_id <= 7 -> Z.land key_id 6 = 2 * Z.shiftr key_id 1.
Proof.
  intros H.
  assert (Hc : key_id = 0 \/ key_id = 1 \/ key_id = 2 \/ key_id = 3 \/
               key_id = 4 \/ key_id = 5 \/ key_id = 6 \/ key_id = 7) by lia.
  repeat destruct Hc as [Hc | Hc]; subst key_id; reflexivity.
Qed.

(** C8: the code does not do what the claim says.  On the curve over the
    field of 11 elements, the private key 1 signs the challenge 0 with the
    nonce 2 as [(3, 2)]; the nonce point has [x = 10 = r + n].  With
    [key_id = 3] the claim's reading ([j = key_id >> 1 = 1], odd y)
    recovers the signer's key [(6, 9)], while [_recover_pubkey] takes
    [j = key_id & 6 = 2], that is [x = (r + 2 n) mod p], and returns no
    candidate. *)
Theorem recover_pubkey_index :
  _sign co11_7 0 1 2 ec11_7 = Ret (3, 2) /\
  Z.land 3 6 = 2 /\ Z.shiftr 3 1 = 1 /\
  _recover_pubkey co11_7 3 0 3 2 ec11_7 = Ret None /\
  spec_recover_pubkey co11_7 3 0 3 2 ec11_7 = Ret (Some (7, 3, 5)) /\
  EC._aff_from_jac ec11_7 (7, 3, 5) = Ret (6, 9) /\
  _mult_jac co11_7 1 (EC.GJ ec11_7) ec11_7 = Ret (6, 9, 1).
Proof. repeat split; vm_compute; reflexivity. Qed.

(** C10: if the decoded public key has [y = 0], [_verify] builds the
    Jacobian triple with [Z = 0], strict verification rejects it, and
    [verify] returns false for every message and signature. *)
Theorem verify_rejects_y_zero {PrvKey PubKey : Type}
  (co : Collaborators PrvKey PubKey) (ec : EC.Curve) (hf : HashF)
  (msg : StringT) (P : PubKey) (sig : DSASig) (x : Z) :
  collaborators_return co ec hf ->
  to_pub_tuple co P ec = Ret (x, 0) ->
  (forall c r s, _verhlp co c (x, 0, 0) r s ec = Raise ValueError) /\
  verify co msg P sig ec hf = Ret false.
Proof.
  intros Hco HP. split; [reflexivity|].
  unfold verify, _verify.
  pose proof (sig_rs_returns co ec hf Hco sig) as Hsig.
  destruct (sig_rs co sig ec) as [[r s]|e|]; [|reflexivity|contradiction].
  cbn [bind].
  pose proof (_challenge_returns co ec hf Hco (encode msg)) as Hc.
  destruct (_challenge co (encode msg) ec hf) as [c|e|];
    [|reflexivity|contradiction].
  cbn [bind]. rewrite HP. reflexivity.
Qed.

(** On [y^2 = x^3 + x] over the field of 11 elements, [(0, 0)] is a point
    of the curve and its double is infinity. *)
Lemma ec11_2_order_2_point :
  jac_valid 11 1 0 (0, 0, 1) = true /\
  snd (_double_jac (EC.group ec11_2) (0, 0, 1)) = 0.
Proof. split; reflexivity. Qed.

Lemma verify_rejects_y_zero_witness :
  (collaborators_return co11_2 ec11_2 plain_hash /\
   to_pub_tuple co11_2 (0, 0) ec11_2 = Ret (0, 0)) /\
  ((forall c r s, _verhlp co11_2 c (0, 0, 0) r s ec11_2 = Raise ValueError) /\
   verify co11_2 (Bytes []) (0, 0) (SigTuple 1 1) ec11_2 plain_hash
   = Ret false).
Proof.
  assert (H1 : collaborators_return co11_2 ec11_2 plain_hash).
  { apply plain_collaborators_return. discriminate. }
  assert (H2 : to_pub_tuple co11_2 (0, 0) ec11_2 = Ret (0, 0))
    by reflexivity.
  split; [split; assumption|].
  exact (verify_rejects_y_zero co11_2 ec11_2 plain_hash (Bytes [])
           (0, 0) (SigTuple 1 1) 0 H1 H2).
Defined.

(** * Further properties of the code *)

(** ** Digits and signed residues *)

Lemma numberToBase_loop_leading (b : Z) :
  2 <= b ->
  forall (fuel : nat) (n : Z) (acc res : list Z),
    0 <= n ->
    numberToBase_loop fuel n b acc = Ret res ->
    exists ds, res = acc ++ ds /\
               (0 < n -> exists ds' d, ds = ds' ++ [d] /\ 0 < d).
Proof.
  intros Hb. induction fuel as [|fuel IH]; intros n acc res Hn Hrun.
  - simpl in Hrun. destruct (Z.eqb_spec n 0) as [->|Hn0]; [|discriminate].
    injection Hrun as <-. exists []. rewrite app_nil_r. split; [reflexivity|lia].
  - simpl in Hrun. destruct (Z.eqb_spec n 0) as [->|Hn0].
    + injection Hrun as <-. exists []. rewrite app_nil_r.
      split; [reflexivity|lia].
    + destruct (Z.eqb_spec b 0) as [|_]; [lia|].
      assert (Hdiv : 0 <= n / b) by (apply Z.div_pos; lia).
      destruct (IH _ _ _ Hdiv Hrun) as (ds & -> & Hlast).
      exists (n mod b :: ds). rewrite <- app_assoc. split; [reflexivity|].
      intros _. destruct (Z.eq_dec (n / b) 0) as [Hq|Hq].
      * (* the most significant digit *)
        rewrite Hq in Hrun. destruct fuel; simpl in Hrun;
          injection Hrun as Hres;
          rewrite <- (app_nil_r (acc ++ [n mod b])) in Hres at 1;
          apply app_inv_head in Hres; subst ds;
          exists [], (n mod b); (split; [reflexivity|]);
          pose proof (Z.div_mod n b ltac:(lia)); lia.
      * destruct Hlast as (ds' & d & -> & Hd); [lia|].
        exists (n mod b :: ds'), d. now split.
Qed.

(** X1: for a base [b >= 2] and [n >= 0], [numberToBase] returns the
    digits of [n], most significant first: each in [[0, b)], their value
    in radix [b] is [n], and the first one is not zero unless [n = 0]
    (where the result is [[0]]). *)
Theorem numberToBase_digits (fuel : nat) (n b : Z) :
  2 <= b -> 0 <= n -> enough_fuel fuel n ->
  exists d0 M,
    numberToBase fuel n b = Ret (d0 :: M) /\
    Forall (fun d => 0 <= d < b) (d0 :: M) /\
    digits_value b (d0 :: M) 0 = n /\
    (0 < n -> 0 < d0) /\
    (n = 0 -> d0 = 0 /\ M = []).
Proof.
  intros Hb Hn Hfuel.
  destruct (numberToBase_spec fuel n b Hb Hn Hfuel)
    as (d0 & M & Hrun & Hrange & Hval & _).
  exists d0, M. split; [assumption|]. split; [assumption|].
  split; [assumption|]. split.
  - intros Hpos. unfold numberToBase in Hrun.
    destruct (Z.eqb_spec n 0) as [|_]; [lia|].
    apply bind_inv in Hrun. destruct Hrun as (res & Hloop & Hres).
    destruct (numberToBase_loop_leading b Hb fuel n [] res Hn Hloop)
      as (ds & -> & Hlast).
    destruct (Hlast Hpos) as (ds' & d & -> & Hd).
    simpl in Hres. rewrite rev_app_distr in Hres. simpl in Hres.
    now injection Hres as <- _.
  - intros ->. unfold numberToBase in Hrun. simpl in Hrun.
    injection Hrun as <- <-. now split.
Qed.

Lemma numberToBase_digits_witness :
  (2 <= 3 /\ 0 <= 11 /\ enough_fuel 12 11) /\
  exists d0 M,
    numberToBase 12 11 3 = Ret (d0 :: M) /\
    Forall (fun d => 0 <= d < 3) (d0 :: M) /\
    digits_value 3 (d0 :: M) 0 = 11 /\
    (0 < 11 -> 0 < d0) /\
    (11 = 0 -> d0 = 0 /\ M = []).
Proof.
  assert (H : 2 <= 3 /\ 0 <= 11 /\ enough_fuel 12 11).
  { unfold enough_fuel. repeat split; lia. }
  split; [exact H|]. destruct H as (H1 & H2 & H3).
  exact (numberToBase_digits 12 11 3 H1 H2 H3).
Defined.

Lemma numberToBase_loop_stuck (b : Z) :
  forall (fuel : nat) (n : Z) (acc : list Z),
    n <> 0 -> b = 1 \/ (n < 0 /\ 2 <= b) ->
    numberToBase_loop fuel n b acc = OutOfFuel.
Proof.
  induction fuel as [|fuel IH]; intros n acc Hn Hb; simpl;
    destruct (Z.eqb_spec n 0) as [|_]; try contradiction; [reflexivity|].
  destruct (Z.eqb_spec b 0) as [|_]; [lia|].
  apply IH.
  - destruct Hb as [-> | [Hneg Hb]]; [now rewrite Z.div_1_r|].
    assert (n / b < 0) by (apply Z.div_lt_upper_bound; lia). lia.
  - destruct Hb as [-> | [Hneg Hb]]; [now left|right].
    split; [apply Z.div_lt_upper_bound; lia|assumption].
Qed.

(** X2: [numberToBase] does not return on a nonzero [n] in base 1, nor
    on a negative [n] in a base [b >= 2]: its loop never reaches zero,
    whatever the number of steps. *)
Theorem numberToBase_never_returns (fuel : nat) (n b : Z) :
  n <> 0 -> b = 1 \/ (n < 0 /\ 2 <= b) ->
  numberToBase fuel n b = OutOfFuel.
Proof.
  intros Hn Hb. unfold numberToBase.
  destruct (Z.eqb_spec n 0) as [|_]; [contradiction|].
  now rewrite numberToBase_loop_stuck.
Qed.

Lemma numberToBase_never_returns_witness :
  (5 <> 0 /\ (1 = 1 \/ (5 < 0 /\ 2 <= 1))) /\
  numberToBase 100 5 1 = OutOfFuel.
Proof.
  assert (H1 : 5 <> 0) by discriminate.
  assert (H2 : 1 = 1 \/ (5 < 0 /\ 2 <= 1)) by (left; reflexivity).
  split; [split; assumption|].
  exact (numberToBase_never_returns 100 5 1 H1 H2).
Defined.

(** X3: for a width [1 <= w <= 1024], [mods m w] returns the residue of
    [m] modulo [2^w] that lies in [[-2^(w-1), 2^(w-1))]. *)
Theorem mods_signed_residue (m w : Z) :
  1 <= w <= 1024 ->
  exists d, mods m w = Ret d /\
            - 2 ^ (w - 1) <= d < 2 ^ (w - 1) /\
            (m - d) mod 2 ^ w = 0.
Proof.
  intros Hw. rewrite mods_spec by lia.
  set (h := 2 ^ (w - 1)).
  assert (Hh : 1 <= h).
  { pose proof (Z.pow_pos_nonneg 2 (w - 1)). unfold h. lia. }
  assert (HW : 2 ^ w = h * 2).
  { unfold h. rewrite Z.mul_comm, <- Z.pow_succ_r by lia. f_equal. lia. }
  rewrite HW.
  pose proof (Z.div_mod m (h * 2) ltac:(lia)) as Hqr.
  pose proof (Z.mod_pos_bound m (h * 2) ltac:(lia)) as HM.
  set (M := m mod (h * 2)) in *. set (q := m / (h * 2)) in *.
  clearbody M q h.
  destruct (Z.leb_spec (h * 2) (2 * M)).
  - exists (M - h * 2). split; [reflexivity|]. split; [lia|].
    replace (m - (M - h * 2)) with ((q + 1) * (h * 2)) by lia.
    now rewrite Z.mod_mul by lia.
  - exists M. split; [reflexivity|]. split; [lia|].
    replace (m - M) with (q * (h * 2)) by lia.
    now rewrite Z.mod_mul by lia.
Qed.

Lemma mods_signed_residue_witness :
  1 <= 3 <= 1024 /\
  exists d, mods 13 3 = Ret d /\
            - 2 ^ (3 - 1) <= d < 2 ^ (3 - 1) /\
            (13 - d) mod 2 ^ 3 = 0.
Proof.
  assert (H : 1 <= 3 <= 1024) by lia.
  split; [exact H|]. exact (mods_signed_residue 13 3 H).
Defined.

Lemma w_NAF_digits_adjacency (w : Z) :
  2 <= w <= 1024 ->
  forall (fuel : nat) (m : Z) (M : list Z) (j : nat),
    0 <= m -> m <= Z.of_nat fuel ->
    (j <= Z.to_nat w - 1)%nat -> m mod 2 ^ Z.of_nat j = 0 ->
    exists ds,
      w_NAF_digits fuel m w M = Ret (M ++ ds) /\
      zeros_prefix j ds = true /\
      non_adjacent (Z.to_nat w) ds = true.
Proof.
  intros Hw. induction fuel as [|fuel IH]; intros m M j Hm Hfuel Hj Hdiv.
  - assert (m = 0) as -> by lia. exists []. simpl.
    rewrite app_nil_r. repeat split. now destruct j.
  - cbn [w_NAF_digits]. destruct (Z.ltb_spec 0 m) as [Hpos|Hzero].
    2:{ exists []. rewrite app_nil_r. repeat split. now destruct j. }
    destruct (Z.eqb_spec (m mod 2) 1) as [Hodd|Heven].
    + (* an odd [m] is divisible by [2^0] only *)
      assert (j = 0)%nat as ->.
      { destruct j as [|j]; [reflexivity|exfalso].
        rewrite Nat2Z.inj_succ, Z.pow_succ_r in Hdiv by lia.
        assert (0 < 2 ^ Z.of_nat j) by (apply Z.pow_pos_nonneg; lia).
        apply Z.mod_divide in Hdiv; [|lia]. destruct Hdiv as [q Hq].
        rewrite Hq in Hodd.
        replace (q * (2 * 2 ^ Z.of_nat j)) with (q * 2 ^ Z.of_nat j * 2)
          in Hodd by lia.
        rewrite Z.mod_mul in Hodd by lia. discriminate. }
      destruct (mods_odd m w Hw Hpos Hodd) as (d & Hd & Hdig & Hnext & Hsum).
      destruct (mods_signed_residue m w ltac:(lia)) as (d' & Hd' & _ & Hres).
      rewrite Hd in Hd'. injection Hd' as <-.
      rewrite Hd. cbn [bind].
      assert (Hnext_div : ((m - d) / 2) mod 2 ^ Z.of_nat (Z.to_nat w - 1) = 0).
      { replace (Z.of_nat (Z.to_nat w - 1)) with (w - 1) by lia.
        assert (0 < 2 ^ (w - 1)) by (apply Z.pow_pos_nonneg; lia).
        assert (HW : 2 ^ w = 2 ^ (w - 1) * 2).
        { rewrite Z.mul_comm, <- Z.pow_succ_r by lia. f_equal. lia. }
        apply Z.mod_divide in Hres; [|lia]. destruct Hres as [q Hq].
        rewrite Hq, HW, Z.mul_assoc, Z.div_mul by lia.
        now rewrite Z.mod_mul by lia. }
      destruct (IH ((m - d) / 2) (M ++ [d]) (Z.to_nat w - 1)%nat)
        as (ds & Hrun & Hzeros & Hna); try lia; try assumption.
      exists (d :: ds). rewrite Hrun, <- app_assoc. repeat split.
      cbn [non_adjacent]. now rewrite Hzeros, Hna, orb_true_r.
    + pose proof (Z.div_mod m 2 ltac:(lia)) as Ha.
      pose proof (Z.mod_pos_bound m 2 ltac:(lia)) as Hb.
      assert (Hhalf : (m / 2) mod 2 ^ Z.of_nat (pred j) = 0).
      { destruct j as [|j]; [simpl; apply Z.mod_1_r|]. simpl pred.
        rewrite Nat2Z.inj_succ, Z.pow_succ_r in Hdiv by lia.
        assert (0 < 2 ^ Z.of_nat j) by (apply Z.pow_pos_nonneg; lia).
        apply Z.mod_divide in Hdiv; [|lia]. destruct Hdiv as [q Hq].
        rewrite Hq.
        replace (q * (2 * 2 ^ Z.of_nat j)) with (q * 2 ^ Z.of_nat j * 2)
          by lia.
        rewrite Z.div_mul by lia. now rewrite Z.mod_mul by lia. }
      destruct (IH (m / 2) (M ++ [0]) (pred j))
        as (ds & Hrun & Hzeros & Hna); try lia; try assumption.
      exists (0 :: ds). rewrite Hrun, <- app_assoc. repeat split.
      * destruct j as [|j]; [reflexivity|]. simpl in Hzeros |- *.
        assumption.
      * cbn [non_adjacent]. now rewrite Hna.
Qed.

Lemma w_NAF_digits_top (w : Z) :
  2 <= w <= 1024 ->
  forall (fuel : nat) (m : Z) (M res : list Z),
    0 < m -> w_NAF_digits fuel m w M = Ret res ->
    exists ds d, res = M ++ ds ++ [d] /\ 0 < d.
Proof.
  intros Hw. induction fuel as [|fuel IH]; intros m M res Hm Hrun;
    cbn [w_NAF_digits] in Hrun;
    destruct (Z.ltb_spec 0 m) as [_|]; try lia; [discriminate|].
  destruct (Z.eqb_spec (m mod 2) 1) as [Hodd|Heven].
  - destruct (mods_odd m w Hw Hm Hodd) as (d & Hd & Hdig & Hnext & Hsum).
    rewrite Hd in Hrun. cbn [bind] in Hrun.
    destruct (Z.eq_dec ((m - d) / 2) 0) as [Hlast|Hmore].
    + rewrite Hlast in Hrun. exists [], d.
      destruct fuel; simpl in Hrun; injection Hrun as <-;
        (split; [reflexivity|lia]).
    + destruct (IH ((m - d) / 2) (M ++ [d]) res ltac:(lia) Hrun)
        as (ds & d' & -> & Hd').
      exists (d :: ds), d'. rewrite <- app_assoc. now split.
  - pose proof (Z.div_mod m 2 ltac:(lia)) as Ha.
    pose proof (Z.mod_pos_bound m 2 ltac:(lia)) as Hb.
    destruct (IH (m / 2) (M ++ [0]) res ltac:(lia) Hrun)
      as (ds & d' & -> & Hd').
    exists (0 :: ds), d'. rewrite <- app_assoc. now split.
Qed.

(** X4: for a width [2 <= w <= 1024] and a scalar [m >= 0], the digit
    loop of [_mult_w_NAF] produces the width-[w] non-adjacent form of
    [m], least significant digit first: the digits are zero or odd with
    absolute value below [2^(w-1)], their value in radix 2 is [m], every
    nonzero digit is followed by [w - 1] zeros, and the most significant
    digit is positive. *)
Theorem w_NAF_digits_non_adjacent (fuel : nat) (m w : Z) :
  2 <= w <= 1024 -> 0 <= m -> m <= Z.of_nat fuel ->
  exists ds,
    w_NAF_digits fuel m w [] = Ret ds /\
    Forall (w_NAF_digit w) ds /\
    digits_value 2 (rev ds) 0 = m /\
    non_adjacent (Z.to_nat w) ds = true /\
    (0 < m -> exists ds' d, ds = ds' ++ [d] /\ 0 < d).
Proof.
  intros Hw Hm Hfuel.
  destruct (w_NAF_digits_spec w Hw fuel m [] Hm Hfuel)
    as (ds & Hrun & Hall & Hval).
  destruct (w_NAF_digits_adjacency w Hw fuel m [] 0 Hm Hfuel
              ltac:(lia) (Z.mod_1_r m)) as (ds' & Hrun' & _ & Hna).
  rewrite Hrun in Hrun'. injection Hrun' as <-. simpl in Hrun.
  exists ds. repeat split; try assumption.
  intros Hpos.
  destruct (w_NAF_digits_top w Hw fuel m [] ds Hpos Hrun)
    as (ds' & d & Hds & Hd).
  now exists ds', d.
Qed.

Lemma w_NAF_digits_non_adjacent_witness :
  (2 <= 3 <= 1024 /\ 0 <= 45 /\ 45 <= Z.of_nat 45) /\
  exists ds,
    w_NAF_digits 45 45 3 [] = Ret ds /\
    Forall (w_NAF_digit 3) ds /\
    digits_value 2 (rev ds) 0 = 45 /\
    non_adjacent (Z.to_nat 3) ds = true /\
    (0 < 45 -> exists ds' d, ds = ds' ++ [d] /\ 0 < d).
Proof.
  assert (H : 2 <= 3 <= 1024 /\ 0 <= 45 /\ 45 <= Z.of_nat 45) by lia.
  split; [exact H|]. destruct H as (H1 & H2 & H3).
  exact (w_NAF_digits_non_adjacent 45 45 3 H1 H2 H3).
Defined.

(** ** Signatures: ranges, acceptance, recovered keys *)

Section SignatureShape.

Context {PrvKey PubKey : Type}.
Context (co : Collaborators PrvKey PubKey) (ec : EC.Curve) (hf : HashF).

Lemma _check_sig_inv (r s : Z) :
  _check_sig r s ec = Ret tt <-> 0 < r < EC.n ec /\ 0 < s < EC.n ec.
Proof.
  unfold _check_sig.
  destruct (Z.ltb_spec 0 r), (Z.ltb_spec r (EC.n ec)),
    (Z.ltb_spec 0 s), (Z.ltb_spec s (EC.n ec)); cbn [andb negb];
    split; intros Hx; try discriminate; try reflexivity; lia.
Qed.

(** X5: whatever the message, the key and the nonce, a signature that
    [sign] returns has [r] and [s] in [[1, n-1]], so that it passes
    [_check_sig]; and [s <= n/2] when the order has at most 53 bits,
    where the float [n / 2] is exact. *)
Theorem sign_components_in_range (msg : StringT) (q : PrvKey) (k : option Z)
  (r s : Z) :
  sign co msg q k ec hf = Ret (r, s) ->
  0 < r < EC.n ec /\ 0 < s < EC.n ec /\
  _check_sig r s ec = Ret tt /\
  (Z.log2 (EC.n ec) < 53 -> 2 * s <= EC.n ec).
Proof.
  intros Hsign. unfold sign in Hsign.
  apply bind_inv in Hsign. destruct Hsign as (c & _ & Hsign).
  apply bind_inv in Hsign. destruct Hsign as (d & _ & Hsign).
  apply bind_inv in Hsign. destruct Hsign as (k' & _ & Hsign).
  destruct ((0 <? k') && (k' <? EC.n ec)) eqn:Hrange; [|discriminate].
  apply andb_true_iff in Hrange. destruct Hrange as [Hk1 Hk2].
  apply Z.ltb_lt in Hk1, Hk2.
  destruct (_sign_range co c d k' r s ec ltac:(lia) Hsign) as (Hr & Hs & Hlow).
  repeat split; try lia; try assumption.
  now apply _check_sig_inv.
Qed.

(** What strict verification has checked when it returns. *)
Lemma _verify_inv (msg : StringT) (P : PubKey) (r s : Z) :
  _verify co msg P (SigTuple r s) ec hf = Ret tt ->
  0 < r < EC.n ec /\ 0 < s < EC.n ec /\
  exists c x y,
    _challenge co (encode msg) ec hf = Ret c /\
    to_pub_tuple co P ec = Ret (x, y) /\ y <> 0 /\
    _verhlp co c (x, y, 1) r s ec = Ret tt.
Proof.
  intros H. unfold _verify, sig_rs in H.
  apply bind_inv in H. destruct H as ([r' s'] & Hsig & H).
  apply bind_inv in Hsig. destruct Hsig as ([] & Hcheck & Hrs).
  injection Hrs as <- <-. apply _check_sig_inv in Hcheck.
  apply bind_inv in H. destruct H as (c & Hc & H).
  apply bind_inv in H. destruct H as ([x y] & HP & H).
  split; [tauto|]. split; [tauto|]. exists c, x, y.
  destruct (Z.eqb_spec y 0) as [->|Hy]; [discriminate H|].
  now repeat split.
Qed.

Lemma verify_true_inv (msg : StringT) (P : PubKey) (sig : DSASig) :
  verify co msg P sig ec hf = Ret true ->
  _verify co msg P sig ec hf = Ret tt.
Proof.
  unfold verify. destruct (_verify co msg P sig ec hf) as [[]| |];
    intros H; try discriminate. reflexivity.
Qed.

(** X6: [verify] returns true on a pair [(r, s)] only if both lie in
    [[1, n-1]] and the public key decodes to a point whose y coordinate
    is not zero. *)
Theorem verify_accepts_only_in_range (msg : StringT) (P : PubKey) (r s : Z) :
  verify co msg P (SigTuple r s) ec hf = Ret true ->
  0 < r < EC.n ec /\ 0 < s < EC.n ec /\
  exists x y, to_pub_tuple co P ec = Ret (x, y) /\ y <> 0.
Proof.
  intros H. apply verify_true_inv, _verify_inv in H.
  destruct H as (Hr & Hs & c & x & y & _ & HP & Hy & _).
  split; [assumption|]. split; [assumption|]. now exists x, y.
Qed.

(** One candidate appends nothing, or one key that passes [_verhlp]. *)
Lemma try_candidate_inv (c r s r1s r1e : Z) (RJ : JacPoint)
  (keys keys' : list JacPoint) :
  try_candidate co c r s r1s r1e RJ ec keys = Ret keys' ->
  exists new, keys' = keys ++ new /\ (length new <= 1)%nat /\
              Forall (fun QJ => _verhlp co c QJ r s ec = Ret tt) new.
Proof.
  intros H. unfold try_candidate in H.
  apply bind_inv in H. destruct H as (QJ & _ & H).
  destruct (_verhlp co c QJ r s ec) as [[]| |] eqn:Hver; try discriminate;
    injection H as <-.
  - exists [QJ]. repeat split; [simpl; lia|]. now constructor.
  - exists []. rewrite app_nil_r. repeat split; [simpl; lia|constructor].
Qed.

Lemma recover_step_inv (c r s r1s r1e j : Z) (keys keys' : list JacPoint) :
  recover_step co c r s r1s r1e ec j keys = Ret keys' ->
  exists new, keys' = keys ++ new /\ (length new <= 2)%nat /\
              Forall (fun QJ => _verhlp co c QJ r s ec = Ret tt) new.
Proof.
  intros H. unfold recover_step in H.
  apply bind_inv in H. destruct H as (x & _ & H).
  assert (Hnone : exists new, keys = keys ++ new /\ (length new <= 2)%nat /\
              Forall (fun QJ => _verhlp co c QJ r s ec = Ret tt) new).
  { exists []. rewrite app_nil_r. repeat split; [simpl; lia|constructor]. }
  destruct (EC.y_odd ec x 0) as [yodd| |]; try discriminate;
    [|injection H as <-; exact Hnone].
  destruct (try_candidate co c r s r1s r1e (x, yodd, 1) ec keys)
    as [keys1| |] eqn:H1; try discriminate;
    [|injection H as <-; exact Hnone].
  apply try_candidate_inv in H1. destruct H1 as (new1 & -> & Hlen1 & Hall1).
  unfold catch in H.
  destruct (try_candidate co c r s r1s r1e
              (x, _p (EC.group ec) - yodd, 1) ec (keys ++ new1))
    as [keys2| |] eqn:H2; try discriminate; injection H as <-.
  - apply try_candidate_inv in H2. destruct H2 as (new2 & -> & Hlen2 & Hall2).
    exists (new1 ++ new2). rewrite app_assoc. repeat split.
    + rewrite length_app. lia.
    + apply Forall_app. now split.
  - exists new1. repeat split; [lia|assumption].
Qed.

Lemma recover_loop_inv (c r s r1s r1e : Z) (js : list Z) :
  forall keys keys',
    recover_loop co c r s r1s r1e ec js keys = Ret keys' ->
    exists new, keys' = keys ++ new /\ (length new <= 2 * length js)%nat /\
                Forall (fun QJ => _verhlp co c QJ r s ec = Ret tt) new.
Proof.
  induction js as [|j js IH]; intros keys keys' H; simpl in H.
  - injection H as <-. exists []. rewrite app_nil_r.
    repeat split; [simpl; lia|constructor].
  - apply bind_inv in H. destruct H as (keys1 & Hstep & H).
    apply recover_step_inv in Hstep. destruct Hstep as (new1 & -> & Hlen1 & Hall1).
    apply IH in H. destruct H as (new2 & -> & Hlen2 & Hall2).
    exists (new1 ++ new2). rewrite app_assoc. repeat split.
    + rewrite length_app. simpl. lia.
    + apply Forall_app. now split.
Qed.

Lemma _recover_pubkeys_inv (c r s : Z) (keys : list JacPoint) :
  _recover_pubkeys co c r s ec = Ret keys ->
  (length keys <= 2 * Z.to_nat (EC.h ec))%nat /\
  Forall (fun QJ => _verhlp co c QJ r s ec = Ret tt) keys.
Proof.
  intros H. unfold _recover_pubkeys in H.
  apply bind_inv in H. destruct H as (r1 & _ & H).
  apply recover_loop_inv in H. destruct H as (new & -> & Hlen & Hall).
  simpl. split; [|assumption].
  unfold py_range in Hlen. rewrite length_map, length_seq in Hlen.
  now rewrite Z.sub_0_r in Hlen.
Qed.

Lemma map_outcome_inv {A B : Type} (f : A -> outcome B) :
  forall (l : list A) (bs : list B),
    map_outcome f l = Ret bs -> Forall2 (fun a b => f a = Ret b) l bs.
Proof.
  induction l as [|a l IH]; intros bs H; simpl in H.
  - injection H as <-. constructor.
  - apply bind_inv in H. destruct H as (b & Hb & H).
    apply bind_inv in H. destruct H as (bs' & Hbs & H).
    injection H as <-. constructor; [assumption|now apply IH].
Qed.

(** X7: when [recover_pubkeys] returns on a pair [(r, s)], both lie in
    [[1, n-1]], there are at most [2 h] points, and each of them is the
    affine form of a Jacobian key that passes [_verhlp] with the
    challenge of the message: no key is returned that does not verify
    the signature. *)
Theorem recover_pubkeys_sound (msg : StringT) (r s : Z) (pts : list Point) :
  recover_pubkeys co msg (SigTuple r s) ec hf = Ret pts ->
  0 < r < EC.n ec /\ 0 < s < EC.n ec /\
  (length pts <= 2 * Z.to_nat (EC.h ec))%nat /\
  exists c, _challenge co (encode msg) ec hf = Ret c /\
            Forall (fun Q => exists QJ, EC._aff_from_jac ec QJ = Ret Q /\
                                        _verhlp co c QJ r s ec = Ret tt) pts.
Proof.
  intros H. unfold recover_pubkeys, sig_rs in H.
  apply bind_inv in H. destruct H as (c & Hc & H).
  apply bind_inv in H. destruct H as ([r' s'] & Hsig & H).
  apply bind_inv in Hsig. destruct Hsig as ([] & Hcheck & Hrs).
  injection Hrs as <- <-. apply _check_sig_inv in Hcheck.
  apply bind_inv in H. destruct H as (keys & Hkeys & H).
  apply _recover_pubkeys_inv in Hkeys. destruct Hkeys as [Hlen Hall].
  apply map_outcome_inv in H.
  split; [tauto|]. split; [tauto|]. split.
  - now rewrite <- (Forall2_length H).
  - exists c. split; [assumption|]. clear Hlen.
    induction H as [|QJ Q keys pts HQ _ IH]; constructor.
    + exists QJ. split; [assumption|]. now inversion Hall.
    + apply IH. now inversion Hall.
Qed.

End SignatureShape.

Lemma sign_components_in_range_witness :
  sign co11_7 (Bytes [Byte.x00; Byte.x01]) 3 (Some 2) ec11_7 plain_hash
  = Ret (3, 2) /\
  (0 < 3 < EC.n ec11_7 /\ 0 < 2 < EC.n ec11_7 /\
   _check_sig 3 2 ec11_7 = Ret tt /\
   (Z.log2 (EC.n ec11_7) < 53 -> 2 * 2 <= EC.n ec11_7)).
Proof.
  assert (H : sign co11_7 (Bytes [Byte.x00; Byte.x01]) 3 (Some 2) ec11_7
                plain_hash = Ret (3, 2)) by (vm_compute; reflexivity).
  split; [exact H|].
  exact (sign_components_in_range co11_7 ec11_7 plain_hash
           (Bytes [Byte.x00; Byte.x01]) 3 (Some 2) 3 2 H).
Defined.

Lemma verify_accepts_only_in_range_witness :
  verify co11_7 (Bytes [Byte.x00; Byte.x01]) (7, 1) (SigTuple 3 2)
    ec11_7 plain_hash = Ret true /\
  (0 < 3 < EC.n ec11_7 /\ 0 < 2 < EC.n ec11_7 /\
   exists x y, to_pub_tuple co11_7 (7, 1) ec11_7 = Ret (x, y) /\ y <> 0).
Proof.
  assert (H : verify co11_7 (Bytes [Byte.x00; Byte.x01]) (7, 1)
                (SigTuple 3 2) ec11_7 plain_hash = Ret true)
    by (vm_compute; reflexivity).
  split; [exact H|].
  exact (verify_accepts_only_in_range co11_7 ec11_7 plain_hash
           (Bytes [Byte.x00; Byte.x01]) (7, 1) 3 2 H).
Defined.

Lemma recover_pubkeys_sound_witness :
  recover_pubkeys co11_7 (Bytes [Byte.x00]) (SigTuple 6 1) ec11_7 plain_hash
  = Ret [(10, 2)] /\
  (0 < 6 < EC.n ec11_7 /\ 0 < 1 < EC.n ec11_7 /\
   (length [(10, 2)] <= 2 * Z.to_nat (EC.h ec11_7))%nat /\
   exists c, _challenge co11_7 (encode (Bytes [Byte.x00])) ec11_7 plain_hash
             = Ret c /\
             Forall (fun Q => exists QJ,
                         EC._aff_from_jac ec11_7 QJ = Ret Q /\
                         _verhlp co11_7 c QJ 6 1 ec11_7 = Ret tt) [(10, 2)]).
Proof.
  assert (H : recover_pubkeys co11_7 (Bytes [Byte.x00]) (SigTuple 6 1)
                ec11_7 plain_hash = Ret [(10, 2)]) by (vm_compute; reflexivity).
  split; [exact H|].
  exact (recover_pubkeys_sound co11_7 ec11_7 plain_hash (Bytes [Byte.x00])
           6 1 [(10, 2)] H).
Defined.

(** ** The single recovered key and the list of keys *)

Section RecoveredKey.

Context {PrvKey PubKey : Type}.
Context (co : Collaborators PrvKey PubKey) (ec : EC.Curve).

Lemma bind_assoc {A B C : Type} (c : outcome A) (k : A -> outcome B)
  (k' : B -> outcome C) :
  bind (bind c k) k' = bind c (fun a => bind (k a) k').
Proof. now destruct c. Qed.

Lemma recover_loop_app (c r s r1s r1e : Z) (l1 l2 : list Z) :
  forall keys,
    recover_loop co c r s r1s r1e ec (l1 ++ l2) keys
    = (keys1 <- recover_loop co c r s r1s r1e ec l1 keys ;;
       recover_loop co c r s r1s r1e ec l2 keys1).
Proof.
  induction l1 as [|j l1 IH]; intros keys; simpl; [reflexivity|].
  rewrite bind_assoc. destruct (recover_step co c r s r1s r1e ec j keys);
    simpl; auto.
Qed.

(** An iteration whose first candidate passes [_verhlp] leaves it in
    the list. *)
Lemma recover_step_first (c r s r1s r1e j x y : Z) (QJ : JacPoint)
  (keys keys' : list JacPoint) :
  py_mod (r + j * EC.n ec) (_p (EC.group ec)) = Ret x ->
  EC.y_odd ec x 0 = Ret y ->
  _double_mult co r1s (x, y, 1) r1e (EC.GJ ec) ec = Ret QJ ->
  _verhlp co c QJ r s ec = Ret tt ->
  recover_step co c r s r1s r1e ec j keys = Ret keys' ->
  In QJ keys'.
Proof.
  intros Hx Hy HQ Hver H. unfold recover_step in H.
  rewrite Hx in H. cbn [bind] in H. rewrite Hy in H.
  assert (H1 : try_candidate co c r s r1s r1e (x, y, 1) ec keys
               = Ret (keys ++ [QJ])).
  { unfold try_candidate. rewrite HQ. cbn [bind]. now rewrite Hver. }
  rewrite H1 in H. unfold catch in H.
  destruct (try_candidate co c r s r1s r1e (x, _p (EC.group ec) - y, 1) ec
              (keys ++ [QJ])) as [keys2| |] eqn:H2; try discriminate;
    injection H as <-.
  - apply try_candidate_inv in H2. destruct H2 as (new & -> & _).
    apply in_or_app. left. apply in_or_app. right. now left.
  - apply in_or_app. right. now left.
Qed.

(** X8: for an even [key_id] (0, 2, 4 or 6) below the cofactor, the key
    that [_recover_pubkey] returns is one of those [_recover_pubkeys]
    returns for the same signature: the code takes [j = key_id] there
    and the first candidate of that iteration. *)
Theorem recover_pubkey_even_listed (key_id c r s : Z) (QJ : JacPoint)
  (keys : list JacPoint) :
  In key_id [0; 2; 4; 6] -> key_id < EC.h ec ->
  _recover_pubkey co key_id c r s ec = Ret (Some QJ) ->
  _recover_pubkeys co c r s ec = Ret keys ->
  In QJ keys.
Proof.
  intros Hid Hh Hone Hall.
  assert (Hj : Z.land key_id 6 = key_id /\ Z.land key_id 1 = 0 /\
               0 <= key_id).
  { simpl in Hid. repeat destruct Hid as [<-|Hid]; try contradiction;
      repeat split; try reflexivity; lia. }
  destruct Hj as (Hj & Hi & Hpos).
  unfold _recover_pubkey in Hone. rewrite Hj, Hi in Hone.
  apply bind_inv in Hone. destruct Hone as (r1 & Hr1 & Hone).
  apply bind_inv in Hone. destruct Hone as (x & Hx & Hone).
  unfold catch in Hone.
  destruct (EC.y_odd ec x 0) as [y| |] eqn:Hy; try discriminate.
  cbn [bind] in Hone.
  destruct (_double_mult co (r1 * s) (x, y, 1) (- r1 * c) (EC.GJ ec) ec)
    as [QJ'| |] eqn:HQ; try discriminate.
  cbn [bind] in Hone.
  destruct (_verhlp co c QJ' r s ec) as [[]| |] eqn:Hver; try discriminate.
  cbn [bind] in Hone. injection Hone as <-.
  unfold _recover_pubkeys in Hall. rewrite Hr1 in Hall. cbn [bind] in Hall.
  assert (Hin : In key_id (py_range 0 (EC.h ec))).
  { unfold py_range. apply in_map_iff. exists (Z.to_nat key_id).
    split; [lia|]. apply in_seq. lia. }
  apply in_split in Hin. destruct Hin as (l1 & l2 & Hsplit).
  rewrite Hsplit, recover_loop_app in Hall.
  apply bind_inv in Hall. destruct Hall as (keys1 & _ & Hall).
  simpl in Hall.
  apply bind_inv in Hall. destruct Hall as (keys2 & Hstep & Hall).
  apply (recover_step_first c r s _ _ key_id x y QJ' keys1 keys2 Hx Hy HQ Hver)
    in Hstep.
  apply recover_loop_inv in Hall. destruct Hall as (new & -> & _).
  apply in_or_app. now left.
Qed.

End RecoveredKey.

Lemma recover_pubkey_even_listed_witness :
  (In 0 [0; 2; 4; 6] /\ 0 < EC.h ec11_7 /\
   _recover_pubkey co11_7 0 0 6 1 ec11_7 = Ret (Some (10, 1, 3)) /\
   _recover_pubkeys co11_7 0 6 1 ec11_7 = Ret [(10, 1, 3); (10, 1, 8)]) /\
  In (10, 1, 3) [(10, 1, 3); (10, 1, 8)].
Proof.
  assert (H1 : In 0 [0; 2; 4; 6]) by (left; reflexivity).
  assert (H2 : 0 < EC.h ec11_7) by reflexivity.
  assert (H3 : _recover_pubkey co11_7 0 0 6 1 ec11_7
               = Ret (Some (10, 1, 3))) by (vm_compute; reflexivity).
  assert (H4 : _recover_pubkeys co11_7 0 6 1 ec11_7
               = Ret [(10, 1, 3); (10, 1, 8)]) by (vm_compute; reflexivity).
  split; [repeat split; assumption|].
  exact (recover_pubkey_even_listed co11_7 ec11_7 0 0 6 1 (10, 1, 3)
           [(10, 1, 3); (10, 1, 8)] H1 H2 H3 H4).
Defined.

(** ** The verification equation *)

Section VerificationEquation.

Context {PrvKey PubKey : Type}.
Context (ec : EC.Curve) (co : Collaborators PrvKey PubKey).
Context (L : CurveLaws (EC.group ec)) (D : DSALaws ec co L).

Local Abbreviation G := (pt L (EC.GJ ec)).
Local Abbreviation n := (EC.n ec).

(** Two inverses of [s] modulo [n] give the same multiple of [G]. *)
Lemma inverse_scalar (s w w0 A : Z) :
  (s * w) mod n = 1 -> (s * w0) mod n = 1 ->
  smul L (w * A) G = smul L (w0 * A) G.
Proof.
  intros Hw Hw0. pose proof (n_pos ec co L D) as Hn.
  pose proof (Z.div_mod (s * w) n ltac:(lia)) as E1.
  pose proof (Z.div_mod (s * w0) n ltac:(lia)) as E2.
  rewrite Hw in E1. rewrite Hw0 in E2.
  set (a := s * w / n) in *. set (b := s * w0 / n) in *.
  clearbody a b. clear Hw Hw0.
  rewrite <- (smul_add_order ec co L D (w0 * A) ((a * w0 - b * w) * A)).
  f_equal. set (nn := n) in *. clearbody nn.
  assert (H1 : w0 * A * (s * w) = w0 * A * (nn * a + 1)) by now rewrite E1.
  assert (H2 : w * A * (s * w0) = w * A * (nn * b + 1)) by now rewrite E2.
  lia.
Qed.

(** [_verhlp] returns exactly when [R = [w (c + r d)]G], for [w] an
    inverse of [s] modulo [n] and [[d]G] the key, is finite and has
    [x(R) mod n = r]. *)
Lemma _verhlp_equation (c r s d w : Z) (PJ : JacPoint) :
  0 <= c -> 0 <= r -> 0 < s < n ->
  valid_jac L PJ -> snd PJ <> 0 -> pt L PJ = smul L d G ->
  (s * w) mod n = 1 ->
  _verhlp co c PJ r s ec = Ret tt <->
  smul L (w * (c + r * d)) G <> gzero L /\
  r = x_of D (smul L (w * (c + r * d)) G) mod n.
Proof.
  intros Hc Hr Hs HvP HPZ HptP Hw. pose proof (n_pos ec co L D) as Hn.
  unfold _verhlp. destruct PJ as [[PX PY] PZ]. simpl in HPZ.
  destruct (Z.eqb_spec PZ 0) as [|_]; [contradiction|].
  destruct (mod_inv_n _ _ _ D s Hs) as (w0 & Hw0 & Hw0pos & Hsw0).
  rewrite Hw0. cbn [bind].
  destruct (double_mult_spec _ _ _ D (r * w0) (PX, PY, PZ) (c * w0) (EC.GJ ec))
    as (RJ & HRJ & HvR & HptR);
    try (apply Z.mul_nonneg_nonneg; lia); try assumption;
    try apply (GJ_valid _ _ _ D).
  rewrite HRJ. cbn [bind].
  rewrite HptP, <- smul_mul_Z, <- smul_add in HptR.
  replace (r * w0 * d + c * w0) with (w0 * (c + r * d)) in HptR by lia.
  rewrite (inverse_scalar s w w0 (c + r * d) Hw Hsw0), <- HptR.
  destruct RJ as [[X Y] Z].
  pose proof (pt_infinity _ L X Y Z HvR) as Hinf.
  destruct (Z.eqb_spec Z 0) as [HZ|HZ].
  - split; [discriminate|]. intros [Hnz _]. tauto.
  - rewrite (x_of_jac _ _ _ D X Y Z HvR HZ). cbn [bind].
    rewrite py_mod_ret by lia. cbn [bind].
    destruct (Z.eqb_spec r (x_of D (pt L (X, Y, Z)) mod n)) as [Heq|Hne].
    + split; [|reflexivity]. intros _. split; [tauto|assumption].
    + split; [discriminate|]. intros [_ Heq]. contradiction.
Qed.

Lemma verify_tuple_true (msg : StringT) (P : PubKey) (hf : HashF)
  (c r s x y : Z) :
  0 < r < n -> 0 < s < n ->
  _challenge co (encode msg) ec hf = Ret c ->
  to_pub_tuple co P ec = Ret (x, y) -> y <> 0 ->
  _verhlp co c (x, y, 1) r s ec = Ret tt ->
  verify co msg P (SigTuple r s) ec hf = Ret true.
Proof.
  intros Hr Hs Hc HP Hy Hver.
  unfold verify, _verify, sig_rs, _check_sig.
  destruct (Z.ltb_spec 0 r); [|lia]. destruct (Z.ltb_spec r n); [|lia].
  destruct (Z.ltb_spec 0 s); [|lia]. destruct (Z.ltb_spec s n); [|lia].
  cbn [andb negb bind]. rewrite Hc. cbn [bind]. rewrite HP. cbn [bind].
  destruct (Z.eqb_spec y 0) as [|_]; [contradiction|].
  now rewrite Hver.
Qed.

(** X9: for a public key [[d]G] with [0 < d < n] and a message of
    challenge [c], [verify] returns true on [(r, s)] exactly when [r]
    and [s] lie in [[1, n-1]] and, for [w] an inverse of [s] modulo [n],
    the point [R = [w (c + r d)]G] is finite with [x(R) mod n = r]: the
    verification equation of SEC 1. *)
Theorem verify_accepts_iff (msg : StringT) (P : PubKey) (hf : HashF)
  (c r s x y d : Z) :
  _challenge co (encode msg) ec hf = Ret c ->
  to_pub_tuple co P ec = Ret (x, y) ->
  valid_jac L (x, y, 1) -> pt L (x, y, 1) = smul L d G -> 0 < d < n ->
  verify co msg P (SigTuple r s) ec hf = Ret true <->
  0 < r < n /\ 0 < s < n /\
  exists w, (s * w) mod n = 1 /\
            smul L (w * (c + r * d)) G <> gzero L /\
            r = x_of D (smul L (w * (c + r * d)) G) mod n.
Proof.
  intros Hc HP Hv Hpt Hd.
  assert (Hc0 : 0 <= c).
  { unfold _challenge in Hc. apply bind_inv in Hc.
    destruct Hc as (mhd & _ & Hc).
    exact (int_from_bits_nonneg _ _ _ D _ _ Hc). }
  assert (Hy : y <> 0).
  { intros ->. exact (public_key_y_nonzero ec co L D x d Hd Hv Hpt). }
  split.
  - intros H. apply verify_true_inv, _verify_inv in H.
    destruct H as (Hr & Hs & c' & x' & y' & Hc' & HP' & _ & Hver).
    rewrite Hc in Hc'. injection Hc' as <-.
    rewrite HP in HP'. injection HP' as <- <-.
    split; [assumption|]. split; [assumption|].
    destruct (mod_inv_n _ _ _ D s Hs) as (w & _ & _ & Hw).
    exists w. split; [assumption|].
    now apply (_verhlp_equation c r s d w (x, y, 1)); try assumption;
      simpl; try lia.
  - intros (Hr & Hs & w & Hw & Heq).
    apply (verify_tuple_true msg P hf c r s x y); try assumption.
    now apply (_verhlp_equation c r s d w (x, y, 1)); try assumption;
      simpl; try lia.
Qed.

(** X10: [verify] does not require the low [s]: for a public key that
    is a multiple of the generator, when it returns true on [(r, s)] it
    returns true on [(r, n - s)] too. *)
Theorem verify_accepts_negated_s (msg : StringT) (P : PubKey) (hf : HashF)
  (r s x y d : Z) :
  to_pub_tuple co P ec = Ret (x, y) ->
  valid_jac L (x, y, 1) -> pt L (x, y, 1) = smul L d G ->
  verify co msg P (SigTuple r s) ec hf = Ret true ->
  verify co msg P (SigTuple r (n - s)) ec hf = Ret true.
Proof.
  intros HP Hv Hpt H. pose proof (n_pos ec co L D) as Hn.
  apply verify_true_inv, _verify_inv in H.
  destruct H as (Hr & Hs & c & x' & y' & Hc & HP' & Hy & Hver).
  rewrite HP in HP'. injection HP' as <- <-.
  assert (Hc0 : 0 <= c).
  { unfold _challenge in Hc. apply bind_inv in Hc.
    destruct Hc as (mhd & _ & Hc').
    exact (int_from_bits_nonneg _ _ _ D _ _ Hc'). }
  destruct (mod_inv_n _ _ _ D s Hs) as (w & _ & _ & Hw).
  apply (_verhlp_equation c r s d w (x, y, 1)) in Hver;
    try assumption; try (simpl; lia).
  destruct Hver as [Hnz Hx].
  apply (verify_tuple_true msg P hf c r (n - s) x y);
    try assumption; try lia.
  apply (_verhlp_equation c r (n - s) d (- w) (x, y, 1));
    try assumption; try (simpl; lia).
  - replace ((n - s) * - w) with (s * w + (- w) * n) by lia.
    now rewrite Z.mod_add by lia.
  - rewrite Z.mul_opp_l, smul_opp, x_of_opp.
    split; [now apply gopp_nonzero|assumption].
Qed.

End VerificationEquation.

Lemma verify_accepts_iff_witness :
  (_challenge co11_7 (encode (Bytes [Byte.x00; Byte.x01])) ec11_7 plain_hash
   = Ret 2 /\
   to_pub_tuple co11_7 (7, 1) ec11_7 = Ret (7, 1) /\
   valid_jac ec11_7_laws (7, 1, 1) /\
   pt ec11_7_laws (7, 1, 1)
   = smul ec11_7_laws 3 (pt ec11_7_laws (EC.GJ ec11_7)) /\
   0 < 3 < EC.n ec11_7) /\
  (verify co11_7 (Bytes [Byte.x00; Byte.x01]) (7, 1) (SigTuple 3 2)
     ec11_7 plain_hash = Ret true <->
   0 < 3 < EC.n ec11_7 /\ 0 < 2 < EC.n ec11_7 /\
   exists w, (2 * w) mod EC.n ec11_7 = 1 /\
             smul ec11_7_laws (w * (2 + 3 * 3)) (pt ec11_7_laws (EC.GJ ec11_7))
             <> gzero ec11_7_laws /\
             3 = x_of ec11_7_dsa_laws
                   (smul ec11_7_laws (w * (2 + 3 * 3))
                      (pt ec11_7_laws (EC.GJ ec11_7))) mod EC.n ec11_7).
Proof.
  assert (H1 : _challenge co11_7 (encode (Bytes [Byte.x00; Byte.x01]))
                 ec11_7 plain_hash = Ret 2) by reflexivity.
  assert (H2 : to_pub_tuple co11_7 (7, 1) ec11_7 = Ret (7, 1))
    by reflexivity.
  assert (H3 : valid_jac ec11_7_laws (7, 1, 1)) by reflexivity.
  assert (H4 : pt ec11_7_laws (7, 1, 1)
               = smul ec11_7_laws 3 (pt ec11_7_laws (EC.GJ ec11_7)))
    by reflexivity.
  assert (H5 : 0 < 3 < EC.n ec11_7) by (split; reflexivity).
  split; [repeat split; assumption|].
  exact (verify_accepts_iff ec11_7 co11_7 ec11_7_laws ec11_7_dsa_laws
           (Bytes [Byte.x00; Byte.x01]) (7, 1) plain_hash 2 3 2 7 1 3
           H1 H2 H3 H4 H5).
Defined.

Lemma verify_accepts_negated_s_witness :
  (to_pub_tuple co11_7 (7, 1) ec11_7 = Ret (7, 1) /\
   valid_jac ec11_7_laws (7, 1, 1) /\
   pt ec11_7_laws (7, 1, 1)
   = smul ec11_7_laws 3 (pt ec11_7_laws (EC.GJ ec11_7)) /\
   verify co11_7 (Bytes [Byte.x00; Byte.x01]) (7, 1) (SigTuple 3 2)
     ec11_7 plain_hash = Ret true) /\
  verify co11_7 (Bytes [Byte.x00; Byte.x01]) (7, 1)
    (SigTuple 3 (EC.n ec11_7 - 2)) ec11_7 plain_hash = Ret true.
Proof.
  assert (H2 : to_pub_tuple co11_7 (7, 1) ec11_7 = Ret (7, 1))
    by reflexivity.
  assert (H3 : valid_jac ec11_7_laws (7, 1, 1)) by reflexivity.
  assert (H4 : pt ec11_7_laws (7, 1, 1)
               = smul ec11_7_laws 3 (pt ec11_7_laws (EC.GJ ec11_7)))
    by reflexivity.
  assert (H5 : verify co11_7 (Bytes [Byte.x00; Byte.x01]) (7, 1)
                 (SigTuple 3 2) ec11_7 plain_hash = Ret true)
    by (vm_compute; reflexivity).
  split; [repeat split; assumption|].
  exact (verify_accepts_negated_s ec11_7 co11_7 ec11_7_laws ec11_7_dsa_laws
           (Bytes [Byte.x00; Byte.x01]) (7, 1) plain_hash 3 2 7 1 3
           H2 H3 H4 H5).
Defined.

(** ** The multipliers on affine points *)

Section AffineMultipliersProofs.

Context {Integer : Type}.
Context (ac : AffineCollaborators Integer) (ec : EC.Curve).
Context (L : CurveLaws (EC.group ec)).

(** A multiple of the order of [g] does not change [[k]g]. *)
Lemma smul_mod_order (k : Z) (g : carrier L) :
  0 < EC.n ec -> smul L (EC.n ec) g = gzero L ->
  smul L (k mod EC.n ec) g = smul L k g.
Proof.
  intros Hn Hord.
  rewrite (Z.div_mod k (EC.n ec)) at 2 by lia.
  rewrite smul_add, (Z.mul_comm (EC.n ec)), smul_mul_Z, Hord, smul_zero_r.
  symmetry. apply gplus_zero_l.
Qed.

(** X11: the three multipliers on affine points reduce the scalar
    modulo [n] before they multiply, so that every integer, negative
    ones too, is accepted: on a valid point (or the generator, for
    [None]) they return the same affine point, the one of
    [[m mod n]Q], which is [[m]Q] when [n] is a multiple of the order
    of [Q]. *)
Theorem affine_multipliers_reduce (fuel : nat) (m w : Integer)
  (Q : option Point) (mz wz : Z) (QJ : JacPoint) :
  0 < EC.n ec -> enough_fuel fuel (EC.n ec) ->
  affine_of_group_element ec L ->
  point_or_generator ac Q ec = Ret QJ -> valid_jac L QJ ->
  int_from_integer ac m = Ret mz ->
  int_from_integer ac w = Ret wz -> 1 <= wz ->
  exists R,
    valid_jac L R /\
    pt L R = smul L (mz mod EC.n ec) (pt L QJ) /\
    (smul L (EC.n ec) (pt L QJ) = gzero L -> pt L R = smul L mz (pt L QJ)) /\
    mult_mont_ladder ac m Q ec = EC._aff_from_jac ec R /\
    mult_base_3 ac fuel m Q ec = EC._aff_from_jac ec R /\
    mult_fixed_window ac fuel m w Q ec = EC._aff_from_jac ec R.
Proof.
  intros Hn Hfuel Haff HQJ Hv Hm Hw Hw1.
  pose proof (Z.mod_pos_bound mz (EC.n ec) Hn) as Hrange.
  assert (Hfuel' : enough_fuel fuel (mz mod EC.n ec))
    by (unfold enough_fuel in *; lia).
  destruct (mont_ladder_returns L (mz mod EC.n ec) QJ ltac:(lia) Hv)
    as (R & HR & HvR & HptR & _).
  destruct (base_3_returns L fuel (mz mod EC.n ec) QJ ltac:(lia) Hv Hfuel')
    as (R3 & HR3 & HvR3 & HptR3 & _).
  destruct (fixed_window_returns L fuel (mz mod EC.n ec) wz QJ
              ltac:(lia) Hw1 Hv Hfuel') as (Rw & HRw & HvRw & HptRw & _).
  exists R. split; [assumption|]. split; [assumption|]. split.
  { intros Hord. rewrite HptR. now apply smul_mod_order. }
  unfold mult_mont_ladder, mult_base_3, mult_fixed_window.
  rewrite HQJ, Hm. cbn [bind]. rewrite py_mod_ret by lia. cbn [bind].
  rewrite Hw. cbn [bind]. rewrite HR, HR3, HRw. cbn [bind].
  repeat split; apply Haff; try assumption; congruence.
Qed.

End AffineMultipliersProofs.

Lemma affine_multipliers_reduce_witness :
  (0 < EC.n ec11_7 /\ enough_fuel 8 (EC.n ec11_7) /\
   affine_of_group_element ec11_7 ec11_7_laws /\
   point_or_generator ac11_7 (Some (10, 2)) ec11_7 = Ret (10, 2, 1) /\
   valid_jac ec11_7_laws (10, 2, 1) /\
   int_from_integer ac11_7 (-3) = Ret (-3) /\
   int_from_integer ac11_7 2 = Ret 2 /\ 1 <= 2) /\
  exists R,
    valid_jac ec11_7_laws R /\
    pt ec11_7_laws R
    = smul ec11_7_laws (-3 mod EC.n ec11_7) (pt ec11_7_laws (10, 2, 1)) /\
    (smul ec11_7_laws (EC.n ec11_7) (pt ec11_7_laws (10, 2, 1))
     = gzero ec11_7_laws ->
     pt ec11_7_laws R = smul ec11_7_laws (-3) (pt ec11_7_laws (10, 2, 1))) /\
    mult_mont_ladder ac11_7 (-3) (Some (10, 2)) ec11_7
    = EC._aff_from_jac ec11_7 R /\
    mult_base_3 ac11_7 8 (-3) (Some (10, 2)) ec11_7
    = EC._aff_from_jac ec11_7 R /\
    mult_fixed_window ac11_7 8 (-3) 2 (Some (10, 2)) ec11_7
    = EC._aff_from_jac ec11_7 R.
Proof.
  assert (H1 : 0 < EC.n ec11_7) by reflexivity.
  assert (H2 : enough_fuel 8 (EC.n ec11_7)) by reflexivity.
  assert (H4 : point_or_generator ac11_7 (Some (10, 2)) ec11_7
               = Ret (10, 2, 1)) by reflexivity.
  assert (H5 : valid_jac ec11_7_laws (10, 2, 1)) by reflexivity.
  assert (H6 : int_from_integer ac11_7 (-3) = Ret (-3)) by reflexivity.
  assert (H7 : int_from_integer ac11_7 2 = Ret 2) by reflexivity.
  assert (H8 : 1 <= 2) by lia.
  split; [repeat split; try assumption; exact ec11_7_affine|].
  exact (affine_multipliers_reduce ac11_7 ec11_7 ec11_7_laws 8 (-3) 2
           (Some (10, 2)) (-3) 2 (10, 2, 1) H1 H2 ec11_7_affine
           H4 H5 H6 H7 H8).
Defined.

(** ** How strict verification and signing fail *)

Section FailureModes.

Context {PrvKey PubKey : Type}.
Context (ec : EC.Curve) (co : Collaborators PrvKey PubKey).
Context (L : CurveLaws (EC.group ec)) (D : DSALaws ec co L).

(** X12: on a challenge [c >= 0], a signature with [r >= 0] and [s] in
    [[1, n-1]], and a finite public key that is a multiple of the
    generator, [_verhlp] returns or fails one of its two assertions: it
    raises nothing else, and it does not loop. *)
Theorem _verhlp_fails_by_assertion (c r s d : Z) (PJ : JacPoint) :
  0 <= c -> 0 <= r -> 0 < s < EC.n ec ->
  valid_jac L PJ -> snd PJ <> 0 -> pt L PJ = smul L d (pt L (EC.GJ ec)) ->
  _verhlp co c PJ r s ec = Ret tt \/
  _verhlp co c PJ r s ec = Raise AssertionError.
Proof.
  intros Hc Hr Hs HvP HPZ HptP. pose proof (n_pos ec co L D) as Hn.
  unfold _verhlp. destruct PJ as [[PX PY] PZ]. simpl in HPZ.
  destruct (Z.eqb_spec PZ 0) as [|_]; [contradiction|].
  destruct (mod_inv_n _ _ _ D s Hs) as (w0 & Hw0 & Hw0pos & Hsw0).
  rewrite Hw0. cbn [bind].
  destruct (double_mult_spec _ _ _ D (r * w0) (PX, PY, PZ) (c * w0) (EC.GJ ec))
    as (RJ & HRJ & HvR & HptR);
    try (apply Z.mul_nonneg_nonneg; lia); try assumption;
    try apply (GJ_valid _ _ _ D).
  rewrite HRJ. cbn [bind]. destruct RJ as [[X Y] Z].
  destruct (Z.eqb_spec Z 0) as [HZ|HZ]; [now right|].
  rewrite (x_of_jac _ _ _ D X Y Z HvR HZ). cbn [bind].
  rewrite py_mod_ret by lia. cbn [bind].
  destruct (r =? x_of D (pt L (X, Y, Z)) mod EC.n ec); [now left|now right].
Qed.

End FailureModes.

Lemma _verhlp_fails_by_assertion_witness :
  (0 <= 2 /\ 0 <= 3 /\ 0 < 4 < EC.n ec11_7 /\
   valid_jac ec11_7_laws (7, 1, 1) /\ snd (7, 1, 1) <> 0 /\
   pt ec11_7_laws (7, 1, 1)
   = smul ec11_7_laws 3 (pt ec11_7_laws (EC.GJ ec11_7))) /\
  (_verhlp co11_7 2 (7, 1, 1) 3 4 ec11_7 = Ret tt \/
   _verhlp co11_7 2 (7, 1, 1) 3 4 ec11_7 = Raise AssertionError).
Proof.
  assert (H1 : 0 <= 2) by lia.
  assert (H2 : 0 <= 3) by lia.
  assert (H3 : 0 < 4 < EC.n ec11_7) by (split; reflexivity).
  assert (H4 : valid_jac ec11_7_laws (7, 1, 1)) by reflexivity.
  assert (H5 : snd (7, 1, 1) <> 0) by discriminate.
  assert (H6 : pt ec11_7_laws (7, 1, 1)
               = smul ec11_7_laws 3 (pt ec11_7_laws (EC.GJ ec11_7)))
    by reflexivity.
  split; [repeat split; assumption|].
  exact (_verhlp_fails_by_assertion ec11_7 co11_7 ec11_7_laws
           ec11_7_dsa_laws 2 3 4 3 (7, 1, 1) H1 H2 H3 H4 H5 H6).
Defined.

(** From 2^1025 on, an integer has no float half. *)
Lemma float_half_overflow (n : Z) :
  2 ^ 1025 <= n -> float_half n = Raise OverflowError.
Proof.
  intros Hn. assert (Hpos : 0 < n) by (pose proof (Z.pow_pos_nonneg 2 1025); lia).
  unfold float_half.
  assert (Hbig : 2 ^ 1025 <= Z.abs (round53 n)); [|now destruct (Z.leb_spec (2 ^ 1025) (Z.abs (round53 n))); [|lia]].
  unfold round53. rewrite Z.sgn_pos, Z.mul_1_l, (Z.abs_eq n) by lia.
  assert (Hlog : 1025 <= Z.log2 n) by (apply Z.log2_le_pow2; lia).
  unfold round53_pos. set (e := Z.log2 n + 1 - 53).
  destruct (Z.leb_spec e 0) as [|He]; [lia|].
  assert (H2e : 0 < 2 ^ e) by (apply Z.pow_pos_nonneg; lia).
  assert (Hq : 2 ^ 52 <= n / 2 ^ e).
  { apply Z.div_le_lower_bound; [lia|].
    rewrite <- Z.pow_add_r by lia.
    replace (e + 52) with (Z.log2 n) by lia.
    apply Z.log2_spec. lia. }
  assert (Hlow : 2 ^ 1025 <= n / 2 ^ e * 2 ^ e).
  { apply Z.le_trans with (2 ^ 52 * 2 ^ e); [|apply Z.mul_le_mono_nonneg_r; lia].
    rewrite <- Z.pow_add_r by lia. apply Z.pow_le_mono_r; lia. }
  assert (Habs : forall x, 2 ^ 1025 <= x -> 2 ^ 1025 <= Z.abs x)
    by (intros x Hx; lia).
  apply Habs.
  match goal with
  | |- context [if ?b then _ else _] => destruct b
  end; lia.
Qed.

(** X13: on a curve whose order is 2^1025 or more, [sign] returns no
    signature, whatever the message, the key and the nonce: the float
    division [ec.n / 2] of the low-s step overflows. *)
Theorem sign_overflows_on_large_order {PrvKey PubKey : Type}
  (co : Collaborators PrvKey PubKey) (ec : EC.Curve) (hf : HashF)
  (msg : StringT) (q : PrvKey) (k : option Z) :
  2 ^ 1025 <= EC.n ec ->
  forall r s, sign co msg q k ec hf <> Ret (r, s).
Proof.
  intros Hn r s Hsign. unfold sign in Hsign.
  apply bind_inv in Hsign. destruct Hsign as (c & _ & Hsign).
  apply bind_inv in Hsign. destruct Hsign as (d & _ & Hsign).
  apply bind_inv in Hsign. destruct Hsign as (k' & _ & Hsign).
  destruct ((0 <? k') && (k' <? EC.n ec)); [|discriminate].
  unfold _sign in Hsign.
  apply bind_inv in Hsign. destruct Hsign as (RJ & _ & Hsign).
  apply bind_inv in Hsign. destruct Hsign as (Rx & _ & Hsign).
  apply bind_inv in Hsign. destruct Hsign as (r0 & _ & Hsign).
  destruct (r0 =? 0); [discriminate|].
  apply bind_inv in Hsign. destruct Hsign as (k1 & _ & Hsign).
  apply bind_inv in Hsign. destruct Hsign as (s0 & _ & Hsign).
  destruct (s0 =? 0); [discriminate|].
  rewrite float_half_overflow in Hsign by assumption. discriminate.
Qed.

Lemma sign_overflows_on_large_order_witness :
  2 ^ 1025 <= EC.n (weierstrass_curve 11 2 7 (2 ^ 1025 + 1) 1 (6, 9)) /\
  forall r s,
    sign co11_7 (Bytes []) 3 (Some 2)
      (weierstrass_curve 11 2 7 (2 ^ 1025 + 1) 1 (6, 9)) plain_hash
    <> Ret (r, s).
Proof.
  assert (H : 2 ^ 1025
              <= EC.n (weierstrass_curve 11 2 7 (2 ^ 1025 + 1) 1 (6, 9))).
  { unfold weierstrass_curve, EC.n. lia. }
  split; [exact H|].
  exact (sign_overflows_on_large_order co11_7
           (weierstrass_curve 11 2 7 (2 ^ 1025 + 1) 1 (6, 9)) plain_hash
           (Bytes []) 3 (Some 2) H).
Defined.
